(** * The video-call room coordinator of Nexus-Platform

    A shallow embedding of [nexus-backend/utils/videoCallManager.js]
    (class [VideoCallManager]) and of [endVideoCall] from
    [nexus-backend/controllers/videoCallController.js].

    Conventions of the embedding.
    - A JavaScript [Map] is an insertion-ordered association list
      ([JsMap]): [Array.from(map.values())] is observable in the
      coordinator's replies, so the order of insertion is kept.
    - [this.rooms] and [this.participants] form the [Manager]; the
      socket.io server [this.io] is the [Io] record (connected sockets and
      the adapter's broadcast groups).  Both together are the [World].
    - What a handler sends or asks of a collaborator is returned as a list
      of [Effect]s, in program order: a packet written to one connection,
      a call of the Meeting model, a connection closed by the server.
    - What a handler receives from outside is an argument: the settled
      promise of a Meeting query, the clock ([new Date()]), a fresh
      [uuidv4()].
    - An async handler runs without interruption from one [await] to
      the next, and other handlers run while it waits.  The handlers
      that await after they have touched the state are split at that
      [await]: [removeParticipant_begin] / [removeParticipant_resume] and
      [handleJoinRoom_begin] / [handleJoinRoom_resume].  [step] and
      [exec] run the coordinator with the suspended handlers resumed in
      any order; [handle] and [run] are the case in which what a handler
      awaits settles before the next event is handled
      ([exec_uninterrupted]).
    - The schema of the Meeting model trims [notes] when they are
      assigned.
    - [console.log] / [console.error] output is not part of the model.

    The part "Further parts of the code" embeds what surrounds the
    coordinator: [getVideoCallToken] and [getActiveCallStats] of the same
    controller, the Document model ([hasPermission],
    [getSignatureStatus]) with [shareDocument], [hasConflict] of the
    Meeting model, and [rateLimit] of the auth middleware. *)

From Stdlib Require Import ZArith.
From stdpp Require Import base tactics option list strings pretty.

Local Open Scope string_scope.
Local Open Scope list_scope.
Local Open Scope nat_scope.

(** ** JavaScript [Map]: insertion-ordered, keyed by strings *)

Module JsMap.
Section defs.
Context {V : Type}.

Definition t := list (string * V).

Definition empty : t := [].

Fixpoint get (k : string) (m : t) : option V :=
  match m with
  | [] => None
  | (k', v) :: m' => if decide (k = k') then Some v else get k m'
  end.

Definition has (k : string) (m : t) : bool :=
  match get k m with Some _ => true | None => false end.

(** [map.set(k, v)]: an existing key keeps its place, a new one goes last. *)
Fixpoint set (k : string) (v : V) (m : t) : t :=
  match m with
  | [] => [(k, v)]
  | (k', v') :: m' =>
      if decide (k = k') then (k, v) :: m' else (k', v') :: set k v m'
  end.

Fixpoint delete (k : string) (m : t) : t :=
  match m with
  | [] => []
  | (k', v') :: m' =>
      if decide (k = k') then delete k m' else (k', v') :: delete k m'
  end.

Definition size (m : t) : nat := length m.
Definition keys (m : t) : list string := map fst m.
Definition values (m : t) : list V := map snd m.
Definition entries (m : t) : list (string * V) := m.
End defs.
Arguments t : clear implicits.
End JsMap.

(** ** Data model *)

(** Identifiers are strings. *)
Abbreviation SocketId := string (only parsing).
Abbreviation UserId := string (only parsing).
Abbreviation MeetingId := string (only parsing).
Abbreviation RoomId := string (only parsing).
(** Milliseconds since the epoch, as [Date.prototype.getTime] gives them. *)
Abbreviation Millis := Z (only parsing).

(** The participant object built in [handleJoinRoom]. *)
Module Participant.
Record t := mk {
  socketId : SocketId;
  userId : UserId;
  userName : string;
  isOrganizer : bool;
  joinedAt : Millis;
  audio : bool;
  video : bool;
  isScreenSharing : bool
}.
Definition with_audio (b : bool) (p : t) : t :=
  mk (socketId p) (userId p) (userName p) (isOrganizer p) (joinedAt p)
     b (video p) (isScreenSharing p).
Definition with_video (b : bool) (p : t) : t :=
  mk (socketId p) (userId p) (userName p) (isOrganizer p) (joinedAt p)
     (audio p) b (isScreenSharing p).
Definition with_isScreenSharing (b : bool) (p : t) : t :=
  mk (socketId p) (userId p) (userName p) (isOrganizer p) (joinedAt p)
     (audio p) (video p) b.
End Participant.

(** The entry of the reverse index [this.participants]:
    [{ ...participant, roomId }], a copy of the participant (the spread
    makes a new object) extended with the room it joined. *)
Module Entry.
Record t := mk {
  participant : Participant.t;
  roomId : RoomId
}.
Definition update (f : Participant.t -> Participant.t) (e : t) : t :=
  mk (f (participant e)) (roomId e).
End Entry.

Module ChatMessage.
Record t := mk {
  id : string;
  userId : UserId;
  userName : string;
  message : string;
  timestamp : Millis;
  isOrganizer : bool
}.
End ChatMessage.

Module Room.
Record t := mk {
  participants : JsMap.t Participant.t;
  meetingId : MeetingId;
  meetingTitle : string;
  startTime : Millis;
  isRecording : bool;
  chatMessages : list ChatMessage.t
}.
Definition with_participants (ps : JsMap.t Participant.t) (r : t) : t :=
  mk ps (meetingId r) (meetingTitle r) (startTime r) (isRecording r)
     (chatMessages r).
Definition with_chatMessages (ms : list ChatMessage.t) (r : t) : t :=
  mk (participants r) (meetingId r) (meetingTitle r) (startTime r)
     (isRecording r) ms.
End Room.

(** The two fields the constructor of [VideoCallManager] initialises. *)
Record Manager := mkManager {
  rooms : JsMap.t Room.t;
  participants : JsMap.t Entry.t
}.

Definition constructor : Manager := mkManager JsMap.empty JsMap.empty.

(** ** The Meeting collaborator *)

Inductive MeetingStatus := scheduled | ongoing | completed | cancelled.

(** A meeting document as the coordinator reads it: the organizer and the
    attendees by their ids ([organizer._id.toString()],
    [a.user._id.toString()]), the title, and the two fields it writes. *)
Module Meeting.
Record t := mk {
  title : string;
  organizer : UserId;
  attendees : list UserId;
  status : MeetingStatus;
  notes : option string
}.
End Meeting.

(** How an awaited promise settles. *)
Inductive Settled (A : Type) :=
| Resolved (a : A)
| Rejected (message : string).
Arguments Resolved {A} a.
Arguments Rejected {A} message.

(** ** The socket.io server *)

(** The library is not part of the repository; this is its documented
    behaviour, as far as the coordinator relies on it.  [sockets] is
    [io.sockets.sockets] (the connected sockets); [groups] is the adapter's
    table of broadcast groups (socket.io calls them rooms): group name to
    members.  A socket is put in the group named by its own id when it
    connects, [socket.join] adds it to a further group, and a disconnect
    takes it out of every group. *)
Record Io := mkIo {
  sockets : list SocketId;
  groups : JsMap.t (list SocketId)
}.

Definition members (io : Io) (group : string) : list SocketId :=
  default [] (JsMap.get group (groups io)).

Definition add_member (group : string) (sid : SocketId) (io : Io) : Io :=
  let ms := members io group in
  mkIo (sockets io)
       (JsMap.set group (if bool_decide (sid ∈ ms) then ms else ms ++ [sid])
                  (groups io)).

(** Taking a socket out of one group, and out of every group. *)
Definition del_member (group : string) (sid : SocketId) (io : Io) : Io :=
  match JsMap.get group (groups io) with
  | None => io
  | Some ms =>
      mkIo (sockets io)
           (JsMap.set group (filter (λ s, s ≠ sid) ms) (groups io))
  end.

Definition del_all (sid : SocketId) (io : Io) : Io :=
  mkIo (sockets io)
       (map (λ g, (g.1, filter (λ s, s ≠ sid) g.2)) (groups io)).

(** [io.on('connection', ...)]: a new socket, in its own group. *)
Definition io_connect (sid : SocketId) (io : Io) : Io :=
  add_member sid sid (mkIo (sockets io ++ [sid]) (groups io)).

(** What the transport does when a socket closes, before the 'disconnect'
    listeners run: the socket leaves every group and the namespace. *)
Definition io_close (sid : SocketId) (io : Io) : Io :=
  let io' := del_all sid io in
  mkIo (filter (λ s, s ≠ sid) (sockets io')) (groups io').

(** [socket.join(group)] and [socket.leave(group)]. *)
Definition socket_join (sid : SocketId) (group : string) (io : Io) : Io :=
  add_member group sid io.
Definition socket_leave (sid : SocketId) (group : string) (io : Io) : Io :=
  del_member group sid io.

(** ** Events sent to clients, and effects *)

(** The object mapped out of each participant for 'room-joined'. *)
Module ParticipantView.
Record t := mk {
  socketId : SocketId;
  userId : UserId;
  userName : string;
  isOrganizer : bool;
  audio : bool;
  video : bool;
  isScreenSharing : bool
}.
Definition of_participant (p : Participant.t) : t :=
  mk (Participant.socketId p) (Participant.userId p)
     (Participant.userName p) (Participant.isOrganizer p)
     (Participant.audio p) (Participant.video p)
     (Participant.isScreenSharing p).
End ParticipantView.

(** The payload of a signaling message is opaque to the coordinator. *)
Abbreviation Payload := string (only parsing).

Inductive ServerEvent :=
| error_ (message : string)
| user_joined (socketId : SocketId) (userId : UserId) (userName : string)
              (isOrganizer : bool)
| room_joined (roomId : RoomId) (meetingTitle : string)
              (participants : list ParticipantView.t)
              (chatMessages : list ChatMessage.t)
| offer_ (fromSocketId : SocketId) (offer : Payload)
| answer_ (fromSocketId : SocketId) (answer : Payload)
| ice_candidate (fromSocketId : SocketId) (candidate : Payload)
| participant_audio_toggle (socketId : SocketId) (audio : bool)
| participant_video_toggle (socketId : SocketId) (video : bool)
| screen_share_started (socketId : SocketId) (userName : string)
| screen_share_stopped (socketId : SocketId)
| chat_message (m : ChatMessage.t)
| user_left (socketId : SocketId) (userName : string)
| call_ended (message : string) (endedBy : string).

Inductive Effect :=
| Deliver (to : SocketId) (ev : ServerEvent)
    (** one packet written to one connection *)
| FindByIdAndUpdate (meetingId : MeetingId) (status : MeetingStatus)
                    (notes : option string)
    (** [Meeting.findByIdAndUpdate(meetingId, { status, notes })] issued *)
| MeetingSave (meetingId : MeetingId) (status : MeetingStatus) (notes : string)
    (** [meeting.save()] issued with these fields modified *)
| Disconnected (sid : SocketId)
    (** [socket.disconnect()]: the server closes the connection *).

(** [socket.emit(ev)]: to the socket itself. *)
Definition socket_emit (socket : SocketId) (ev : ServerEvent) : list Effect :=
  [Deliver socket ev].

(** [socket.to(group).emit(ev)]: to every member of the group except the
    emitting socket. *)
Definition socket_to_emit (io : Io) (socket : SocketId) (group : string)
    (ev : ServerEvent) : list Effect :=
  map (λ s, Deliver s ev) (filter (λ s, s ≠ socket) (members io group)).

(** [io.to(group).emit(ev)]: to every member of the group. *)
Definition io_to_emit (io : Io) (group : string) (ev : ServerEvent)
    : list Effect :=
  map (λ s, Deliver s ev) (members io group).

Record World := mkWorld {
  manager : Manager;
  io : Io
}.

Definition initial : World := mkWorld constructor (mkIo [] JsMap.empty).

(** ** The handlers of [VideoCallManager] *)

(** [array.slice(-n)]: the last [n] elements, all of them when there are
    fewer. *)
Definition slice_last {A} (n : nat) (l : list A) : list A :=
  drop (length l - n) l.

Definition room_id_of (meetingId : MeetingId) : RoomId :=
  "meeting_" +:+ meetingId.

Definition msg_not_found : string := "Meeting not found".
Definition msg_not_authorized : string :=
  "You are not authorized to join this meeting".

(** What [handleJoinRoom] receives from outside: how the two Meeting
    queries settle and what the two [new Date()] read. *)
Module JoinEnv.
Record t := mk {
  found : Settled (option Meeting.t);  (* Meeting.findById(...).populate(...) *)
  updated : Settled unit;              (* Meeting.findByIdAndUpdate(...) *)
  startTime : Millis;                  (* new Date() of a new room *)
  joinedAt : Millis                    (* new Date() of the participant *)
}.
End JoinEnv.

(** [handleJoinRoom(socket, { meetingId, userId, userName })], run from
    the moment [Meeting.findById] has settled to its end, nothing else
    being handled while it awaits the status write
    ([handleJoinRoom_begin] and [handleJoinRoom_resume], below, are its
    two halves).  The third component is the message of the error it
    throws, if it throws; what was mutated before the throw stays
    mutated. *)
Definition handleJoinRoom (w : World) (socket : SocketId)
    (meetingId : MeetingId) (userId : UserId) (userName : string)
    (env : JoinEnv.t) : World * list Effect * option string :=
  match JoinEnv.found env with
  | Rejected e => (w, [], Some e)
  | Resolved None => (w, [], Some msg_not_found)
  | Resolved (Some meeting) =>
      let isOrganizer := bool_decide (Meeting.organizer meeting = userId) in
      let isAttendee :=
        existsb (λ a, bool_decide (a = userId)) (Meeting.attendees meeting) in
      if negb isOrganizer && negb isAttendee
      then (w, [], Some msg_not_authorized)
      else
        let roomId := room_id_of meetingId in
        let m := manager w in
        (* Initialize room if it doesn't exist *)
        let '(rooms1, room, effs1, thrown) :=
          match JsMap.get roomId (rooms m) with
          | Some room => (rooms m, room, [], None)
          | None =>
              let room :=
                Room.mk JsMap.empty meetingId (Meeting.title meeting)
                        (JoinEnv.startTime env) false [] in
              (JsMap.set roomId room (rooms m), room,
               [FindByIdAndUpdate meetingId ongoing None],
               match JoinEnv.updated env with
               | Resolved _ => None
               | Rejected e => Some e
               end)
          end in
        match thrown with
        | Some e => (mkWorld (mkManager rooms1 (participants m)) (io w),
                     effs1, Some e)
        | None =>
            (* Add participant to room *)
            let participant :=
              Participant.mk socket userId userName isOrganizer
                             (JoinEnv.joinedAt env) true true false in
            let room' :=
              Room.with_participants
                (JsMap.set socket participant (Room.participants room)) room in
            let m' :=
              mkManager (JsMap.set roomId room' rooms1)
                        (JsMap.set socket (Entry.mk participant roomId)
                                   (participants m)) in
            (* Join socket room *)
            let io' := socket_join socket roomId (io w) in
            (* Send current room state to new participant *)
            let participantList :=
              map ParticipantView.of_participant
                  (JsMap.values (Room.participants room')) in
            (mkWorld m' io',
             effs1
             ++ socket_to_emit io' socket roomId
                  (user_joined socket userId userName isOrganizer)
             ++ socket_emit socket
                  (room_joined roomId (Room.meetingTitle room') participantList
                               (slice_last 50 (Room.chatMessages room'))),
             None)
        end
  end.

(** The 'join-room' listener of [initializeSocket]: an error thrown by
    [handleJoinRoom] is emitted to the joining socket. *)
Definition join_room_listener (w : World) (socket : SocketId)
    (meetingId : MeetingId) (userId : UserId) (userName : string)
    (env : JoinEnv.t) : World * list Effect :=
  let '(w', effs, thrown) :=
    handleJoinRoom w socket meetingId userId userName env in
  match thrown with
  | None => (w', effs)
  | Some message => (w', effs ++ socket_emit socket (error_ message))
  end.

Definition handleOffer (w : World) (socket targetSocketId : SocketId)
    (offer : Payload) : World * list Effect :=
  (w, socket_to_emit (io w) socket targetSocketId (offer_ socket offer)).

Definition handleAnswer (w : World) (socket targetSocketId : SocketId)
    (answer : Payload) : World * list Effect :=
  (w, socket_to_emit (io w) socket targetSocketId (answer_ socket answer)).

Definition handleIceCandidate (w : World) (socket targetSocketId : SocketId)
    (candidate : Payload) : World * list Effect :=
  (w, socket_to_emit (io w) socket targetSocketId
        (ice_candidate socket candidate)).

(** The four media handlers.  Each looks the socket up in the reverse
    index, then its room, then itself in the room; sets the flag on the
    room's participant object and on the index entry (two distinct
    objects); and notifies the others in the room. *)

Definition handleToggleAudio (w : World) (socket : SocketId) (audio : bool)
    : World * list Effect :=
  let m := manager w in
  match JsMap.get socket (participants m) with
  | Some participant =>
      let roomId := Entry.roomId participant in
      match JsMap.get roomId (rooms m) with
      | Some room =>
          match JsMap.get socket (Room.participants room) with
          | Some p =>
              (* room.participants.get(socket.id).audio = audio; participant.audio = audio *)
              let room' :=
                Room.with_participants
                  (JsMap.set socket (Participant.with_audio audio p)
                             (Room.participants room)) room in
              let participant' :=
                Entry.update (Participant.with_audio audio) participant in
              (mkWorld
                 (mkManager (JsMap.set roomId room' (rooms m))
                            (JsMap.set socket participant' (participants m)))
                 (io w),
               (* Notify other participants *)
               socket_to_emit (io w) socket roomId
                 (participant_audio_toggle socket audio))
          | None => (w, [])
          end
      | None => (w, [])
      end
  | None => (w, [])
  end.

Definition handleToggleVideo (w : World) (socket : SocketId) (video : bool)
    : World * list Effect :=
  let m := manager w in
  match JsMap.get socket (participants m) with
  | Some participant =>
      let roomId := Entry.roomId participant in
      match JsMap.get roomId (rooms m) with
      | Some room =>
          match JsMap.get socket (Room.participants room) with
          | Some p =>
              (* room.participants.get(socket.id).video = video; participant.video = video *)
              let room' :=
                Room.with_participants
                  (JsMap.set socket (Participant.with_video video p)
                             (Room.participants room)) room in
              let participant' :=
                Entry.update (Participant.with_video video) participant in
              (mkWorld
                 (mkManager (JsMap.set roomId room' (rooms m))
                            (JsMap.set socket participant' (participants m)))
                 (io w),
               (* Notify other participants *)
               socket_to_emit (io w) socket roomId
                 (participant_video_toggle socket video))
          | None => (w, [])
          end
      | None => (w, [])
      end
  | None => (w, [])
  end.

Definition handleStartScreenShare (w : World) (socket : SocketId)
    : World * list Effect :=
  let m := manager w in
  match JsMap.get socket (participants m) with
  | Some participant =>
      let roomId := Entry.roomId participant in
      match JsMap.get roomId (rooms m) with
      | Some room =>
          match JsMap.get socket (Room.participants room) with
          | Some p =>
              (* ... .isScreenSharing = true, on both objects *)
              let room' :=
                Room.with_participants
                  (JsMap.set socket (Participant.with_isScreenSharing true p)
                             (Room.participants room)) room in
              let participant' :=
                Entry.update (Participant.with_isScreenSharing true) participant in
              (mkWorld
                 (mkManager (JsMap.set roomId room' (rooms m))
                            (JsMap.set socket participant' (participants m)))
                 (io w),
               (* Notify other participants *)
               socket_to_emit (io w) socket roomId
                 (screen_share_started socket
                    (Participant.userName (Entry.participant participant))))
          | None => (w, [])
          end
      | None => (w, [])
      end
  | None => (w, [])
  end.

Definition handleStopScreenShare (w : World) (socket : SocketId)
    : World * list Effect :=
  let m := manager w in
  match JsMap.get socket (participants m) with
  | Some participant =>
      let roomId := Entry.roomId participant in
      match JsMap.get roomId (rooms m) with
      | Some room =>
          match JsMap.get socket (Room.participants room) with
          | Some p =>
              (* ... .isScreenSharing = false, on both objects *)
              let room' :=
                Room.with_participants
                  (JsMap.set socket (Participant.with_isScreenSharing false p)
                             (Room.participants room)) room in
              let participant' :=
                Entry.update (Participant.with_isScreenSharing false) participant in
              (mkWorld
                 (mkManager (JsMap.set roomId room' (rooms m))
                            (JsMap.set socket participant' (participants m)))
                 (io w),
               (* Notify other participants *)
               socket_to_emit (io w) socket roomId
                 (screen_share_stopped socket))
          | None => (w, [])
          end
      | None => (w, [])
      end
  | None => (w, [])
  end.

(** The shape the four media handlers share, used to reason about them at
    once: [f] is the assignment, [notice] the event sent to the others. *)
Definition update_own_flag (w : World) (socket : SocketId)
    (f : Participant.t -> Participant.t)
    (notice : Entry.t -> ServerEvent) : World * list Effect :=
  let m := manager w in
  match JsMap.get socket (participants m) with
  | Some participant =>
      let roomId := Entry.roomId participant in
      match JsMap.get roomId (rooms m) with
      | Some room =>
          match JsMap.get socket (Room.participants room) with
          | Some p =>
              let room' :=
                Room.with_participants
                  (JsMap.set socket (f p) (Room.participants room)) room in
              (mkWorld
                 (mkManager
                    (JsMap.set roomId room' (rooms m))
                    (JsMap.set socket (Entry.update f participant)
                               (participants m)))
                 (io w),
               socket_to_emit (io w) socket roomId (notice participant))
          | None => (w, [])
          end
      | None => (w, [])
      end
  | None => (w, [])
  end.

(** [handleChatMessage(socket, { message })].  [trim] is
    [String.prototype.trim]; [uuid] is what [uuidv4()] returns and [now]
    what [new Date()] reads. *)
Definition chat_retention : nat := 100.

Definition handleChatMessage (trim : string -> string) (w : World)
    (socket : SocketId) (message : string) (uuid : string) (now : Millis)
    : World * list Effect :=
  let m := manager w in
  match JsMap.get socket (participants m) with
  | Some participant =>
      if bool_decide (trim message = "") then (w, [])
      else
        let roomId := Entry.roomId participant in
        match JsMap.get roomId (rooms m) with
        | Some room =>
            let chatMessage :=
              ChatMessage.mk uuid
                (Participant.userId (Entry.participant participant))
                (Participant.userName (Entry.participant participant))
                (trim message) now
                (Participant.isOrganizer (Entry.participant participant)) in
            let pushed := Room.chatMessages room ++ [chatMessage] in
            (* Keep only last 100 messages *)
            let kept :=
              if decide (chat_retention < length pushed)
              then slice_last chat_retention pushed
              else pushed in
            (mkWorld
               (mkManager
                  (JsMap.set roomId (Room.with_chatMessages kept room)
                             (rooms m))
                  (participants m))
               (io w),
             (* Broadcast message to all participants in the room *)
             io_to_emit (io w) roomId (chat_message chatMessage))
        | None => (w, [])
        end
  | None => (w, [])
  end.

(** The note written when a room is torn down. *)
Definition completion_note (chatCount : nat) : string :=
  if decide (0 < chatCount)
  then "Meeting completed with " +:+ pretty chatCount +:+ " chat messages"
  else "Meeting completed".

(** [removeParticipant(socket)] has one [await], on the Meeting update of
    the teardown.  [removeParticipant_begin] is the function up to that
    [await] (or to its end, when it does not reach it); it returns what is
    left to do after the [await], if anything. *)
Module Pending.
Record t := mk {
  roomId : RoomId;      (* participant.roomId *)
  socketId : SocketId   (* socket.id *)
}.
End Pending.

Definition removeParticipant_begin (w : World) (socket : SocketId)
    : World * list Effect * option Pending.t :=
  let m := manager w in
  match JsMap.get socket (participants m) with
  | Some participant =>
      let roomId := Entry.roomId participant in
      match JsMap.get roomId (rooms m) with
      | Some room =>
          let room' :=
            Room.with_participants
              (JsMap.delete socket (Room.participants room)) room in
          let rooms' := JsMap.set roomId room' (rooms m) in
          (* Notify other participants *)
          let effs :=
            socket_to_emit (io w) socket roomId
              (user_left socket
                 (Participant.userName (Entry.participant participant))) in
          (* If room is empty, clean it up and update meeting status *)
          if decide (JsMap.size (Room.participants room') = 0)
          then
            (mkWorld (mkManager rooms' (participants m)) (io w),
             effs ++ [FindByIdAndUpdate (Room.meetingId room') completed
                        (Some (completion_note
                                 (length (Room.chatMessages room'))))],
             Some (Pending.mk roomId socket))
          else
            (mkWorld (mkManager rooms' (JsMap.delete socket (participants m)))
                     (io w),
             effs, None)
      | None =>
          (mkWorld (mkManager (rooms m) (JsMap.delete socket (participants m)))
                   (io w),
           [], None)
      end
  | None => (w, [], None)
  end.

(** After the [await].  The update sits in a [try] whose [catch] only logs,
    so a rejection does not escape; were it to escape, the statements after
    the [try] would not run.  They delete the room from the registry and
    then the socket from the reverse index. *)
Definition removeParticipant_resume (w : World) (k : Pending.t)
    (updated : Settled unit) : World * option string :=
  let m := manager w in
  let thrown : option string :=
    match updated with
    | Resolved _ => None
    | Rejected _ => None   (* catch (error) { console.error(...) } *)
    end in
  match thrown with
  | Some error => (w, Some error)
  | None =>
      (mkWorld
         (mkManager (JsMap.delete (Pending.roomId k) (rooms m))
                    (JsMap.delete (Pending.socketId k) (participants m)))
         (io w),
       None)
  end.

(** [removeParticipant] run from start to end, nothing else being
    handled while it awaits; the third component is the error it throws,
    if any. *)
Definition removeParticipant (w : World) (socket : SocketId)
    (updated : Settled unit) : World * list Effect * option string :=
  let '(w', effs, k) := removeParticipant_begin w socket in
  match k with
  | Some k =>
      let '(w'', thrown) := removeParticipant_resume w' k updated in
      (w'', effs, thrown)
  | None => (w', effs, None)
  end.

Definition handleLeaveRoom (w : World) (socket : SocketId)
    (updated : Settled unit) : World * list Effect * option string :=
  removeParticipant w socket updated.

Definition handleDisconnect (w : World) (socket : SocketId)
    (updated : Settled unit) : World * list Effect * option string :=
  removeParticipant w socket updated.

(** ** [getRoomStats] *)

Module ParticipantStats.
Record t := mk {
  userName : string;
  joinedAt : Millis;
  audio : bool;
  video : bool;
  isScreenSharing : bool
}.
Definition of_participant (p : Participant.t) : t :=
  mk (Participant.userName p) (Participant.joinedAt p)
     (Participant.audio p) (Participant.video p)
     (Participant.isScreenSharing p).
End ParticipantStats.

Module RoomStats.
Record t := mk {
  roomId : RoomId;
  meetingId : MeetingId;
  meetingTitle : string;
  participantCount : nat;
  startTime : Millis;
  duration : Z;
  isRecording : bool;
  participants : list ParticipantStats.t
}.
End RoomStats.

Module Stats.
Record t := mk {
  totalRooms : nat;
  totalParticipants : nat;
  rooms : list RoomStats.t
}.
End Stats.

(** [now] is what [Date.now()] reads. *)
Definition getRoomStats (m : Manager) (now : Millis) : Stats.t :=
  let stats :=
    map (λ entry : RoomId * Room.t,
           let '(roomId, room) := entry in
           RoomStats.mk roomId (Room.meetingId room) (Room.meetingTitle room)
             (JsMap.size (Room.participants room)) (Room.startTime room)
             (now - Room.startTime room)%Z (Room.isRecording room)
             (map ParticipantStats.of_participant
                  (JsMap.values (Room.participants room))))
        (JsMap.entries (rooms m)) in
  Stats.mk (JsMap.size (rooms m)) (JsMap.size (participants m)) stats.

(** ** [endVideoCall] of the video-call controller *)

Module Response.
Record t := mk {
  code : nat;
  message : string;
  meeting : option Meeting.t
}.
End Response.

(** One turn of the [forEach] over the room's socket ids: a socket still
    connected leaves the group and is disconnected by the server.
    [socket.disconnect()] closes the transport side and runs the
    'disconnect' listener, [handleDisconnect], at once and up to its first
    [await]. *)
Definition force_disconnect (roomId : RoomId)
    (acc : World * list Effect * list Pending.t) (socketId : SocketId)
    : World * list Effect * list Pending.t :=
  let '(w, effs, pending) := acc in
  if bool_decide (socketId ∈ sockets (io w)) then
    let io1 := socket_leave socketId roomId (io w) in
    let io2 := io_close socketId io1 in
    let '(w', effs', k) :=
      removeParticipant_begin (mkWorld (manager w) io2) socketId in
    (w', effs ++ [Disconnected socketId] ++ effs', pending ++ option_list k)
  else acc.

Definition msg_call_ended : string :=
  "The call has been ended by the organizer".

(** [endVideoCall(req, res)]: [meetingId] is [req.params.meetingId],
    [userId] and [userName] are [req.user._id] and [req.user.name];
    [found] and [saved] are how [Meeting.findById] and [meeting.save()]
    settle, [nowIso] is [new Date().toISOString()].  The schema of the
    Meeting model declares [notes] with [trim: true], so the assignment to
    [meeting.notes] stores the string trimmed ([trim] is
    [String.prototype.trim]): a meeting that had no notes gets the
    end-of-call line without the line feed in front of it.  The last
    component lists the [removeParticipant] calls left waiting at their
    [await]. *)
Definition endVideoCall (trim : string -> string) (w : World)
    (meetingId : MeetingId) (userId : UserId) (userName : string)
    (found : Settled (option Meeting.t)) (nowIso : string)
    (saved : Settled unit)
    : World * list Effect * Response.t * list Pending.t :=
  match found with
  | Rejected e => (w, [], Response.mk 500 e None, [])
  | Resolved None => (w, [], Response.mk 404 msg_not_found None, [])
  | Resolved (Some meeting) =>
      if bool_decide (Meeting.organizer meeting ≠ userId)
      then (w, [], Response.mk 403 "Only the organizer can end the call" None,
            [])
      else
        let roomId := room_id_of meetingId in
        let '(w1, effs1, pending) :=
          match JsMap.get roomId (rooms (manager w)) with
          | Some room =>
              (* Notify all participants that the call is ending *)
              let notice :=
                io_to_emit (io w) roomId
                           (call_ended msg_call_ended userName) in
              (* Force disconnect all participants *)
              let socketIds := JsMap.keys (Room.participants room) in
              let '(w', effs', pending) :=
                foldl (force_disconnect roomId) (w, notice, []) socketIds in
              (* Clean up room *)
              (mkWorld
                 (mkManager (JsMap.delete roomId (rooms (manager w')))
                            (participants (manager w')))
                 (io w'),
               effs', pending)
          | None => (w, [], [])
          end in
        (* Update meeting status *)
        let notes' :=
          trim (default "" (Meeting.notes meeting)
                +:+ String (Ascii.ascii_of_nat 10)
                      ("Call ended by organizer at " +:+ nowIso)) in
        let meeting' :=
          Meeting.mk (Meeting.title meeting) (Meeting.organizer meeting)
                     (Meeting.attendees meeting) completed (Some notes') in
        let effs := effs1 ++ [MeetingSave meetingId completed notes'] in
        match saved with
        | Resolved _ =>
            (w1, effs,
             Response.mk 200 "Video call ended successfully" (Some meeting'),
             pending)
        | Rejected e => (w1, effs, Response.mk 500 e None, pending)
        end
  end.

(** ** The events a client can cause, and the listeners of
    [initializeSocket] *)

Inductive ClientEvent :=
| ev_connection (socket : SocketId)
| ev_join_room (socket : SocketId) (meetingId : MeetingId) (userId : UserId)
               (userName : string) (env : JoinEnv.t)
| ev_offer (socket targetSocketId : SocketId) (offer : Payload)
| ev_answer (socket targetSocketId : SocketId) (answer : Payload)
| ev_ice_candidate (socket targetSocketId : SocketId) (candidate : Payload)
| ev_toggle_audio (socket : SocketId) (audio : bool)
| ev_toggle_video (socket : SocketId) (video : bool)
| ev_start_screen_share (socket : SocketId)
| ev_stop_screen_share (socket : SocketId)
| ev_chat_message (socket : SocketId) (message : string) (uuid : string)
                  (now : Millis)
| ev_leave_room (socket : SocketId) (updated : Settled unit)
| ev_disconnect (socket : SocketId) (updated : Settled unit).

Definition sender (ev : ClientEvent) : SocketId :=
  match ev with
  | ev_connection s | ev_join_room s _ _ _ _ | ev_offer s _ _
  | ev_answer s _ _ | ev_ice_candidate s _ _ | ev_toggle_audio s _
  | ev_toggle_video s _ | ev_start_screen_share s | ev_stop_screen_share s
  | ev_chat_message s _ _ _ | ev_leave_room s _ | ev_disconnect s _ => s
  end.

Section listeners.
(** [String.prototype.trim] of the host. *)
Variable trim : string -> string.

(** One event handled from start to end: the write that its handler
    awaits, if it awaits one, settles before anything else is handled.
    ([step], below, is the general case.) *)
Definition handle (w : World) (ev : ClientEvent) : World * list Effect :=
  match ev with
  | ev_connection socket =>
      (mkWorld (manager w) (io_connect socket (io w)), [])
  | ev_join_room socket meetingId userId userName env =>
      join_room_listener w socket meetingId userId userName env
  | ev_offer socket target offer => handleOffer w socket target offer
  | ev_answer socket target answer => handleAnswer w socket target answer
  | ev_ice_candidate socket target candidate =>
      handleIceCandidate w socket target candidate
  | ev_toggle_audio socket audio => handleToggleAudio w socket audio
  | ev_toggle_video socket video => handleToggleVideo w socket video
  | ev_start_screen_share socket => handleStartScreenShare w socket
  | ev_stop_screen_share socket => handleStopScreenShare w socket
  | ev_chat_message socket message uuid now =>
      handleChatMessage trim w socket message uuid now
  | ev_leave_room socket updated => (handleLeaveRoom w socket updated).1
  | ev_disconnect socket updated =>
      (handleDisconnect
         (mkWorld (manager w) (io_close socket (io w))) socket updated).1
  end.

(** A sequence of events, each handled to its end before the next is
    handled. *)
Fixpoint run (w : World) (evs : list ClientEvent) : World * list Effect :=
  match evs with
  | [] => (w, [])
  | ev :: evs' =>
      let '(w1, effs1) := handle w ev in
      let '(w2, effs2) := run w1 evs' in
      (w2, effs1 ++ effs2)
  end.
End listeners.

(** ** Handlers that await: the interleaving *)

(** [handleJoinRoom], [handleLeaveRoom] and [handleDisconnect] are async
    functions.  Each runs without interruption up to an [await] and goes on
    when the awaited promise has settled; in between, the listeners of
    other events run on the same [this.rooms] and [this.participants].
    The first [await] of [handleJoinRoom] (line 59) comes before anything
    is read or written, so that a join takes effect from the moment its
    [Meeting.findById] settles; the second (line 88) comes after the new
    room has been put in the registry.  What is left of a join after that
    second [await] reads the names below. *)
Module JoinPending.
Record t := mk {
  socketId : SocketId;
  meetingId : MeetingId;
  userId : UserId;
  userName : string;
  isOrganizer : bool
}.
End JoinPending.

(** The message of the [TypeError] of [room.participants] when
    [this.rooms.get(roomId)] is undefined (the wording is the one of V8). *)
Definition msg_room_undefined : string :=
  "Cannot read properties of undefined (reading 'participants')".

(** [handleJoinRoom] from line 91 to its end: the room is looked up in the
    registry as it is by now, the participant is seated and indexed, the
    socket joins the group, the others and the caller are told.
    [joinedAt] is what [new Date()] reads then. *)
Definition handleJoinRoom_seat (w : World) (k : JoinPending.t)
    (joinedAt : Millis) : World * list Effect * option string :=
  let socket := JoinPending.socketId k in
  let roomId := room_id_of (JoinPending.meetingId k) in
  let m := manager w in
  match JsMap.get roomId (rooms m) with
  | None => (w, [], Some msg_room_undefined)
  | Some room =>
      (* Add participant to room *)
      let participant :=
        Participant.mk socket (JoinPending.userId k) (JoinPending.userName k)
                       (JoinPending.isOrganizer k) joinedAt true true false in
      let room' :=
        Room.with_participants
          (JsMap.set socket participant (Room.participants room)) room in
      let m' :=
        mkManager (JsMap.set roomId room' (rooms m))
                  (JsMap.set socket (Entry.mk participant roomId)
                             (participants m)) in
      (* Join socket room *)
      let io' := socket_join socket roomId (io w) in
      (* Send current room state to new participant *)
      let participantList :=
        map ParticipantView.of_participant
            (JsMap.values (Room.participants room')) in
      (mkWorld m' io',
       socket_to_emit io' socket roomId
         (user_joined socket (JoinPending.userId k) (JoinPending.userName k)
                      (JoinPending.isOrganizer k))
       ++ socket_emit socket
            (room_joined roomId (Room.meetingTitle room') participantList
                         (slice_last 50 (Room.chatMessages room'))),
       None)
  end.

(** [handleJoinRoom] from the moment [Meeting.findById] has settled up to
    the [await] of the status write, or to its end when the room is there
    already and nothing is awaited.  The last component is what is left to
    do after the [await]. *)
Definition handleJoinRoom_begin (w : World) (socket : SocketId)
    (meetingId : MeetingId) (userId : UserId) (userName : string)
    (env : JoinEnv.t)
    : World * list Effect * option string * option JoinPending.t :=
  match JoinEnv.found env with
  | Rejected e => (w, [], Some e, None)
  | Resolved None => (w, [], Some msg_not_found, None)
  | Resolved (Some meeting) =>
      let isOrganizer := bool_decide (Meeting.organizer meeting = userId) in
      let isAttendee :=
        existsb (λ a, bool_decide (a = userId)) (Meeting.attendees meeting) in
      if negb isOrganizer && negb isAttendee
      then (w, [], Some msg_not_authorized, None)
      else
        let roomId := room_id_of meetingId in
        let m := manager w in
        let k := JoinPending.mk socket meetingId userId userName isOrganizer in
        (* Initialize room if it doesn't exist *)
        match JsMap.get roomId (rooms m) with
        | Some _ =>
            let '(w', effs, thrown) :=
              handleJoinRoom_seat w k (JoinEnv.joinedAt env) in
            (w', effs, thrown, None)
        | None =>
            let room :=
              Room.mk JsMap.empty meetingId (Meeting.title meeting)
                      (JoinEnv.startTime env) false [] in
            (mkWorld (mkManager (JsMap.set roomId room (rooms m))
                                (participants m)) (io w),
             (* Update meeting status to ongoing *)
             [FindByIdAndUpdate meetingId ongoing None],
             None, Some k)
        end
  end.

(** After the [await] of the status write: a rejection is thrown on. *)
Definition handleJoinRoom_resume (w : World) (k : JoinPending.t)
    (updated : Settled unit) (joinedAt : Millis)
    : World * list Effect * option string :=
  match updated with
  | Rejected e => (w, [], Some e)
  | Resolved _ => handleJoinRoom_seat w k joinedAt
  end.

(** The [catch] of the 'join-room' listener. *)
Definition emit_thrown (socket : SocketId) (thrown : option string)
    : list Effect :=
  match thrown with
  | None => []
  | Some message => socket_emit socket (error_ message)
  end.

(** A handler suspended at its [await]: a join at line 88, a teardown at
    line 299. *)
Inductive Suspended :=
| join_awaits (k : JoinPending.t)
| teardown_awaits (k : Pending.t).

Definition socket_of (k : Suspended) : SocketId :=
  match k with
  | join_awaits k => JoinPending.socketId k
  | teardown_awaits k => Pending.socketId k
  end.

Definition is_join (k : Suspended) : bool :=
  match k with join_awaits _ => true | teardown_awaits _ => false end.

(** The coordinator together with the handlers that are suspended, in the
    order in which they were started. *)
Record Sys := mkSys {
  world : World;
  awaiting : list Suspended
}.

(** What happens next: a listener is started by an event and runs up to
    its [await] (or to its end); or the write that the [i]-th suspended
    handler awaits settles and that handler runs to its end ([now] is what
    [new Date()] reads then); or [endVideoCall] is called.  The outcome of
    an awaited write comes with [settles]: the [updated] that a
    [ClientEvent] carries is not read here. *)
Inductive Action :=
| arrives (ev : ClientEvent)
| settles (i : nat) (outcome : Settled unit) (now : Millis)
| ends_call (meetingId : MeetingId) (userId : UserId) (userName : string)
            (found : Settled (option Meeting.t)) (nowIso : string)
            (saved : Settled unit).

Section interleaving.
Variable trim : string -> string.

(** One step.  A packet to a connection that has closed meanwhile is
    dropped by the transport; the effects list what the handlers send. *)
Definition step (σ : Sys) (a : Action) : Sys * list Effect :=
  let w := world σ in
  match a with
  | arrives (ev_join_room socket meetingId userId userName env) =>
      let '(w', effs, thrown, k) :=
        handleJoinRoom_begin w socket meetingId userId userName env in
      (mkSys w' (awaiting σ ++ option_list (join_awaits <$> k)),
       effs ++ emit_thrown socket thrown)
  | arrives (ev_leave_room socket _) =>
      let '(w', effs, k) := removeParticipant_begin w socket in
      (mkSys w' (awaiting σ ++ option_list (teardown_awaits <$> k)), effs)
  | arrives (ev_disconnect socket _) =>
      let '(w', effs, k) :=
        removeParticipant_begin
          (mkWorld (manager w) (io_close socket (io w))) socket in
      (mkSys w' (awaiting σ ++ option_list (teardown_awaits <$> k)), effs)
  | arrives ev =>
      let '(w', effs) := handle trim w ev in (mkSys w' (awaiting σ), effs)
  | settles i outcome now =>
      match awaiting σ !! i with
      | None => (σ, [])
      | Some (teardown_awaits k) =>
          (mkSys (removeParticipant_resume w k outcome).1
                 (delete i (awaiting σ)), [])
      | Some (join_awaits k) =>
          let '(w', effs, thrown) :=
            handleJoinRoom_resume w k outcome now in
          (mkSys w' (delete i (awaiting σ)),
           effs ++ emit_thrown (JoinPending.socketId k) thrown)
      end
  | ends_call meetingId userId userName found nowIso saved =>
      let '(w', effs, _, pending) :=
        endVideoCall trim w meetingId userId userName found nowIso saved in
      (mkSys w' (awaiting σ ++ map teardown_awaits pending), effs)
  end.

Fixpoint exec (σ : Sys) (acts : list Action) : Sys * list Effect :=
  match acts with
  | [] => (σ, [])
  | a :: acts' =>
      let '(σ1, effs1) := step σ a in
      let '(σ2, effs2) := exec σ1 acts' in
      (σ2, effs1 ++ effs2)
  end.
End interleaving.

(** An event whose awaited write, if it awaits one, settles before
    anything else is handled; and a sequence of such events.  With nothing
    suspended before, [settles 0] resumes the handler just started, and
    does nothing when that handler has not awaited. *)
Definition settled_at_once (ev : ClientEvent) : list Action :=
  match ev with
  | ev_join_room _ _ _ _ env =>
      [arrives ev; settles 0 (JoinEnv.updated env) (JoinEnv.joinedAt env)]
  | ev_leave_room _ updated | ev_disconnect _ updated =>
      [arrives ev; settles 0 updated 0]
  | _ => [arrives ev]
  end.

Definition uninterrupted (evs : list ClientEvent) : list Action :=
  concat (map settled_at_once evs).

(** A socket none of whose handlers is suspended. *)
Definition idle (σ : Sys) (socket : SocketId) : Prop :=
  ∀ k, k ∈ awaiting σ → socket_of k ≠ socket.

(** No connection joins a second time before it has left: a join comes
    from a socket that the reverse index does not hold and that has no
    join or teardown under way. *)
Definition first_join (σ : Sys) (a : Action) : Prop :=
  match a with
  | arrives (ev_join_room socket _ _ _ _) =>
      JsMap.get socket (participants (manager (world σ))) = None
      ∧ idle σ socket
  | _ => True
  end.

Fixpoint first_joins (trim : string → string) (σ : Sys)
    (acts : list Action) : Prop :=
  match acts with
  | [] => True
  | a :: acts' => first_join σ a ∧ first_joins trim (step trim σ a).1 acts'
  end.

(** A [trim] for the examples: spaces, tabs and line breaks of ASCII. *)
Definition is_space (c : Ascii.ascii) : bool :=
  let n := Ascii.nat_of_ascii c in
  bool_decide (n = 32 ∨ (9 ≤ n ∧ n ≤ 13)).

Fixpoint trim_start (s : string) : string :=
  match s with
  | String c s' => if is_space c then trim_start s' else s
  | EmptyString => EmptyString
  end.

Definition ascii_trim (s : string) : string :=
  String.rev (trim_start (String.rev (trim_start s))).

(** ** Vocabulary of the properties *)

(** No chat log is longer than the retention count. *)
Definition chat_bounded (m : Manager) : Prop :=
  ∀ rid room, JsMap.get rid (rooms m) = Some room →
    length (Room.chatMessages room) ≤ chat_retention.

(** Every chat log of [m'] is empty or a chat log of [m]. *)
Definition chat_kept (m m' : Manager) : Prop :=
  ∀ rid room', JsMap.get rid (rooms m') = Some room' →
    Room.chatMessages room' = []
    ∨ ∃ room, JsMap.get rid (rooms m) = Some room
              ∧ Room.chatMessages room' = Room.chatMessages room.

(** Two participant objects carry the same media flags. *)
Definition flags_eq (p q : Participant.t) : Prop :=
  Participant.audio p = Participant.audio q
  ∧ Participant.video p = Participant.video q
  ∧ Participant.isScreenSharing p = Participant.isScreenSharing q.

(** The room [rid] is in the registry and its participant map has [socket]. *)
Definition seated (m : Manager) (rid : RoomId) (socket : SocketId) : Prop :=
  ∃ room, JsMap.get rid (rooms m) = Some room
          ∧ is_Some (JsMap.get socket (Room.participants room)).

(** The invariant: a socket is in the reverse index exactly when some room
    seats it; no socket is seated in two rooms; and the entry of the index
    names the room that seats the socket and carries the media flags that
    room has for it. *)
Definition index_ok (m : Manager) : Prop :=
  ∀ socket : SocketId,
    (is_Some (JsMap.get socket (participants m))
     ↔ ∃ rid, seated m rid socket)
    ∧ (∀ rid rid', seated m rid socket → seated m rid' socket → rid = rid')
    ∧ ∀ entry, JsMap.get socket (participants m) = Some entry →
        ∃ room p,
          JsMap.get (Entry.roomId entry) (rooms m) = Some room
          ∧ JsMap.get socket (Room.participants room) = Some p
          ∧ flags_eq p (Entry.participant entry).

(** The same in two halves, as the proofs use it. *)
Definition index_sound (m : Manager) : Prop :=
  ∀ socket entry, JsMap.get socket (participants m) = Some entry →
    ∃ room p,
      JsMap.get (Entry.roomId entry) (rooms m) = Some room
      ∧ JsMap.get socket (Room.participants room) = Some p
      ∧ flags_eq p (Entry.participant entry).

Definition index_complete (m : Manager) : Prop :=
  ∀ rid room socket,
    JsMap.get rid (rooms m) = Some room →
    is_Some (JsMap.get socket (Room.participants room)) →
    ∃ entry, JsMap.get socket (participants m) = Some entry
             ∧ Entry.roomId entry = rid.

Definition index_inv (m : Manager) : Prop := index_sound m ∧ index_complete m.

(** No registered socket joins a second time before it leaves: a join
    comes from a socket that the reverse index does not hold. *)
Definition fresh_join (w : World) (ev : ClientEvent) : Prop :=
  match ev with
  | ev_join_room socket _ _ _ _ =>
      JsMap.get socket (participants (manager w)) = None
  | _ => True
  end.

Inductive SignalKind := sig_offer | sig_answer | sig_ice_candidate.

(** The spec's [relaySignal(kind, targetConnectionId, payload)]: the three
    signaling handlers under one name. *)
Definition relaySignal (kind : SignalKind) (w : World)
    (socket targetSocketId : SocketId) (payload : Payload)
    : World * list Effect :=
  match kind with
  | sig_offer => handleOffer w socket targetSocketId payload
  | sig_answer => handleAnswer w socket targetSocketId payload
  | sig_ice_candidate => handleIceCandidate w socket targetSocketId payload
  end.

Definition signal_event (kind : SignalKind) (fromSocketId : SocketId)
    (payload : Payload) : ServerEvent :=
  match kind with
  | sig_offer => offer_ fromSocketId payload
  | sig_answer => answer_ fromSocketId payload
  | sig_ice_candidate => ice_candidate fromSocketId payload
  end.

(** Names of the form [meeting_...], which [handleJoinRoom] gives to the
    broadcast groups of rooms. *)
Definition is_room_name (g : string) : Prop :=
  ∃ meetingId : MeetingId, g = room_id_of meetingId.

(** A well-formed socket.io server: a connected socket is alone in the
    group of its own id; members of groups are connected; a group with
    members is named by a connected socket or is a room's group; and no
    socket id looks like a room name. *)
Record io_ok (i : Io) : Prop := {
  io_own : ∀ s, s ∈ sockets i → members i s = [s];
  io_connected : ∀ g s, s ∈ members i g → s ∈ sockets i;
  io_named : ∀ g s, s ∈ members i g → g ∈ sockets i ∨ is_room_name g;
  io_ids : ∀ s, s ∈ sockets i → ¬ is_room_name s
}.

(** An event the transport can deliver: a connection brings a new id that
    is not a room name, anything else comes from a connected socket. *)
Definition admissible (w : World) (ev : ClientEvent) : Prop :=
  match ev with
  | ev_connection socket =>
      (socket ∉ sockets (io w)) ∧ (¬ is_room_name socket)
  | _ => sender ev ∈ sockets (io w)
  end.

Fixpoint admissible_run (trim : string → string) (w : World)
    (evs : list ClientEvent) : Prop :=
  match evs with
  | [] => True
  | ev :: evs' =>
      admissible w ev ∧ fresh_join w ev
      ∧ admissible_run trim (handle trim w ev).1 evs'
  end.

(** Whoever a room seats is connected and is a member of the broadcast
    group of that room. *)
Definition grouped (w : World) : Prop :=
  ∀ rid s, seated (manager w) rid s →
    s ∈ sockets (io w) ∧ s ∈ members (io w) rid.

(** [m'] seats nobody whom [m] does not seat. *)
Definition seats_within (m m' : Manager) : Prop :=
  ∀ rid s, seated m' rid s → seated m rid s.

(** The three invariants of the states that events lead to. *)
Definition world_ok (w : World) : Prop :=
  index_inv (manager w) ∧ io_ok (io w) ∧ grouped w.

(** What it means that [r], the result of a media handler run in [w] by
    [socket] (registered as [entry], seated in [room] as [p]), has applied
    the assignment [f] to the caller's own participant and to nothing else,
    and has sent [ev] to the others. *)
Definition own_flag_set (w : World) (socket : SocketId) (entry : Entry.t)
    (room : Room.t) (p : Participant.t) (f : Participant.t → Participant.t)
    (ev : ServerEvent) (r : World * list Effect) : Prop :=
  let rid := Entry.roomId entry in
  let '(w', effs) := r in
  (* the caller's room: the caller's participant, and only it, is changed *)
  (∃ room',
     JsMap.get rid (rooms (manager w')) = Some room'
     ∧ JsMap.get socket (Room.participants room') = Some (f p)
     ∧ (∀ s, s ≠ socket →
          JsMap.get s (Room.participants room')
          = JsMap.get s (Room.participants room))
     ∧ JsMap.keys (Room.participants room')
       = JsMap.keys (Room.participants room)
     ∧ Room.chatMessages room' = Room.chatMessages room
     ∧ Room.meetingId room' = Room.meetingId room
     ∧ Room.meetingTitle room' = Room.meetingTitle room
     ∧ Room.startTime room' = Room.startTime room
     ∧ Room.isRecording room' = Room.isRecording room)
  (* every other room is as it was *)
  ∧ (∀ rid', rid' ≠ rid →
       JsMap.get rid' (rooms (manager w')) = JsMap.get rid' (rooms (manager w)))
  (* the reverse index: the caller's entry follows, the others stay *)
  ∧ JsMap.get socket (participants (manager w')) = Some (Entry.update f entry)
  ∧ (∀ s, s ≠ socket →
       JsMap.get s (participants (manager w'))
       = JsMap.get s (participants (manager w)))
  ∧ io w' = io w
  (* the next [getRoomStats] shows the caller's participant as changed *)
  ∧ (∀ now, ∃ rs,
       rs ∈ Stats.rooms (getRoomStats (manager w') now)
       ∧ RoomStats.roomId rs = rid
       ∧ ParticipantStats.of_participant (f p) ∈ RoomStats.participants rs)
  (* [ev] goes to the members of the room's group, the caller excepted *)
  ∧ effs = map (λ s, Deliver s ev)
               (filter (λ s, s ≠ socket) (members (io w) rid))
  ∧ (grouped w → ∀ s, s ≠ socket →
       is_Some (JsMap.get s (Room.participants room)) →
       Deliver s ev ∈ effs).

(** The calls of the Meeting model among the effects. *)
Definition is_meeting_write (e : Effect) : bool :=
  match e with
  | FindByIdAndUpdate _ _ _ | MeetingSave _ _ _ => true
  | Deliver _ _ | Disconnected _ => false
  end.

Definition meeting_writes (effs : list Effect) : list Effect :=
  List.filter is_meeting_write effs.

(** Events on one meeting: connections, joins of that meeting, leaves and
    disconnects. *)
Definition on_meeting (meetingId : MeetingId) (ev : ClientEvent) : Prop :=
  match ev with
  | ev_connection _ | ev_leave_room _ _ | ev_disconnect _ _ => True
  | ev_join_room _ mid _ _ _ => mid = meetingId
  | _ => False
  end.

(** The status write of a join, should the join create the room, is not
    rejected. *)
Definition creation_write_resolves (ev : ClientEvent) : Prop :=
  match ev with
  | ev_join_room _ _ _ _ env => JoinEnv.updated env = Resolved ()
  | _ => True
  end.

(** With one meeting only: the registry holds at most its room, and that
    room seats somebody; the index holds exactly the seated sockets. *)
Definition one_room (rid : RoomId) (m : Manager) : Prop :=
  (∀ rid' room, JsMap.get rid' (rooms m) = Some room →
     rid' = rid ∧ ∃ s, is_Some (JsMap.get s (Room.participants room)))
  ∧ (∀ s e, JsMap.get s (participants m) = Some e →
       Entry.roomId e = rid ∧ seated m rid s)
  ∧ (∀ s, seated m rid s → is_Some (JsMap.get s (participants m))).

(** ** A meeting and a call of three, for the examples *)

(** The meeting [M]: organised by [uA], with [uB] as its one attendee. *)
Definition org : Meeting.t :=
  Meeting.mk "Pitch" "uA" ["uB"] scheduled None.

(** A join of [M] at time [t] for which both Meeting queries resolve. *)
Definition envOk (t : Z) : JoinEnv.t :=
  JoinEnv.mk (Resolved (Some org)) (Resolved tt) t t.

(** The scenario of the spec: A (organizer) joins, B (attendee) joins, B
    says hello, B leaves, A leaves. *)
Definition scenario : list ClientEvent :=
  [ ev_connection "sA"; ev_connection "sB";
    ev_join_room "sA" "M" "uA" "Ann" (envOk 10);
    ev_join_room "sB" "M" "uB" "Bob" (envOk 20);
    ev_chat_message "sB" "hello" "id1" 30;
    ev_leave_room "sB" (Resolved ());
    ev_leave_room "sA" (Resolved ()) ].

Definition envOf (meeting : option Meeting.t) (updated : Settled unit)
    (now : Millis) : JoinEnv.t :=
  JoinEnv.mk (Resolved meeting) updated now now.

Definition connect_three : list ClientEvent :=
  [ev_connection "sA"; ev_connection "sB"; ev_connection "sC"].

Definition join_three : list ClientEvent :=
  [ev_join_room "sA" "M" "uA" "Ann" (envOk 10);
   ev_join_room "sB" "M" "uB" "Bob" (envOk 20);
   ev_join_room "sC" "M" "uB" "Bob" (envOk 30)].

(** Three sockets connected, nobody in a call. *)
Definition lobby : World := (run ascii_trim initial connect_three).1.

(** Ann (organizer) on [sA], Bob (attendee) on [sB] and on [sC]. *)
Definition call_of_three : World := (run ascii_trim lobby join_three).1.

(** The same call after a hundred chat messages of Bob. *)
Definition hundred_chats : list ClientEvent :=
  replicate 100 (ev_chat_message "sB" " hi " "id" 40).

Definition busy_call_events : list ClientEvent :=
  connect_three ++ join_three ++ hundred_chats.

(** Ann and Bob on [sA] and [sB]; [sC] is connected and not in the call. *)
Definition call_of_two : World :=
  (run ascii_trim lobby (take 2 join_three)).1.

(** The room of the meeting [M] in a world, for the examples. *)
Definition room_M (w : World) : Room.t :=
  default (Room.mk JsMap.empty "" "" 0 false [])
          (JsMap.get (room_id_of "M") (rooms (manager w))).

(** A join whose status write is rejected. *)
Definition join_with_rejected_write : ClientEvent :=
  ev_join_room "sA" "M" "uA" "Ann"
    (envOf (Some org) (Rejected "connection lost") 10).

(** A join of a socket handled while the teardown of the room awaits its
    write: Ann joins the meeting [M] alone and leaves; before the status
    write of the teardown settles, Bob's join of [M] is handled; then the
    write settles. *)
Definition join_in_the_gap : list Action :=
  [ arrives (ev_join_room "sA" "M" "uA" "Ann" (envOk 10));
    settles 0 (Resolved ()) 10;
    arrives (ev_leave_room "sA" (Resolved ()));
    arrives (ev_join_room "sB" "M" "uB" "Bob" (envOk 20));
    settles 0 (Resolved ()) 30 ].

(** Three sockets connect; then the join in the gap. *)
Definition gap_run : list Action :=
  map arrives connect_three ++ join_in_the_gap.

(** Ann joins the meeting [M] alone and leaves; while the teardown awaits
    its write, Bob joins and leaves, so that a second teardown is started;
    then both writes settle. *)
Definition two_teardowns : list Action :=
  [ arrives (ev_join_room "sA" "M" "uA" "Ann" (envOk 10));
    settles 0 (Resolved ()) 10;
    arrives (ev_leave_room "sA" (Resolved ()));
    arrives (ev_join_room "sB" "M" "uB" "Bob" (envOk 20));
    arrives (ev_leave_room "sB" (Resolved ()));
    settles 0 (Resolved ()) 30;
    settles 0 (Resolved ()) 30 ].

(** * Further parts of the code *)

(** ** Sequences of chat messages *)

(** One 'chat-message' event as [handleChatMessage] receives it: the
    sending socket, the text, and the [uuidv4()] and [new Date()] it
    reads. *)
Module ChatPost.
Record t := mk {
  socket : SocketId;
  message : string;
  uuid : string;
  now : Millis
}.
End ChatPost.

Definition chat_event (c : ChatPost.t) : ClientEvent :=
  ev_chat_message (ChatPost.socket c) (ChatPost.message c) (ChatPost.uuid c)
                  (ChatPost.now c).

(** The log entry [handleChatMessage] builds for a post of a sender
    registered as [entry]. *)
Definition chat_entry (trim : string → string) (entry : Entry.t)
    (c : ChatPost.t) : ChatMessage.t :=
  ChatMessage.mk (ChatPost.uuid c)
    (Participant.userId (Entry.participant entry))
    (Participant.userName (Entry.participant entry))
    (trim (ChatPost.message c)) (ChatPost.now c)
    (Participant.isOrganizer (Entry.participant entry)).

(** The entries of the posts of [cs] that [handleChatMessage] accepts into
    the log of the room [rid], in the order of the posts: those of senders
    the index [idx] places in [rid], with a text that is not blank. *)
Definition accepted_into (trim : string → string) (idx : JsMap.t Entry.t)
    (rid : RoomId) (cs : list ChatPost.t) : list ChatMessage.t :=
  omap (λ c,
          match JsMap.get (ChatPost.socket c) idx with
          | Some entry =>
              if bool_decide (Entry.roomId entry = rid
                              ∧ trim (ChatPost.message c) ≠ "")
              then Some (chat_entry trim entry c)
              else None
          | None => None
          end) cs.

(** ** Seats *)

(** The participant object the room [rid] holds for [socket], if the room
    exists and seats it. *)
Definition seat_of (m : Manager) (rid : RoomId) (socket : SocketId)
    : option Participant.t :=
  match JsMap.get rid (rooms m) with
  | Some room => JsMap.get socket (Room.participants room)
  | None => None
  end.

(** The room an event can write to: the room of the meeting for a join,
    the room the index gives for the sender otherwise; none for a new
    connection or a relayed signal. *)
Definition room_of_event (w : World) (ev : ClientEvent) : option RoomId :=
  match ev with
  | ev_connection _ | ev_offer _ _ _ | ev_answer _ _ _
  | ev_ice_candidate _ _ _ => None
  | ev_join_room _ meetingId _ _ _ => Some (room_id_of meetingId)
  | _ => Entry.roomId <$> JsMap.get (sender ev) (participants (manager w))
  end.

(** [m'] differs from [m] at most in the index entry and the seats of
    [socket], and in the room [touched]. *)
Definition touches_only (socket : SocketId) (touched : option RoomId)
    (m m' : Manager) : Prop :=
  (∀ s, s ≠ socket →
     JsMap.get s (participants m') = JsMap.get s (participants m)
     ∧ ∀ rid, seat_of m' rid s = seat_of m rid s)
  ∧ (∀ rid, touched ≠ Some rid →
       JsMap.get rid (rooms m') = JsMap.get rid (rooms m)).

(** ** Keys of a [Map] are distinct *)

(** A JavaScript [Map] holds a key once.  [maps_wf] says so of the three
    kinds of map the coordinator keeps. *)
Definition maps_wf (m : Manager) : Prop :=
  NoDup (JsMap.keys (rooms m))
  ∧ NoDup (JsMap.keys (participants m))
  ∧ ∀ rid room, JsMap.get rid (rooms m) = Some room →
      NoDup (JsMap.keys (Room.participants room)).

(** The sockets the rooms seat, room after room. *)
Definition seated_sockets (rs : JsMap.t Room.t) : list SocketId :=
  concat (map (λ e : RoomId * Room.t, JsMap.keys (Room.participants e.2)) rs).

(** ** What every interleaving keeps *)

(** The number of suspended handlers of a socket. *)
Definition busy (l : list Suspended) (socket : SocketId) : nat :=
  length (filter (λ k, socket_of k = socket) l).

(** The keys of the Maps are distinct; every seat is known to the index,
    under the room that holds it; a socket with a suspended handler has no
    seat; and a socket with a suspended join is not in the index and has
    no other handler suspended. *)
Definition pending_ok (m : Manager) (l : list Suspended) : Prop :=
  maps_wf m
  ∧ index_complete m
  ∧ (∀ k rid, k ∈ l → ¬ seated m rid (socket_of k))
  ∧ (∀ k, k ∈ l → is_join k = true →
       JsMap.get (socket_of k) (participants m) = None
       ∧ busy l (socket_of k) = 1).

Definition sys_ok (σ : Sys) : Prop :=
  pending_ok (manager (world σ)) (awaiting σ).

(** ** After [endVideoCall] *)

(** The [removeParticipant] calls that [endVideoCall] left at their
    [await] run to their end, in the order in which they were started;
    [updated k] is how the Meeting update of the call [k] settles. *)
Definition resume_all (w : World) (pending : list Pending.t)
    (updated : Pending.t → Settled unit) : World :=
  foldl (λ w k, (removeParticipant_resume w k (updated k)).1) w pending.

(** ** [getVideoCallToken] and [getActiveCallStats] of the video-call
    controller *)

(** The meeting document as [getVideoCallToken] reads it: what the
    coordinator reads of it ([Meeting.t]) and, besides, its id and its
    scheduled times. *)
Module MeetingDoc.
Record t := mk {
  meeting : Meeting.t;
  _id : string;
  startTime : Millis;
  endTime : Millis
}.
End MeetingDoc.

Module CallToken.
Record t := mk {
  meetingId : string;      (* meeting._id *)
  roomId : RoomId;
  userId : UserId;
  userName : string;
  isOrganizer : bool;
  meetingTitle : string;
  startTime : Millis;
  endTime : Millis;
  expiresAt : Millis
}.
End CallToken.





Inductive StatsResponse :=
| stats_sent (stats : Stats.t)
| stats_refused (code : nat) (message : string).

(** [getActiveCallStats(req, res)]: [role] is [req.user.role]. *)
Definition getActiveCallStats (m : Manager) (role : string) (now : Millis)
    : StatsResponse :=
  if negb (bool_decide (role ∈ ["entrepreneur"; "investor"]))
  then stats_refused 403 "Access denied"
  else stats_sent (getRoomStats m now).

(** ** The status writes of one meeting *)

(** The events of a coordinator that serves one meeting and whose status
    write of a room creation is not rejected: every join is of that
    meeting; the other events are as they come. *)
Definition serves_only (meetingId : MeetingId) (ev : ClientEvent) : Prop :=
  match ev with
  | ev_join_room _ mid _ _ env =>
      mid = meetingId ∧ JoinEnv.updated env = Resolved ()
  | _ => True
  end.

(** The status writes [writes] alternate, 'ongoing' when the room is not
    there and 'completed' (with a note) when it is; the result is whether
    the room is there after them. *)
Fixpoint alternates (present : bool) (writes : list Effect) : option bool :=
  match writes with
  | [] => Some present
  | FindByIdAndUpdate _ ongoing None :: rest =>
      if present then None else alternates true rest
  | FindByIdAndUpdate _ completed (Some _) :: rest =>
      if present then alternates false rest else None
  | _ => None
  end.

(** The events of two visits to the meeting [M]: Ann and Bob join, chat
    and leave, then Bob comes back and leaves. *)
Definition two_visits : list ClientEvent :=
  [ ev_connection "sA"; ev_connection "sB";
    ev_join_room "sA" "M" "uA" "Ann" (envOk 10);
    ev_join_room "sB" "M" "uB" "Bob" (envOk 20);
    ev_chat_message "sB" "hello" "id1" 30;
    ev_toggle_audio "sA" false;
    ev_leave_room "sB" (Resolved ());
    ev_disconnect "sA" (Resolved ());
    ev_join_room "sB" "M" "uB" "Bob" (envOk 40);
    ev_leave_room "sB" (Rejected "connection lost") ].

(** ** The Document model and [shareDocument] *)

(** An entry of [associatedUsers].  The permission is the string the
    document holds; the schema allows 'view', 'edit' and 'sign', and
    [document.save()] rejects a document that holds another one.
    [addedAt], like the fields of the document left out below, is read by
    none of the functions modelled. *)
Module AssociatedUser.
Record t := mk {
  user : UserId;
  permission : string
}.
End AssociatedUser.

Module Signature.
Record t := mk {
  signedBy : UserId;
  signatureImageUrl : string;
  signedAt : Millis
}.
End Signature.

(** A document as [Document.findById] loads it: [uploadedBy], the [user]
    of an entry and the [signedBy] of a signature are ids. *)
Module Document.
Record t := mk {
  uploadedBy : UserId;
  associatedUsers : list AssociatedUser.t;
  status : string;
  signatures : list Signature.t;
  isPublic : bool
}.
End Document.

(** The level a caller of [hasPermission] asks for.  Every call site
    passes the literal 'edit' or 'sign', or nothing, which is 'view'. *)
Module Level.
Inductive t := view | edit | sign.
Definition number (level : t) : nat :=
  match level with view => 1 | edit => 2 | sign => 3 end.
End Level.

(** [permissionLevels[p]] for the string [p] that an entry holds, when it
    is a number: 1, 2 or 3 for the three levels.  For another string the
    object literal gives undefined or a member inherited from
    [Object.prototype], neither of which is a number ([None]). *)
Definition permissionLevels (p : string) : option nat :=
  if decide (p = "view") then Some 1
  else if decide (p = "edit") then Some 2
  else if decide (p = "sign") then Some 3
  else None.

(** [a >= b] where [b] is a number: false when [a] is not one (it becomes
    NaN). *)
Definition js_ge (a : option nat) (b : nat) : bool :=
  match a with
  | Some x => bool_decide (b ≤ x)
  | None => false
  end.

(** [document.hasPermission(userId, permission)], on a document loaded
    without [populate], as [shareDocument] and [addSignature] load it:
    [uploadedBy] and the [user] of an entry are ids, and their
    [toString()] is the id.  ([getUserDocuments] and [getDocumentById]
    call the method on documents whose references are populated; the
    record [Document.t] does not describe those.) *)
Definition hasPermission (doc : Document.t) (userId : UserId)
    (permission : Level.t) : bool :=
  (* Owner has all permissions *)
  if bool_decide (Document.uploadedBy doc = userId) then true
  else
    (* Check associated users *)
    match List.find (λ au, bool_decide (AssociatedUser.user au = userId))
                    (Document.associatedUsers doc) with
    | None => false
    | Some userPermission =>
        js_ge (permissionLevels (AssociatedUser.permission userPermission))
              (Level.number permission)
    end.

Module SignatureStatus.
Record t := mk {
  required : nat;
  completed : nat;
  pending : list AssociatedUser.t;
  isComplete : bool
}.
End SignatureStatus.

(** The two filters of [getSignatureStatus]: the associated users who are
    to sign, and whether one of them has signed. *)
Definition requiredSigners (doc : Document.t) : list AssociatedUser.t :=
  filter (λ au, AssociatedUser.permission au = "sign")
         (Document.associatedUsers doc).

Definition has_signed (actualSignatures : list Signature.t)
    (rs : AssociatedUser.t) : bool :=
  existsb (λ sig, bool_decide (Signature.signedBy sig = AssociatedUser.user rs))
          actualSignatures.

(** [document.getSignatureStatus()]. *)
Definition getSignatureStatus (doc : Document.t) : SignatureStatus.t :=
  let actualSignatures := Document.signatures doc in
  SignatureStatus.mk
    (length (requiredSigners doc))
    (length actualSignatures)
    (filter (λ rs, has_signed actualSignatures rs = false)
            (requiredSigners doc))
    (bool_decide (0 < length (requiredSigners doc))
     && bool_decide (length actualSignatures = length (requiredSigners doc))).

(** One element of [req.body.users]; the permission may be missing. *)
Module UserShare.
Record t := mk {
  userId : UserId;
  permission : option string
}.
End UserShare.




Module ShareResponse.
Record t := mk {
  code : nat;
  message : string
}.
End ShareResponse.


(** ** [hasConflict] of the Meeting model *)

(** The four conditions of the query of [hasConflict], for the meeting
    [this] and a meeting [m] of the collection. *)
Definition is_other (this m : MeetingDoc.t) : bool :=
  negb (bool_decide (MeetingDoc._id m = MeetingDoc._id this)).

Definition involves (userId : UserId) (m : MeetingDoc.t) : bool :=
  bool_decide (Meeting.organizer (MeetingDoc.meeting m) = userId)
  || existsb (λ a, bool_decide (a = userId))
             (Meeting.attendees (MeetingDoc.meeting m)).

Definition is_active (m : MeetingDoc.t) : bool :=
  match Meeting.status (MeetingDoc.meeting m) with
  | scheduled | ongoing => true
  | completed | cancelled => false
  end.

Definition times_conflict (this m : MeetingDoc.t) : bool :=
  (* New meeting starts during existing meeting *)
  (bool_decide (MeetingDoc.startTime m ≤ MeetingDoc.startTime this)%Z
   && bool_decide (MeetingDoc.startTime this < MeetingDoc.endTime m)%Z)
  (* New meeting ends during existing meeting *)
  || (bool_decide (MeetingDoc.startTime m < MeetingDoc.endTime this)%Z
      && bool_decide (MeetingDoc.endTime this ≤ MeetingDoc.endTime m)%Z)
  (* New meeting encompasses existing meeting *)
  || (bool_decide (MeetingDoc.startTime this ≤ MeetingDoc.startTime m)%Z
      && bool_decide (MeetingDoc.endTime m ≤ MeetingDoc.endTime this)%Z).

(** [this.hasConflict(userId)]: [collection] is the Meeting collection in
    the order in which [findOne] goes through it. *)
Definition hasConflict (collection : list MeetingDoc.t) (this : MeetingDoc.t)
    (userId : UserId) : option MeetingDoc.t :=
  List.find (λ m, is_other this m && involves userId m && is_active m
                  && times_conflict this m) collection.

(** ** [rateLimit] of the auth middleware *)

Inductive Verdict :=
| next_                                (* next() *)
| too_many (retryAfter : option Z).    (* 429; [None] is JavaScript's NaN *)

(** [Math.ceil(x / 1000)] for an integer [x]. *)
Definition ceil_seconds (x : Z) : Z := (- ((- x) / 1000))%Z.

(** The middleware that [rateLimit(windowMs, max)] returns, run on the Map
    [requests] of its closure: [key] is
    [`${req.user._id}-${req.route.path}`] and [now] is [Date.now()]. *)
Definition rateLimit (windowMs : Z) (max : nat) (requests : JsMap.t (list Z))
    (key : string) (now : Z) : JsMap.t (list Z) * Verdict :=
  let windowStart := (now - windowMs)%Z in
  let requests1 :=
    match JsMap.get key requests with
    | Some userRequests =>
        let validRequests := filter (λ time, (windowStart < time)%Z)
                                    userRequests in
        JsMap.set key validRequests requests
    | None => requests
    end in
  let userRequests := default [] (JsMap.get key requests1) in
  if decide (max ≤ length userRequests)
  then (requests1,
        too_many ((λ first, ceil_seconds (first + windowMs - now))
                    <$> head userRequests))
  else (JsMap.set key (userRequests ++ [now]) requests1, next_).

(** The middleware run on a sequence of requests: the Map it ends with and
    the requests it let through. *)
Fixpoint rateLimit_run (windowMs : Z) (max : nat)
    (requests : JsMap.t (list Z)) (reqs : list (string * Z))
    : JsMap.t (list Z) * list (string * Z) :=
  match reqs with
  | [] => (requests, [])
  | (key, now) :: reqs' =>
      let '(requests1, verdict) := rateLimit windowMs max requests key now in
      let '(requests2, passed) :=
        rateLimit_run windowMs max requests1 reqs' in
      (requests2,
       match verdict with next_ => (key, now) :: passed | _ => passed end)
  end.

(** The requests of [key] among [passed] that are later than
    [now - windowMs]. *)
Definition in_window (windowMs : Z) (key : string) (now : Z)
    (passed : list (string * Z)) : list (string * Z) :=
  filter (λ r, r.1 = key ∧ (now - windowMs < r.2)%Z) passed.

(** The clock does not go back. *)
Fixpoint clock_ok (last : Z) (reqs : list (string * Z)) : Prop :=
  match reqs with
  | [] => True
  | (_, now) :: reqs' => (last ≤ now)%Z ∧ clock_ok now reqs'
  end.

(** What the Map holds for [key], and the times of the requests of [key]
    among [passed]. *)
Definition stored_times (requests : JsMap.t (list Z)) (key : string)
    : list Z :=
  default [] (JsMap.get key requests).

Definition passed_times (key : string) (passed : list (string * Z))
    : list Z :=
  map snd (filter (λ r, r.1 = key) passed).

(** The Map remembers of the requests let through all that can still be
    in a window: seen from [last] or later, the times it holds for a key
    are those of the requests of that key let through. *)
Definition remembers (windowMs : Z) (requests : JsMap.t (list Z))
    (passed : list (string * Z)) (last : Z) : Prop :=
  ∀ key now, (last ≤ now)%Z →
    filter (λ time, (now - windowMs < time)%Z) (stored_times requests key)
    = filter (λ time, (now - windowMs < time)%Z) (passed_times key passed).

(** ** More examples *)

(** Three posts to the call of three: one of Bob, one of a socket that
    has not joined, and a blank one of Ann. *)
Definition three_posts : list ChatPost.t :=
  [ ChatPost.mk "sB" " hi " "id1" 40;
    ChatPost.mk "sX" "hello" "id2" 41;
    ChatPost.mk "sA" "   " "id3" 42 ].

(** A contract that Ann uploaded: Bob and Cid are to sign it, Dan may read
    it; Bob has signed. *)
Definition contract : Document.t :=
  Document.mk "uA"
    [ AssociatedUser.mk "uB" "sign"; AssociatedUser.mk "uC" "sign";
      AssociatedUser.mk "uD" "view" ]
    "shared"
    [ Signature.mk "uB" "/signatures/b.png" 50 ]
    false.

(** Two meetings of Bob in the collection, from 9 to 10 and from 11 to
    12 (in hours), and a new one from 10 to 11. *)
Definition hour : Z := 3600000.

Definition calendar : list MeetingDoc.t :=
  [ MeetingDoc.mk org "m1" (9 * hour) (10 * hour);
    MeetingDoc.mk org "m2" (11 * hour) (12 * hour) ].

Definition new_meeting : MeetingDoc.t :=
  MeetingDoc.mk org "m3" (10 * hour) (11 * hour).

(** Bob as the call of three has him on [sB]. *)
Definition bob : Participant.t :=
  Participant.mk "sB" "uB" "Bob" false 20 true true false.



(** * Properties *)

(** ** Facts about [JsMap] *)

Section jsmap_facts.
Context {V : Type}.
Implicit Types (m : JsMap.t V) (k : string) (v : V).

Lemma get_set k k' v m :
  JsMap.get k' (JsMap.set k v m) =
  if decide (k = k') then Some v else JsMap.get k' m.
Proof.
  induction m as [|[k0 v0] m IH]; simpl.
  - destruct (decide (k' = k)), (decide (k = k')); congruence.
  - destruct (decide (k = k0)) as [->|Hne]; simpl.
    + destruct (decide (k' = k0)), (decide (k0 = k')); congruence.
    + rewrite IH. destruct (decide (k' = k0)) as [->|]; [|done].
      by rewrite decide_False.
Qed.

Lemma get_set_eq k v m : JsMap.get k (JsMap.set k v m) = Some v.
Proof. by rewrite get_set, decide_True. Qed.

Lemma get_set_ne k k' v m :
  k ≠ k' → JsMap.get k' (JsMap.set k v m) = JsMap.get k' m.
Proof. intros. by rewrite get_set, decide_False. Qed.

Lemma get_delete k k' m :
  JsMap.get k' (JsMap.delete k m) =
  if decide (k = k') then None else JsMap.get k' m.
Proof.
  induction m as [|[k0 v0] m IH]; simpl.
  - by destruct (decide (k = k')).
  - destruct (decide (k = k0)) as [->|Hne]; simpl.
    + rewrite IH. destruct (decide (k0 = k')) as [->|]; [done|].
      by rewrite decide_False.
    + rewrite IH. destruct (decide (k' = k0)) as [->|]; [|done].
      by rewrite decide_False.
Qed.

Lemma get_delete_eq k m : JsMap.get k (JsMap.delete k m) = None.
Proof. by rewrite get_delete, decide_True. Qed.

Lemma get_delete_ne k k' m :
  k ≠ k' → JsMap.get k' (JsMap.delete k m) = JsMap.get k' m.
Proof. intros. by rewrite get_delete, decide_False. Qed.

Lemma get_Some_elem k v m : JsMap.get k m = Some v → (k, v) ∈ m.
Proof.
  induction m as [|[k0 v0] m IH]; simpl; [done|].
  destruct (decide (k = k0)) as [->|].
  - intros [= ->]. left.
  - intros. right. auto.
Qed.

Lemma get_Some_value k v m :
  JsMap.get k m = Some v → v ∈ JsMap.values m.
Proof.
  intros H%get_Some_elem. unfold JsMap.values.
  apply list_elem_of_fmap. by exists (k, v).
Qed.

Lemma get_Some_key k v m : JsMap.get k m = Some v → k ∈ JsMap.keys m.
Proof.
  intros H%get_Some_elem. unfold JsMap.keys.
  apply list_elem_of_fmap. by exists (k, v).
Qed.

Lemma key_get k m : k ∈ JsMap.keys m → is_Some (JsMap.get k m).
Proof.
  induction m as [|[k0 v0] m IH]; simpl.
  - by intros ?%elem_of_nil.
  - intros [->|?]%elem_of_cons.
    + rewrite decide_True; eauto.
    + destruct (decide (k = k0)); eauto.
Qed.


Lemma size_0_get m : JsMap.size m = 0 ↔ ∀ k, JsMap.get k m = None.
Proof.
  split.
  - intros ->%length_zero_iff_nil. done.
  - destruct m as [|[k0 v0] m]; [done|].
    intros H. specialize (H k0). simpl in H.
    by rewrite decide_True in H.
Qed.

Lemma has_get k m : JsMap.has k m = true ↔ is_Some (JsMap.get k m).
Proof.
  unfold JsMap.has. destruct (JsMap.get k m); split; eauto; try done.
Qed.

End jsmap_facts.

(** ** Joining *)

Lemma existsb_eq_false (userId : UserId) (l : list UserId) :
  userId ∉ l → existsb (λ a, bool_decide (a = userId)) l = false.
Proof.
  induction l as [|a l IH]; [done|]. intros Hn. simpl.
  rewrite bool_decide_eq_false_2.
  - apply IH. intros ?. apply Hn. by right.
  - intros ->. apply Hn. by left.
Qed.

Lemma slice_last_length {A} (n : nat) (l : list A) :
  length (slice_last n l) ≤ n.
Proof. unfold slice_last. rewrite length_drop. lia. Qed.

Lemma slice_last_suffix {A} (n : nat) (l : list A) :
  slice_last n l `suffix_of` l.
Proof. apply suffix_drop. Qed.


(** C2: a join for a meeting that does not exist gets the not-found error,
    a join by a user who is neither the organizer nor an attendee gets the
    not-authorized error, in whatever state earlier joins left the
    coordinator; the two messages differ; the error is the only effect and
    goes to the joining socket alone, and the state is unchanged. *)
Theorem join_failure_reported_to_caller
    (w : World) (socket : SocketId) (meetingId : MeetingId)
    (userId : UserId) (userName : string)
    (updated : Settled unit) (t1 t2 : Millis) :
  join_room_listener w socket meetingId userId userName
    (JoinEnv.mk (Resolved None) updated t1 t2)
  = (w, [Deliver socket (error_ msg_not_found)])
  ∧ (∀ meeting : Meeting.t,
       Meeting.organizer meeting ≠ userId →
       userId ∉ Meeting.attendees meeting →
       join_room_listener w socket meetingId userId userName
         (JoinEnv.mk (Resolved (Some meeting)) updated t1 t2)
       = (w, [Deliver socket (error_ msg_not_authorized)]))
  ∧ msg_not_found ≠ msg_not_authorized.
Proof.
  split; [done|]. split; [|done].
  intros meeting Horg Hatt.
  unfold join_room_listener, handleJoinRoom. simpl.
  rewrite bool_decide_eq_false_2 by done.
  by rewrite existsb_eq_false.
Qed.

(** The state and the reply of a join that does not throw. *)
Lemma handleJoinRoom_success
    (w w' : World) (socket : SocketId) (meetingId : MeetingId)
    (userId : UserId) (userName : string) (env : JoinEnv.t)
    (effs : list Effect) :
  handleJoinRoom w socket meetingId userId userName env = (w', effs, None) →
  ∃ (meeting : Meeting.t) (room : Room.t) (created : list Effect),
    let roomId := room_id_of meetingId in
    let p := Participant.mk socket userId userName
               (bool_decide (Meeting.organizer meeting = userId))
               (JoinEnv.joinedAt env) true true false in
    let room' := Room.with_participants
                   (JsMap.set socket p (Room.participants room)) room in
    JoinEnv.found env = Resolved (Some meeting)
    ∧ match JsMap.get roomId (rooms (manager w)) with
      | Some r => room = r ∧ created = []
      | None => room = Room.mk JsMap.empty meetingId (Meeting.title meeting)
                               (JoinEnv.startTime env) false []
                ∧ created = [FindByIdAndUpdate meetingId ongoing None]
      end
    ∧ rooms (manager w') = JsMap.set roomId room'
        (match JsMap.get roomId (rooms (manager w)) with
         | Some _ => rooms (manager w)
         | None => JsMap.set roomId room (rooms (manager w))
         end)
    ∧ participants (manager w')
      = JsMap.set socket (Entry.mk p roomId) (participants (manager w))
    ∧ io w' = socket_join socket roomId (io w)
    ∧ effs = created
             ++ socket_to_emit (io w') socket roomId
                  (user_joined socket userId userName
                     (bool_decide (Meeting.organizer meeting = userId)))
             ++ [Deliver socket
                   (room_joined roomId (Room.meetingTitle room)
                      (map ParticipantView.of_participant
                           (JsMap.values (Room.participants room')))
                      (slice_last 50 (Room.chatMessages room)))].
Proof.
  unfold handleJoinRoom.
  destruct (JoinEnv.found env) as [[meeting|]|e]; [|done..].
  destruct (negb _ && negb _); [done|].
  destruct (JsMap.get (room_id_of meetingId) (rooms (manager w)))
    as [room|] eqn:Hget.
  - intros [= <- <-]. by exists meeting, room, [].
  - destruct (JoinEnv.updated env); [|done].
    intros [= <- <-]. by eexists meeting, _, _.
Qed.

(** C9: a join that succeeds registers the participant with audio on,
    video on and no screen share, in the room and in the reverse index, and
    the joining socket is sent 'room-joined' with the room id
    "meeting_<meetingId>", the title cached in the room, the list of all
    participants of the room and the last 50 chat messages at most.  The
    list has one object per participant of the room, in the order of the
    room's Map, with the socket id, user id, user name, organizer flag and
    media flags of that participant; the object of the new participant is
    in it, and so is the object of everyone the room held before.  This is
    so of a join handled with nothing in between, and of a join that has
    created the room and resumes after the [await] of its status write,
    which replies with the room as it is by then. *)
Theorem join_registers_and_replies :
  (∀ (w w' : World) (socket : SocketId) (meetingId : MeetingId)
     (userId : UserId) (userName : string) (env : JoinEnv.t)
     (effs : list Effect),
    handleJoinRoom w socket meetingId userId userName env = (w', effs, None) →
    ∃ (meeting : Meeting.t) (room' : Room.t) (p : Participant.t),
      let roomId := "meeting_" +:+ meetingId in
      JoinEnv.found env = Resolved (Some meeting)
      ∧ JsMap.get roomId (rooms (manager w')) = Some room'
      ∧ JsMap.get socket (Room.participants room') = Some p
      ∧ JsMap.get socket (participants (manager w')) = Some (Entry.mk p roomId)
      ∧ p = Participant.mk socket userId userName
              (bool_decide (Meeting.organizer meeting = userId))
              (JoinEnv.joinedAt env) true true false
      ∧ Participant.socketId p = socket
      ∧ Participant.userId p = userId
      ∧ Participant.userName p = userName
      ∧ Participant.audio p = true
      ∧ Participant.video p = true
      ∧ Participant.isScreenSharing p = false
      ∧ (∀ room, JsMap.get roomId (rooms (manager w)) = Some room →
           Room.meetingTitle room' = Room.meetingTitle room
           ∧ Room.chatMessages room' = Room.chatMessages room
           ∧ ∀ s, s ≠ socket →
               JsMap.get s (Room.participants room')
               = JsMap.get s (Room.participants room))
      ∧ (JsMap.get roomId (rooms (manager w)) = None →
           Room.meetingTitle room' = Meeting.title meeting
           ∧ Room.chatMessages room' = []
           ∧ JsMap.keys (Room.participants room') = [socket])
      ∧ ∃ (participantList : list ParticipantView.t)
          (chatMessages : list ChatMessage.t),
          last effs = Some (Deliver socket
                              (room_joined roomId (Room.meetingTitle room')
                                 participantList chatMessages))
          ∧ participantList
            = map (λ q, ParticipantView.mk
                          (Participant.socketId q) (Participant.userId q)
                          (Participant.userName q) (Participant.isOrganizer q)
                          (Participant.audio q) (Participant.video q)
                          (Participant.isScreenSharing q))
                  (JsMap.values (Room.participants room'))
          ∧ length participantList = JsMap.size (Room.participants room')
          ∧ ParticipantView.mk socket userId userName
              (bool_decide (Meeting.organizer meeting = userId))
              true true false ∈ participantList
          ∧ (∀ room s q,
               JsMap.get roomId (rooms (manager w)) = Some room →
               JsMap.get s (Room.participants room) = Some q →
               s ≠ socket →
               ParticipantView.mk
                 (Participant.socketId q) (Participant.userId q)
                 (Participant.userName q) (Participant.isOrganizer q)
                 (Participant.audio q) (Participant.video q)
                 (Participant.isScreenSharing q) ∈ participantList)
          ∧ chatMessages
            = drop (length (Room.chatMessages room') - 50)
                   (Room.chatMessages room')
          ∧ length chatMessages ≤ 50
          ∧ chatMessages `suffix_of` Room.chatMessages room')
  ∧ (∀ (w w' : World) (k : JoinPending.t) (updated : Settled unit)
       (joinedAt : Millis) (effs : list Effect),
       handleJoinRoom_resume w k updated joinedAt = (w', effs, None) →
       let socket := JoinPending.socketId k in
       let roomId := "meeting_" +:+ JoinPending.meetingId k in
       ∃ (room room' : Room.t) (p : Participant.t),
         JsMap.get roomId (rooms (manager w)) = Some room
         ∧ JsMap.get roomId (rooms (manager w')) = Some room'
         ∧ JsMap.get socket (Room.participants room') = Some p
         ∧ JsMap.get socket (participants (manager w'))
           = Some (Entry.mk p roomId)
         ∧ p = Participant.mk socket (JoinPending.userId k)
                 (JoinPending.userName k) (JoinPending.isOrganizer k)
                 joinedAt true true false
         ∧ Room.meetingTitle room' = Room.meetingTitle room
         ∧ Room.chatMessages room' = Room.chatMessages room
         ∧ (∀ s, s ≠ socket →
              JsMap.get s (Room.participants room')
              = JsMap.get s (Room.participants room))
         ∧ ∃ (participantList : list ParticipantView.t)
             (chatMessages : list ChatMessage.t),
             effs
             = map (λ s, Deliver s
                           (user_joined socket (JoinPending.userId k)
                              (JoinPending.userName k)
                              (JoinPending.isOrganizer k)))
                   (filter (λ s, s ≠ socket) (members (io w') roomId))
               ++ [Deliver socket
                     (room_joined roomId (Room.meetingTitle room')
                        participantList chatMessages)]
             ∧ participantList
               = map (λ q, ParticipantView.mk
                             (Participant.socketId q) (Participant.userId q)
                             (Participant.userName q)
                             (Participant.isOrganizer q)
                             (Participant.audio q) (Participant.video q)
                             (Participant.isScreenSharing q))
                     (JsMap.values (Room.participants room'))
             ∧ length participantList = JsMap.size (Room.participants room')
             ∧ ParticipantView.mk socket (JoinPending.userId k)
                 (JoinPending.userName k) (JoinPending.isOrganizer k)
                 true true false ∈ participantList
             ∧ (∀ s q,
                  JsMap.get s (Room.participants room) = Some q →
                  s ≠ socket →
                  ParticipantView.mk
                    (Participant.socketId q) (Participant.userId q)
                    (Participant.userName q) (Participant.isOrganizer q)
                    (Participant.audio q) (Participant.video q)
                    (Participant.isScreenSharing q) ∈ participantList)
             ∧ chatMessages
               = drop (length (Room.chatMessages room') - 50)
                      (Room.chatMessages room')
             ∧ length chatMessages ≤ 50
             ∧ chatMessages `suffix_of` Room.chatMessages room').
Proof.
  split.
  - intros w w' socket meetingId userId userName env effs.
    intros H. apply handleJoinRoom_success in H.
    destruct H as (meeting & room & created & Hfound & Hroom & Hrooms & Hidx
                   & Hio & Heffs).
    cbv zeta in *.
    set (p := Participant.mk socket userId userName
                (bool_decide (Meeting.organizer meeting = userId))
                (JoinEnv.joinedAt env) true true false) in *.
    set (view := λ q, ParticipantView.mk
                        (Participant.socketId q) (Participant.userId q)
                        (Participant.userName q) (Participant.isOrganizer q)
                        (Participant.audio q) (Participant.video q)
                        (Participant.isScreenSharing q)).
    change ("meeting_" +:+ meetingId) with (room_id_of meetingId).
    exists meeting,
      (Room.with_participants (JsMap.set socket p (Room.participants room))
                              room), p.
    split; [done|]. split; [by rewrite Hrooms, get_set_eq|].
    split; [apply get_set_eq|]. split; [by rewrite Hidx, get_set_eq|].
    do 7 (split; [done|]).
    split.
    { intros r Hr. rewrite Hr in Hroom. destruct Hroom as [-> _].
      do 2 (split; [done|]). intros s Hs. cbn. by rewrite get_set_ne. }
    split.
    { intros Hr. rewrite Hr in Hroom. by destruct Hroom as [-> _]. }
    assert (Hall : ∀ s q,
      JsMap.get s (JsMap.set socket p (Room.participants room)) = Some q →
      view q ∈ map view (JsMap.values
                           (JsMap.set socket p (Room.participants room)))).
    { intros s q Hq. apply list_elem_of_fmap. exists q. split; [done|].
      by eapply get_Some_value. }
    eexists _, _. split.
    { rewrite Heffs, !app_assoc. apply last_snoc. }
    cbn [Room.participants Room.with_participants Room.chatMessages].
    split; [done|].
    split; [unfold JsMap.size, JsMap.values; by rewrite !length_map|].
    split; [apply (Hall socket p), get_set_eq|].
    split.
    { intros r s q Hr Hq Hs. rewrite Hr in Hroom. destruct Hroom as [-> _].
      apply (Hall s q). by rewrite get_set_ne. }
    split; [done|].
    split; [apply slice_last_length | apply slice_last_suffix].
  - intros w w' k updated joinedAt effs.
    unfold handleJoinRoom_resume, handleJoinRoom_seat.
    destruct updated as [[]|e]; [|done].
    change ("meeting_" +:+ JoinPending.meetingId k)
      with (room_id_of (JoinPending.meetingId k)).
    destruct (JsMap.get (room_id_of (JoinPending.meetingId k))
                        (rooms (manager w))) as [room|] eqn:Hget; [|done].
    intros [= <- <-]. cbn [manager rooms participants io].
    set (p := Participant.mk (JoinPending.socketId k) (JoinPending.userId k)
                (JoinPending.userName k) (JoinPending.isOrganizer k)
                joinedAt true true false).
    set (view := λ q, ParticipantView.mk
                        (Participant.socketId q) (Participant.userId q)
                        (Participant.userName q) (Participant.isOrganizer q)
                        (Participant.audio q) (Participant.video q)
                        (Participant.isScreenSharing q)).
    assert (Hall : ∀ s q,
      JsMap.get s (JsMap.set (JoinPending.socketId k) p
                             (Room.participants room)) = Some q →
      view q ∈ map view (JsMap.values
                           (JsMap.set (JoinPending.socketId k) p
                                      (Room.participants room)))).
    { intros s q Hq. apply list_elem_of_fmap. exists q. split; [done|].
      by eapply get_Some_value. }
    exists room,
      (Room.with_participants
         (JsMap.set (JoinPending.socketId k) p (Room.participants room))
         room), p.
    split; [done|]. split; [apply get_set_eq|].
    split; [apply get_set_eq|]. split; [apply get_set_eq|].
    do 3 (split; [done|]).
    split; [intros s Hs; cbn; by rewrite get_set_ne|].
    eexists _, _. split; [reflexivity|].
    cbn [Room.participants Room.with_participants Room.chatMessages].
    split; [done|].
    split; [unfold JsMap.size, JsMap.values; by rewrite !length_map|].
    split; [apply (Hall (JoinPending.socketId k) p), get_set_eq|].
    split; [intros s q Hq Hs; apply (Hall s q); by rewrite get_set_ne|].
    split; [done|].
    split; [apply slice_last_length | apply slice_last_suffix].
Qed.

(** ** Leaving *)

Lemma removeParticipant_unregistered (w : World) (socket : SocketId)
    (updated : Settled unit) :
  JsMap.get socket (participants (manager w)) = None →
  removeParticipant w socket updated = (w, [], None).
Proof.
  intros H. unfold removeParticipant, removeParticipant_begin. by rewrite H.
Qed.


Lemma removeParticipant_settled (w : World) (socket : SocketId)
    (updated updated' : Settled unit) :
  removeParticipant w socket updated = removeParticipant w socket updated'.
Proof.
  unfold removeParticipant.
  destruct (removeParticipant_begin w socket) as [[w' effs] [k|]]; [|done].
  by destruct updated, updated'.
Qed.

Lemma removeParticipant_no_throw (w : World) (socket : SocketId)
    (updated : Settled unit) :
  (removeParticipant w socket updated).2 = None.
Proof.
  unfold removeParticipant.
  destruct (removeParticipant_begin w socket) as [[w' effs] [k|]]; [|done].
  by destruct updated.
Qed.


(** C8: when the leave empties the room, the rejection of the Meeting
    update changes nothing of what [removeParticipant] does: no error
    escapes, the room is gone from the registry, the socket is gone from
    the reverse index, and state and effects are those of the run in which
    the update resolved. *)
Theorem teardown_survives_rejected_update
    (w : World) (socket : SocketId) (error : string)
    (entry : Entry.t) (room : Room.t) :
  JsMap.get socket (participants (manager w)) = Some entry →
  JsMap.get (Entry.roomId entry) (rooms (manager w)) = Some room →
  JsMap.size (JsMap.delete socket (Room.participants room)) = 0 →
  let '(w', effs, thrown) := removeParticipant w socket (Rejected error) in
  thrown = None
  ∧ JsMap.get (Entry.roomId entry) (rooms (manager w')) = None
  ∧ JsMap.get socket (participants (manager w')) = None
  ∧ FindByIdAndUpdate (Room.meetingId room) completed
      (Some (completion_note (length (Room.chatMessages room)))) ∈ effs
  ∧ removeParticipant w socket (Resolved ()) = (w', effs, thrown).
Proof.
  intros Hentry Hroom Hempty.
  unfold removeParticipant, removeParticipant_begin.
  rewrite Hentry, Hroom. simpl. rewrite decide_True by done. simpl.
  split; [done|]. split; [apply get_delete_eq|].
  split; [apply get_delete_eq|]. split; [|done].
  apply elem_of_app. right. left.
Qed.

(** ** The chat log *)

Lemma chat_kept_refl (m : Manager) : chat_kept m m.
Proof. intros rid room H. right. eauto. Qed.

Lemma chat_kept_bounded (m m' : Manager) :
  chat_kept m m' → chat_bounded m → chat_bounded m'.
Proof.
  intros Hk Hb rid room' H. destruct (Hk _ _ H) as [->|(room & Hr & ->)].
  - simpl. lia.
  - eauto.
Qed.

(** The goal [chat_kept m m'] where the rooms of [m'] are the rooms of [m]
    after [JsMap.set]s and [JsMap.delete]s of rooms whose log is old or
    empty. *)
Ltac chat_kept_by_lookup :=
  unfold chat_kept; simpl; intros ? ?;
  rewrite ?get_set, ?get_delete;
  repeat (destruct (decide _) as [<-|]; [try done; intros [= <-]; eauto|]);
  eauto.

Lemma handleJoinRoom_chat_kept (w : World) (socket : SocketId)
    (meetingId : MeetingId) (userId : UserId) (userName : string)
    (env : JoinEnv.t) :
  chat_kept (manager w)
    (manager (handleJoinRoom w socket meetingId userId userName env).1.1).
Proof.
  unfold handleJoinRoom.
  destruct (JoinEnv.found env) as [[meeting|]|e]; try apply chat_kept_refl.
  destruct (negb _ && negb _); [apply chat_kept_refl|].
  destruct (JsMap.get (room_id_of meetingId) (rooms (manager w)))
    as [room|] eqn:Hget.
  - chat_kept_by_lookup.
  - destruct (JoinEnv.updated env); chat_kept_by_lookup.
Qed.

Lemma update_own_flag_chat_kept (w : World) (socket : SocketId)
    (f : Participant.t → Participant.t) (notice : Entry.t → ServerEvent) :
  chat_kept (manager w) (manager (update_own_flag w socket f notice).1).
Proof.
  unfold update_own_flag.
  destruct (JsMap.get socket _) as [entry|]; [|apply chat_kept_refl].
  destruct (JsMap.get (Entry.roomId entry) _) as [room|] eqn:Hroom;
    [|apply chat_kept_refl].
  destruct (JsMap.get socket (Room.participants room));
    [|apply chat_kept_refl].
  chat_kept_by_lookup.
Qed.

Lemma removeParticipant_begin_chat_kept (w : World) (socket : SocketId) :
  chat_kept (manager w) (manager (removeParticipant_begin w socket).1.1).
Proof.
  unfold removeParticipant_begin.
  destruct (JsMap.get socket _) as [entry|]; [|apply chat_kept_refl].
  destruct (JsMap.get (Entry.roomId entry) _) as [room|] eqn:Hroom;
    [|chat_kept_by_lookup].
  destruct (decide _); chat_kept_by_lookup.
Qed.

Lemma removeParticipant_chat_kept (w : World) (socket : SocketId)
    (updated : Settled unit) :
  chat_kept (manager w) (manager (removeParticipant w socket updated).1.1).
Proof.
  unfold removeParticipant.
  pose proof (removeParticipant_begin_chat_kept w socket) as H.
  destruct (removeParticipant_begin w socket) as [[w' effs] [k|]]; [|done].
  destruct updated; unfold chat_kept in *; simpl in *; intros rid room';
    rewrite get_delete; (destruct (decide _); [done|]; apply H).
Qed.

(** The log a room has after an accepted message: the message is pushed,
    and if that makes more than the retention count, the last 100 stay. *)
Lemma handleChatMessage_accepted (trim : string → string) (w : World)
    (socket : SocketId) (message uuid : string) (now : Millis)
    (entry : Entry.t) (room : Room.t) :
  JsMap.get socket (participants (manager w)) = Some entry →
  trim message ≠ "" →
  JsMap.get (Entry.roomId entry) (rooms (manager w)) = Some room →
  let chatMessage :=
    ChatMessage.mk uuid (Participant.userId (Entry.participant entry))
      (Participant.userName (Entry.participant entry)) (trim message) now
      (Participant.isOrganizer (Entry.participant entry)) in
  let pushed := Room.chatMessages room ++ [chatMessage] in
  handleChatMessage trim w socket message uuid now
  = (mkWorld
       (mkManager
          (JsMap.set (Entry.roomId entry)
             (Room.with_chatMessages
                (if decide (chat_retention < length pushed)
                 then slice_last chat_retention pushed else pushed) room)
             (rooms (manager w)))
          (participants (manager w)))
       (io w),
     io_to_emit (io w) (Entry.roomId entry) (chat_message chatMessage)).
Proof.
  intros He Ht Hr. unfold handleChatMessage.
  by rewrite He, bool_decide_eq_false_2, Hr.
Qed.

Lemma handleChatMessage_bounded (trim : string → string) (w : World)
    (socket : SocketId) (message uuid : string) (now : Millis) :
  chat_bounded (manager w) →
  chat_bounded (manager (handleChatMessage trim w socket message uuid now).1).
Proof.
  intros Hb. unfold handleChatMessage.
  destruct (JsMap.get socket _) as [entry|]; [|done].
  destruct (bool_decide _); [done|].
  destruct (JsMap.get (Entry.roomId entry) _) as [room|] eqn:Hroom; [|done].
  unfold chat_bounded. simpl. intros rid room'. rewrite get_set.
  destruct (decide _) as [<-|]; [intros [= <-]|by apply Hb].
  simpl. destruct (decide _); [apply slice_last_length | lia].
Qed.

Lemma handle_chat_bounded (trim : string → string) (w : World)
    (ev : ClientEvent) :
  chat_bounded (manager w) → chat_bounded (manager (handle trim w ev).1).
Proof.
  intros Hb. destruct ev; simpl; try done.
  - unfold join_room_listener.
    pose proof (handleJoinRoom_chat_kept w socket meetingId userId userName
                  env) as Hk.
    destruct (handleJoinRoom _ _ _ _ _ _) as [[w' effs] [e|]];
      by eapply chat_kept_bounded.
  - eapply chat_kept_bounded; [|done].
    apply (update_own_flag_chat_kept w socket).
  - eapply chat_kept_bounded; [|done].
    apply (update_own_flag_chat_kept w socket).
  - eapply chat_kept_bounded; [|done].
    apply (update_own_flag_chat_kept w socket).
  - eapply chat_kept_bounded; [|done].
    apply (update_own_flag_chat_kept w socket).
  - by apply handleChatMessage_bounded.
  - eapply chat_kept_bounded; [|done].
    apply (removeParticipant_chat_kept w).
  - eapply chat_kept_bounded;
      [apply (removeParticipant_chat_kept (mkWorld _ _))|done].
Qed.

Lemma run_chat_bounded (trim : string → string) (evs : list ClientEvent)
    (w : World) :
  chat_bounded (manager w) → chat_bounded (manager (run trim w evs).1).
Proof.
  revert w. induction evs as [|ev evs IH]; intros w Hb; [done|].
  simpl. pose proof (handle_chat_bounded trim w ev Hb) as H1.
  destruct (handle trim w ev) as [w1 effs1]. specialize (IH w1 H1).
  by destruct (run trim w1 evs).
Qed.

(** C4: in every state the coordinator reaches from its start, no room's
    chat log is longer than the retention count of 100; and an accepted
    message (sender registered, text not blank, room present) becomes the
    newest entry of the log, after all the old ones while there is space
    and after all but the oldest when the log was full. *)
Theorem chat_log_capped_fifo (trim : string → string)
    (evs : list ClientEvent) :
  let w := (run trim initial evs).1 in
  chat_bounded (manager w)
  ∧ ∀ (socket : SocketId) (message uuid : string) (now : Millis)
      (entry : Entry.t) (room : Room.t),
      JsMap.get socket (participants (manager w)) = Some entry →
      trim message ≠ "" →
      JsMap.get (Entry.roomId entry) (rooms (manager w)) = Some room →
      let chatMessage :=
        ChatMessage.mk uuid (Participant.userId (Entry.participant entry))
          (Participant.userName (Entry.participant entry)) (trim message) now
          (Participant.isOrganizer (Entry.participant entry)) in
      ∃ room' : Room.t,
        JsMap.get (Entry.roomId entry)
          (rooms (manager
                    (handleChatMessage trim w socket message uuid now).1))
        = Some room'
        ∧ length (Room.chatMessages room') ≤ chat_retention
        ∧ last (Room.chatMessages room') = Some chatMessage
        ∧ (length (Room.chatMessages room) < chat_retention →
           Room.chatMessages room' = Room.chatMessages room ++ [chatMessage])
        ∧ (length (Room.chatMessages room) = chat_retention →
           Room.chatMessages room'
           = drop 1 (Room.chatMessages room) ++ [chatMessage]).
Proof.
  intros w.
  assert (Hb : chat_bounded (manager w)).
  { apply run_chat_bounded. intros rid room. done. }
  split; [done|].
  intros socket message uuid now entry room He Ht Hr chatMessage.
  rewrite (handleChatMessage_accepted trim w socket message uuid now
             entry room He Ht Hr).
  eexists. split; [apply get_set_eq|]. simpl.
  specialize (Hb _ _ Hr). fold chatMessage.
  assert (Hlen : length (Room.chatMessages room ++ [chatMessage])
                 = S (length (Room.chatMessages room))).
  { rewrite length_app. simpl. lia. }
  destruct (decide _) as [Hover|Hfit].
  - assert (Hfull : length (Room.chatMessages room) = chat_retention) by lia.
    assert (Hslice : slice_last chat_retention
                       (Room.chatMessages room ++ [chatMessage])
                     = drop 1 (Room.chatMessages room) ++ [chatMessage]).
    { unfold slice_last. rewrite Hlen, Hfull.
      replace (S chat_retention - chat_retention) with 1 by lia.
      rewrite drop_app_le; [done|]. unfold chat_retention in *. lia. }
    rewrite Hslice. split; [|split; [apply last_snoc|split; [lia|done]]].
    rewrite length_app, length_drop. simpl. unfold chat_retention in *. lia.
  - split; [lia|]. split; [apply last_snoc|]. split; [done|]. lia.
Qed.

(** ** The reverse index and the rooms agree *)

Lemma index_ok_halves (m : Manager) :
  index_ok m ↔ index_sound m ∧ index_complete m.
Proof.
  split.
  - intros H. split.
    + intros socket entry He. by apply (H socket).
    + intros rid room socket Hr Hs.
      destruct (H socket) as ([_ Hback] & Huniq & Hsound).
      assert (Hseat : seated m rid socket) by (by exists room).
      destruct Hback as [entry He]; [eauto|].
      exists entry. split; [done|].
      destruct (Hsound _ He) as (room' & p & Hr' & Hp & _).
      apply Huniq; [|done]. exists room'. eauto.
  - intros [Hs Hc] socket. split; [split|split].
    + intros [entry He]. destruct (Hs _ _ He) as (room & p & Hr & Hp & _).
      exists (Entry.roomId entry). exists room. eauto.
    + intros (rid & room & Hr & Hp).
      destruct (Hc _ _ _ Hr Hp) as (e & He & _). eauto.
    + intros rid rid' (room & Hr & Hp) (room' & Hr' & Hp').
      destruct (Hc _ _ _ Hr Hp) as (e & He & <-).
      destruct (Hc _ _ _ Hr' Hp') as (e' & He' & <-). congruence.
    + intros entry He. by apply Hs.
Qed.

(** Put otherwise: in the index if and only if exactly one room seats the
    socket. *)
Lemma index_ok_exactly_one (m : Manager) (socket : SocketId) :
  index_ok m →
  (is_Some (JsMap.get socket (participants m))
   ↔ ∃ rid, seated m rid socket ∧ ∀ rid', seated m rid' socket → rid' = rid).
Proof.
  intros H. destruct (H socket) as (Hiff & Huniq & _). split.
  - intros [rid Hrid]%Hiff. exists rid. split; [done|].
    intros rid' Hrid'. by apply Huniq.
  - intros (rid & Hrid & _). apply Hiff. eauto.
Qed.

Lemma index_inv_constructor : index_inv constructor.
Proof. split; [intros s e|intros rid room s]; done. Qed.

(** A socket that was not registered takes a seat in the room [rid]. *)
Lemma index_inv_seat (m m' : Manager) (rid : RoomId)
    (before : JsMap.t Participant.t) (room' : Room.t)
    (socket : SocketId) (p : Participant.t) (e : Entry.t) :
  index_inv m →
  JsMap.get socket (participants m) = None →
  (∀ k, JsMap.get k (rooms m')
        = if decide (rid = k) then Some room' else JsMap.get k (rooms m)) →
  (∀ k, JsMap.get k (participants m')
        = if decide (socket = k) then Some e
          else JsMap.get k (participants m)) →
  (∀ k, JsMap.get k (Room.participants room')
        = if decide (socket = k) then Some p else JsMap.get k before) →
  match JsMap.get rid (rooms m) with
  | Some room => before = Room.participants room
  | None => before = JsMap.empty
  end →
  Entry.roomId e = rid →
  flags_eq p (Entry.participant e) →
  index_inv m'.
Proof.
  intros [Hs Hc] Hnew Hrooms Hidx Hparts Hbefore Hrid Hflags. split.
  - intros s entry. rewrite Hidx.
    destruct (decide (socket = s)) as [<-|Hne].
    + intros [= <-]. exists room', p. rewrite Hrooms, Hparts, Hrid.
      by rewrite !decide_True.
    + intros He. destruct (Hs _ _ He) as (room & q & Hr & Hq & Hf).
      destruct (decide (rid = Entry.roomId entry)) as [Heq|Hne'].
      * exists room', q. rewrite Hrooms, Hparts, Heq.
        rewrite decide_True, decide_False by done.
        rewrite Heq, Hr in Hbefore. by subst before.
      * exists room, q. by rewrite Hrooms, decide_False.
  - intros rid0 room0 s. rewrite Hrooms, Hidx.
    destruct (decide (rid = rid0)) as [<-|Hne].
    + intros [= <-]. rewrite Hparts.
      destruct (decide (socket = s)) as [<-|Hne]; [eauto|].
      intros Hin. destruct (JsMap.get rid (rooms m)) as [room|] eqn:Hr.
      * subst before. by apply (Hc _ _ _ Hr).
      * subst before. by destruct Hin.
    + intros Hr Hin. destruct (Hc _ _ _ Hr Hin) as (entry & He & Heq).
      destruct (decide (socket = s)) as [<-|]; [congruence|eauto].
Qed.

(** The room [rid], or a participant object in it, is replaced by one that
    seats the same sockets; the index entry of [socket] is replaced along
    with it. *)
Lemma index_inv_replace (m m' : Manager) (rid : RoomId) (room room' : Room.t)
    (socket : SocketId) :
  index_inv m →
  JsMap.get rid (rooms m) = Some room →
  (∀ k, JsMap.get k (rooms m')
        = if decide (rid = k) then Some room' else JsMap.get k (rooms m)) →
  (∀ k, k ≠ socket →
        JsMap.get k (participants m') = JsMap.get k (participants m)
        ∧ JsMap.get k (Room.participants room')
          = JsMap.get k (Room.participants room)) →
  (∀ e p, JsMap.get socket (participants m) = Some e →
          JsMap.get socket (Room.participants room) = Some p →
          Entry.roomId e = rid →
          ∃ e' p', JsMap.get socket (participants m') = Some e'
                   ∧ JsMap.get socket (Room.participants room') = Some p'
                   ∧ Entry.roomId e' = rid
                   ∧ (flags_eq p (Entry.participant e) →
                      flags_eq p' (Entry.participant e'))) →
  (JsMap.get socket (participants m) = None →
   JsMap.get socket (participants m') = None) →
  (JsMap.get socket (Room.participants room) = None →
   JsMap.get socket (Room.participants room') = None) →
  (∀ e, JsMap.get socket (participants m) = Some e → Entry.roomId e ≠ rid →
        JsMap.get socket (participants m') = Some e) →
  index_inv m'.
Proof.
  intros [Hs Hc] Hr Hrooms Hother Hown Hnone Hnone' Helse. split.
  - intros s entry He'.
    destruct (decide (s = socket)) as [->|Hne].
    + destruct (JsMap.get socket (participants m)) as [e|] eqn:He;
        [|by rewrite Hnone in He'].
      destruct (Hs _ _ He) as (room0 & p & Hr0 & Hp & Hf).
      destruct (decide (Entry.roomId e = rid)) as [Heq|Hneq].
      * rewrite Heq, Hr in Hr0. injection Hr0 as <-.
        destruct (Hown _ _ eq_refl Hp Heq) as (e' & p' & He'' & Hp' & Hrid & Hf').
        rewrite He'' in He'. injection He' as <-.
        exists room', p'. rewrite Hrooms, Hrid, decide_True by done. auto.
      * rewrite (Helse _ eq_refl Hneq) in He'. injection He' as <-.
        exists room0, p. by rewrite Hrooms, decide_False.
    + destruct (Hother s Hne) as [Hi Hp]. rewrite Hi in He'.
      destruct (Hs _ _ He') as (room0 & p & Hr0 & Hp0 & Hf).
      destruct (decide (rid = Entry.roomId entry)) as [Heq|Hneq].
      * rewrite <- Heq, Hr in Hr0. injection Hr0 as <-.
        exists room', p. rewrite Hrooms, decide_True by done. by rewrite Hp.
      * exists room0, p. by rewrite Hrooms, decide_False.
  - intros rid0 room0 s. rewrite Hrooms.
    destruct (decide (rid = rid0)) as [<-|Hne].
    + intros [= <-] Hin.
      destruct (decide (s = socket)) as [->|Hns].
      * destruct (JsMap.get socket (Room.participants room)) as [p|] eqn:Hp;
          [|rewrite Hnone' in Hin; by destruct Hin].
        destruct (Hc _ _ socket Hr) as (e & He & Heq); [by rewrite Hp|].
        destruct (Hown _ _ He eq_refl Heq) as (e' & p' & He' & _ & Hrid & _).
        eauto.
      * destruct (Hother s Hns) as [Hi Hp]. rewrite Hi. rewrite Hp in Hin.
        by apply (Hc _ _ _ Hr).
    + intros Hr0 Hin. destruct (Hc _ _ _ Hr0 Hin) as (e & He & Heq).
      destruct (decide (s = socket)) as [->|Hns].
      * exists e. split; [|done]. apply Helse; [done|congruence].
      * destruct (Hother s Hns) as [Hi _]. rewrite Hi. eauto.
Qed.

(** A room without participants is put in the registry. *)
Lemma index_inv_empty_room (m : Manager) (rid : RoomId) (room : Room.t) :
  index_inv m →
  JsMap.get rid (rooms m) = None →
  Room.participants room = JsMap.empty →
  index_inv (mkManager (JsMap.set rid room (rooms m)) (participants m)).
Proof.
  intros [Hs Hc] Hnone Hempty. split.
  - intros s e He. destruct (Hs _ _ He) as (room0 & p & Hr & Hp & Hf).
    exists room0, p. simpl. rewrite get_set_ne; [done|congruence].
  - intros rid0 room0 s. simpl. rewrite get_set.
    destruct (decide (rid = rid0)) as [<-|]; [|intros; eapply Hc; eauto].
    intros [= <-] Hin. rewrite Hempty in Hin. by destruct Hin.
Qed.

(** A registered socket gives up its seat; the room stays, or goes when no
    other socket is seated in it. *)
Lemma index_inv_unseat (m m' : Manager) (rid : RoomId) (room : Room.t)
    (socket : SocketId) (e : Entry.t) :
  index_inv m →
  JsMap.get socket (participants m) = Some e →
  Entry.roomId e = rid →
  JsMap.get rid (rooms m) = Some room →
  (∀ k, JsMap.get k (participants m')
        = if decide (socket = k) then None
          else JsMap.get k (participants m)) →
  ((∃ room',
      (∀ k, JsMap.get k (rooms m')
            = if decide (rid = k) then Some room'
              else JsMap.get k (rooms m))
      ∧ ∀ k, JsMap.get k (Room.participants room')
             = if decide (socket = k) then None
               else JsMap.get k (Room.participants room))
   ∨ ((∀ k, JsMap.get k (rooms m')
            = if decide (rid = k) then None else JsMap.get k (rooms m))
      ∧ ∀ k, k ≠ socket → JsMap.get k (Room.participants room) = None)) →
  index_inv m'.
Proof.
  intros [Hs Hc] He Hrid Hr Hidx Hrooms. split.
  - intros s entry. rewrite Hidx.
    destruct (decide (socket = s)) as [<-|Hne]; [done|].
    intros He'. destruct (Hs _ _ He') as (room0 & p & Hr0 & Hp & Hf).
    destruct (decide (rid = Entry.roomId entry)) as [Heq|Hneq].
    + rewrite <- Heq, Hr in Hr0. injection Hr0 as <-.
      destruct Hrooms as [(room' & Hrs & Hps)|[_ Hlast]].
      * exists room', p. rewrite Hrs, Hps, <- Heq.
        by rewrite decide_True, decide_False.
      * rewrite Hlast in Hp by done. done.
    + exists room0, p.
      destruct Hrooms as [(room' & Hrs & _)|[Hrs _]];
        by rewrite Hrs, decide_False.
  - intros rid0 room0 s Hr0 Hin. rewrite Hidx.
    assert (Hseat : ∃ room1, JsMap.get rid0 (rooms m) = Some room1
                    ∧ is_Some (JsMap.get s (Room.participants room1))
                    ∧ (rid0 = rid → s ≠ socket)).
    { destruct Hrooms as [(room' & Hrs & Hps)|[Hrs _]]; rewrite Hrs in Hr0.
      - destruct (decide (rid = rid0)) as [<-|Hne].
        + injection Hr0 as <-. rewrite Hps in Hin.
          destruct (decide (socket = s)) as [<-|]; [by destruct Hin|].
          exists room. eauto.
        + exists room0. split; [done|]. split; [done|]. congruence.
      - destruct (decide (rid = rid0)) as [<-|Hne]; [done|].
        exists room0. split; [done|]. split; [done|]. congruence. }
    destruct Hseat as (room1 & Hr1 & Hin1 & Hns).
    destruct (Hc _ _ _ Hr1 Hin1) as (entry & He' & Heq).
    destruct (decide (socket = s)) as [<-|Hne]; [|eauto].
    exfalso. apply Hns; [|done]. congruence.
Qed.

Lemma handleJoinRoom_index_inv (w : World) (socket : SocketId)
    (meetingId : MeetingId) (userId : UserId) (userName : string)
    (env : JoinEnv.t) :
  JsMap.get socket (participants (manager w)) = None →
  index_inv (manager w) →
  index_inv
    (manager (handleJoinRoom w socket meetingId userId userName env).1.1).
Proof.
  intros Hnew Hinv. unfold handleJoinRoom.
  destruct (JoinEnv.found env) as [[meeting|]|e]; try done.
  destruct (negb _ && negb _); [done|].
  destruct (JsMap.get (room_id_of meetingId) (rooms (manager w)))
    as [room|] eqn:Hget.
  - simpl.
    eapply (index_inv_seat (manager w) _ (room_id_of meetingId)
              (Room.participants room));
      [exact Hinv | exact Hnew | intros k; apply get_set
      | intros k; apply get_set | intros k; apply get_set
      | by rewrite Hget | done | done].
  - destruct (JoinEnv.updated env); simpl.
    + eapply (index_inv_seat (manager w) _ (room_id_of meetingId)
                JsMap.empty);
        [exact Hinv | exact Hnew
        | intros k; simpl; rewrite !get_set; by destruct (decide _)
        | intros k; apply get_set
        | intros k; exact (get_set socket k _ JsMap.empty)
        | by rewrite Hget | done | done].
    + by apply index_inv_empty_room.
Qed.

Lemma update_own_flag_index_inv (w : World) (socket : SocketId)
    (f : Participant.t → Participant.t) (notice : Entry.t → ServerEvent) :
  (∀ p q, flags_eq p q → flags_eq (f p) (f q)) →
  index_inv (manager w) →
  index_inv (manager (update_own_flag w socket f notice).1).
Proof.
  intros Hf Hinv. unfold update_own_flag.
  destruct (JsMap.get socket _) as [entry|] eqn:He; [|done].
  destruct (JsMap.get (Entry.roomId entry) _) as [room|] eqn:Hroom; [|done].
  destruct (JsMap.get socket (Room.participants room)) as [p|] eqn:Hp;
    [|done].
  simpl.
  eapply (index_inv_replace (manager w) _ (Entry.roomId entry) room _ socket);
    [exact Hinv | exact Hroom | intros k; apply get_set | | | | | ]; simpl.
  - intros k Hk. by rewrite !get_set_ne.
  - intros e0 p0 He0 Hp0 _. simplify_eq. eexists _, _.
    rewrite !get_set_eq. split; [done|]. split; [done|]. split; [done|].
    apply Hf.
  - by rewrite He.
  - by rewrite Hp.
  - intros e0 He0. simplify_eq. done.
Qed.

Lemma handleChatMessage_index_inv (trim : string → string) (w : World)
    (socket : SocketId) (message uuid : string) (now : Millis) :
  index_inv (manager w) →
  index_inv (manager (handleChatMessage trim w socket message uuid now).1).
Proof.
  intros Hinv. unfold handleChatMessage.
  destruct (JsMap.get socket _) as [entry|] eqn:He; [|done].
  destruct (bool_decide _); [done|].
  destruct (JsMap.get (Entry.roomId entry) _) as [room|] eqn:Hroom; [|done].
  simpl.
  eapply (index_inv_replace (manager w) _ (Entry.roomId entry) room _ socket);
    [exact Hinv | exact Hroom | intros k; apply get_set | | | | | ]; simpl;
    try done.
  intros e0 p0 He0 Hp0 Hrid. exists e0, p0. auto.
Qed.

Lemma removeParticipant_index_inv (w : World) (socket : SocketId)
    (updated : Settled unit) :
  index_inv (manager w) →
  index_inv (manager (removeParticipant w socket updated).1.1).
Proof.
  intros Hinv.
  rewrite (removeParticipant_settled w socket updated (Resolved ())).
  unfold removeParticipant, removeParticipant_begin.
  destruct (JsMap.get socket _) as [entry|] eqn:He; [|done].
  destruct (JsMap.get (Entry.roomId entry) _) as [room|] eqn:Hroom.
  - destruct (decide _) as [Hempty|Hrest]; simpl.
    + eapply (index_inv_unseat (manager w) _ (Entry.roomId entry) room socket);
        [exact Hinv | exact He | done | exact Hroom
        | intros k; apply get_delete | ].
      right. simpl. split.
      * intros k. rewrite get_delete, get_set. by destruct (decide _).
      * intros k Hk. simpl in Hempty.
        pose proof (proj1 (size_0_get _) Hempty k) as Hk'.
        by rewrite get_delete_ne in Hk'.
    + eapply (index_inv_unseat (manager w) _ (Entry.roomId entry) room socket);
        [exact Hinv | exact He | done | exact Hroom
        | intros k; apply get_delete | ].
      left. eexists. split; [intros k; apply get_set|].
      intros k. simpl. apply get_delete.
  - destruct Hinv as [Hs _]. destruct (Hs _ _ He) as (room & _ & Hr & _).
    congruence.
Qed.

(** Each media handler is an instance of [update_own_flag]. *)
Lemma handleToggleAudio_shape (w : World) (socket : SocketId) (audio : bool) :
  handleToggleAudio w socket audio
  = update_own_flag w socket (Participant.with_audio audio)
      (λ _, participant_audio_toggle socket audio).
Proof. reflexivity. Qed.

Lemma handleToggleVideo_shape (w : World) (socket : SocketId) (video : bool) :
  handleToggleVideo w socket video
  = update_own_flag w socket (Participant.with_video video)
      (λ _, participant_video_toggle socket video).
Proof. reflexivity. Qed.

Lemma handleStartScreenShare_shape (w : World) (socket : SocketId) :
  handleStartScreenShare w socket
  = update_own_flag w socket (Participant.with_isScreenSharing true)
      (λ participant,
         screen_share_started socket
           (Participant.userName (Entry.participant participant))).
Proof. reflexivity. Qed.

Lemma handleStopScreenShare_shape (w : World) (socket : SocketId) :
  handleStopScreenShare w socket
  = update_own_flag w socket (Participant.with_isScreenSharing false)
      (λ _, screen_share_stopped socket).
Proof. reflexivity. Qed.

Lemma with_audio_flags (b : bool) (p q : Participant.t) :
  flags_eq p q →
  flags_eq (Participant.with_audio b p) (Participant.with_audio b q).
Proof. intros (_ & ? & ?). by repeat split. Qed.

Lemma with_video_flags (b : bool) (p q : Participant.t) :
  flags_eq p q →
  flags_eq (Participant.with_video b p) (Participant.with_video b q).
Proof. intros (? & _ & ?). by repeat split. Qed.

Lemma with_isScreenSharing_flags (b : bool) (p q : Participant.t) :
  flags_eq p q →
  flags_eq (Participant.with_isScreenSharing b p)
           (Participant.with_isScreenSharing b q).
Proof. intros (? & ? & _). by repeat split. Qed.

Lemma handle_index_inv (trim : string → string) (w : World)
    (ev : ClientEvent) :
  fresh_join w ev →
  index_inv (manager w) → index_inv (manager (handle trim w ev).1).
Proof.
  intros Hfresh Hinv. destruct ev; simpl in *; try done.
  - unfold join_room_listener.
    pose proof (handleJoinRoom_index_inv w socket meetingId userId userName
                  env Hfresh Hinv) as H.
    by destruct (handleJoinRoom _ _ _ _ _ _) as [[w' effs] [e|]].
  - rewrite handleToggleAudio_shape.
    apply update_own_flag_index_inv; [apply with_audio_flags|done].
  - rewrite handleToggleVideo_shape.
    apply update_own_flag_index_inv; [apply with_video_flags|done].
  - rewrite handleStartScreenShare_shape.
    apply update_own_flag_index_inv; [apply with_isScreenSharing_flags|done].
  - rewrite handleStopScreenShare_shape.
    apply update_own_flag_index_inv; [apply with_isScreenSharing_flags|done].
  - by apply handleChatMessage_index_inv.
  - by apply removeParticipant_index_inv.
  - by apply (removeParticipant_index_inv (mkWorld _ _)).
Qed.

(** ** The interleaving *)

(** [handleJoinRoom] is its two halves run one after the other. *)
Lemma handleJoinRoom_begin_resume (w : World) (socket : SocketId)
    (meetingId : MeetingId) (userId : UserId) (userName : string)
    (env : JoinEnv.t) :
  handleJoinRoom w socket meetingId userId userName env
  = let '(w1, effs1, thrown1, k) :=
      handleJoinRoom_begin w socket meetingId userId userName env in
    match k with
    | None => (w1, effs1, thrown1)
    | Some k =>
        let '(w2, effs2, thrown2) :=
          handleJoinRoom_resume w1 k (JoinEnv.updated env)
                                (JoinEnv.joinedAt env) in
        (w2, effs1 ++ effs2, thrown2)
    end.
Proof.
  unfold handleJoinRoom, handleJoinRoom_begin.
  destruct (JoinEnv.found env) as [[meeting|]|e]; [|done..].
  destruct (negb _ && negb _); [done|].
  destruct (JsMap.get (room_id_of meetingId) (rooms (manager w)))
    as [room|] eqn:Hget.
  - unfold handleJoinRoom_seat. cbn [JoinPending.meetingId]. by rewrite Hget.
  - unfold handleJoinRoom_resume, handleJoinRoom_seat.
    destruct (JoinEnv.updated env); [|by rewrite app_nil_r].
    cbn [manager rooms participants io JoinPending.meetingId
         JoinPending.socketId JoinPending.userId JoinPending.userName
         JoinPending.isOrganizer].
    by rewrite get_set_eq.
Qed.

(** With nothing suspended, an event followed at once by the settling of
    what it awaits is the event handled from start to end. *)
Lemma exec_settled_at_once (trim : string → string) (w : World)
    (ev : ClientEvent) :
  exec trim (mkSys w []) (settled_at_once ev)
  = (mkSys (handle trim w ev).1 [], (handle trim w ev).2).
Proof.
  destruct ev as [s|s mid uid name env| | | | | | | | |s u|s u];
    try (cbn [settled_at_once exec step world awaiting];
         destruct (handle trim w _) as [w' effs];
         cbn; by rewrite ?app_nil_r).
  - cbn [settled_at_once exec step world awaiting handle].
    unfold join_room_listener. rewrite handleJoinRoom_begin_resume.
    unfold handleJoinRoom_begin.
    destruct (JoinEnv.found env) as [[meeting|]|e];
      [|cbn; by rewrite ?app_nil_r..].
    destruct (negb _ && negb _); [cbn; by rewrite ?app_nil_r|].
    destruct (JsMap.get (room_id_of mid) (rooms (manager w))) as [room|].
    + destruct (handleJoinRoom_seat _ _ _) as [[w' effs] thrown].
      cbn. destruct thrown; cbn; by rewrite ?app_nil_r.
    + cbn -[handleJoinRoom_resume JsMap.set room_id_of bool_decide].
      destruct (handleJoinRoom_resume _ _ _ _) as [[w' effs] thrown].
      cbn. destruct thrown; cbn; by rewrite ?app_nil_r.
  - cbn [settled_at_once exec step world awaiting handle].
    unfold handleLeaveRoom, removeParticipant.
    destruct (removeParticipant_begin w s) as [[w' effs] [k|]];
      cbn; [|by rewrite ?app_nil_r].
    destruct (removeParticipant_resume w' k u) as [w'' thrown].
    cbn. by rewrite ?app_nil_r.
  - cbn [settled_at_once exec step world awaiting handle].
    unfold handleDisconnect, removeParticipant.
    destruct (removeParticipant_begin _ s) as [[w' effs] [k|]];
      cbn; [|by rewrite ?app_nil_r].
    destruct (removeParticipant_resume w' k u) as [w'' thrown].
    cbn. by rewrite ?app_nil_r.
Qed.

Lemma exec_app (trim : string → string) (acts acts' : list Action)
    (σ : Sys) :
  exec trim σ (acts ++ acts')
  = let '(σ1, effs1) := exec trim σ acts in
    let '(σ2, effs2) := exec trim σ1 acts' in
    (σ2, effs1 ++ effs2).
Proof.
  revert σ. induction acts as [|a acts IH]; intros σ; cbn [app exec].
  - by destruct (exec trim σ acts').
  - destruct (step trim σ a) as [σ1 effs1]. rewrite IH.
    destruct (exec trim σ1 acts) as [σ2 effs2].
    destruct (exec trim σ2 acts') as [σ3 effs3]. by rewrite app_assoc.
Qed.

(** So a sequence of such events is the sequence handled event by
    event. *)
Lemma exec_uninterrupted (trim : string → string) (evs : list ClientEvent)
    (w : World) :
  exec trim (mkSys w []) (uninterrupted evs)
  = (mkSys (run trim w evs).1 [], (run trim w evs).2).
Proof.
  revert w. induction evs as [|ev evs IH]; intros w; [done|].
  unfold uninterrupted. cbn [map concat run]. rewrite exec_app.
  rewrite exec_settled_at_once. fold (uninterrupted evs). rewrite IH.
  destruct (handle trim w ev) as [w1 effs1]. cbn [fst snd].
  by destruct (run trim w1 evs) as [w2 effs2].
Qed.

(** The join in the gap is the first join of each of the two sockets. *)
Lemma join_in_the_gap_first_joins :
  first_joins ascii_trim (mkSys lobby []) join_in_the_gap.
Proof.
  cbn [first_joins join_in_the_gap first_join]. repeat split; try done.
  - intros k Hk. by apply elem_of_nil in Hk.
  - intros k Hk.
    change (k ∈ [teardown_awaits (Pending.mk "meeting_M" "sA")]) in Hk.
    apply list_elem_of_singleton in Hk as ->. by intros [=].
Qed.

(** When the write that an event awaits settles before anything else is
    handled, the invariant [index_ok] (a socket is in the reverse index
    exactly when a room seats it, it is seated in one room only, the entry
    names that room, and audio, video and isScreenSharing of the entry are
    those of the room's participant) is kept by every socket event, a join
    being from a socket that is not registered; it holds of the new
    coordinator; and under it a socket is in the index if and only if
    exactly one room seats it. *)
Lemma reverse_index_consistent (trim : string → string) :
  index_ok constructor
  ∧ (∀ (w : World) (ev : ClientEvent),
       fresh_join w ev →
       index_ok (manager w) →
       index_ok (manager (world (exec trim (mkSys w [])
                                       (settled_at_once ev)).1)))
  ∧ ∀ (m : Manager) (socket : SocketId),
      index_ok m →
      (is_Some (JsMap.get socket (participants m))
       ↔ ∃ rid, seated m rid socket
                ∧ ∀ rid', seated m rid' socket → rid' = rid).
Proof.
  split; [|split].
  - apply index_ok_halves, index_inv_constructor.
  - intros w ev Hfresh Hok. rewrite exec_settled_at_once. cbn [fst world].
    apply index_ok_halves.
    apply handle_index_inv; [done|]. by apply index_ok_halves.
  - intros m socket. apply index_ok_exactly_one.
Qed.

(** C10: the invariant is lost when a join is handled while a teardown
    awaits its write.  Ann joins the meeting [M] alone and leaves:
    [removeParticipant] takes her out of the room and, the room being
    empty, awaits the status write (line 299); the room stays in the
    registry meanwhile.  Bob's join of [M], his first, is handled before
    that write settles: it finds the room, seats him and puts him in the
    index.  When the write settles, the teardown goes on, deletes the room
    and Ann's entry.  The index then holds Bob, under a room that the
    registry does not have.  The invariant held before Ann left (it does
    not hold while her teardown awaits: the index holds her and no room
    seats her), no socket has joined twice, and nothing is left
    suspended. *)
Theorem join_during_teardown_breaks_index :
  let joined :=
    (exec ascii_trim (mkSys lobby []) (take 2 join_in_the_gap)).1 in
  let leaving :=
    (exec ascii_trim (mkSys lobby []) (take 3 join_in_the_gap)).1 in
  let after := (exec ascii_trim (mkSys lobby []) join_in_the_gap).1 in
  index_ok (manager lobby)
  ∧ index_ok (manager (world joined))
  ∧ awaiting leaving = [teardown_awaits (Pending.mk "meeting_M" "sA")]
  ∧ JsMap.keys (rooms (manager (world leaving))) = ["meeting_M"]
  ∧ JsMap.get "sB" (participants (manager (world leaving))) = None
  ∧ ¬ index_ok (manager (world leaving))
  ∧ first_joins ascii_trim (mkSys lobby []) join_in_the_gap
  ∧ awaiting after = []
  ∧ rooms (manager (world after)) = []
  ∧ participants (manager (world after))
    = [("sB", Entry.mk (Participant.mk "sB" "uB" "Bob" false 20 true true
                                       false) "meeting_M")]
  ∧ ¬ index_ok (manager (world after)).
Proof.
  intros joined leaving after.
  assert (Hlobby : index_inv (manager lobby)) by apply index_inv_constructor.
  split; [by apply index_ok_halves|].
  split.
  { apply index_ok_halves.
    exact (handle_index_inv ascii_trim lobby
             (ev_join_room "sA" "M" "uA" "Ann" (envOk 10)) eq_refl Hlobby). }
  split; [reflexivity|]. split; [reflexivity|]. split; [reflexivity|].
  split.
  { intros Hok. destruct (Hok "sA") as [_ [_ Hentry]].
    destruct (Hentry _ eq_refl) as (room & p & Hroom & Hseat & _).
    vm_compute in Hroom. injection Hroom as <-. discriminate Hseat. }
  split; [exact join_in_the_gap_first_joins|].
  split; [reflexivity|]. split; [reflexivity|]. split; [reflexivity|].
  intros Hok. destruct (Hok "sB") as [_ [_ Hentry]].
  destruct (Hentry _ eq_refl) as (room & p & Hroom & _).
  vm_compute in Hroom. discriminate Hroom.
Qed.

(** ** Relaying signals *)

Lemma room_id_of_is_room_name (meetingId : MeetingId) :
  is_room_name (room_id_of meetingId).
Proof. by exists meetingId. Qed.

Lemma members_add_member (g g' : string) (s : SocketId) (i : Io) :
  members (add_member g s i) g'
  = if decide (g = g')
    then (if bool_decide (s ∈ members i g) then members i g
          else members i g ++ [s])
    else members i g'.
Proof.
  unfold members at 1, add_member. simpl. rewrite get_set.
  by destruct (decide (g = g')).
Qed.


Lemma members_del_all (g : string) (s : SocketId) (i : Io) :
  members (del_all s i) g = filter (λ x, x ≠ s) (members i g).
Proof.
  unfold members, del_all. simpl.
  induction (groups i) as [|[g0 ms] gs IH]; simpl; [done|].
  by destruct (decide (g = g0)).
Qed.

Lemma members_io_close (g : string) (s : SocketId) (i : Io) :
  members (io_close s i) g = filter (λ x, x ≠ s) (members i g).
Proof. apply members_del_all. Qed.

Lemma sockets_io_close (s : SocketId) (i : Io) :
  sockets (io_close s i) = filter (λ x, x ≠ s) (sockets i).
Proof. reflexivity. Qed.

Lemma sockets_del_member (g : string) (s : SocketId) (i : Io) :
  sockets (del_member g s i) = sockets i.
Proof. unfold del_member. by destruct (JsMap.get g (groups i)). Qed.

Lemma io_ok_initial : io_ok (io initial).
Proof.
  split; simpl.
  - by intros s ?%elem_of_nil.
  - by intros g s ?%elem_of_nil.
  - by intros g s ?%elem_of_nil.
  - by intros s ?%elem_of_nil.
Qed.

Lemma io_ok_unnamed (i : Io) (g : string) :
  io_ok i → g ∉ sockets i → ¬ is_room_name g → members i g = [].
Proof.
  intros Hok Hg Hr. destruct (members i g) as [|s ms] eqn:E; [done|].
  destruct (io_named i Hok g s) as [?|?]; [rewrite E; left|done..].
Qed.

Lemma io_ok_connect (s : SocketId) (i : Io) :
  io_ok i → s ∉ sockets i → ¬ is_room_name s → io_ok (io_connect s i).
Proof.
  intros Hok Hnew Hname.
  assert (Hmem : ∀ g, members (mkIo (sockets i ++ [s]) (groups i)) g
                      = members i g) by done.
  assert (Hnone : members i s = []) by by apply io_ok_unnamed.
  unfold io_connect.
  split; simpl.
  - intros s' Hs'. rewrite members_add_member, Hmem, Hnone. simpl.
    destruct (decide (s = s')) as [<-|Hne]; [done|].
    rewrite Hmem. apply (io_own i Hok).
    apply elem_of_app in Hs' as [?|?%list_elem_of_singleton]; [done|].
    congruence.
  - intros g s'. rewrite members_add_member, Hmem, Hnone. simpl.
    destruct (decide (s = g)) as [<-|Hne].
    + intros ->%list_elem_of_singleton. apply elem_of_app. right. left.
    + rewrite Hmem. intros Hin. apply elem_of_app. left.
      by apply (io_connected i Hok g).
  - intros g s'. rewrite members_add_member, Hmem, Hnone. simpl.
    destruct (decide (s = g)) as [<-|Hne].
    + intros _. left. apply elem_of_app. right. left.
    + rewrite Hmem. intros Hin.
      destruct (io_named i Hok g s' Hin); [left|by right].
      apply elem_of_app. by left.
  - intros s' [?|Heq%list_elem_of_singleton]%elem_of_app; [|by subst].
    by apply (io_ids i Hok).
Qed.

Lemma io_ok_join (s : SocketId) (meetingId : MeetingId) (i : Io) :
  io_ok i → s ∈ sockets i →
  io_ok (socket_join s (room_id_of meetingId) i).
Proof.
  intros Hok Hs. unfold socket_join.
  pose proof (room_id_of_is_room_name meetingId) as Hroom.
  split; simpl.
  - intros s' Hs'. rewrite members_add_member.
    destruct (decide _) as [Heq|]; [|by apply (io_own i Hok)].
    destruct (io_ids i Hok s' Hs'). by rewrite <- Heq.
  - intros g s'. rewrite members_add_member.
    destruct (decide _) as [<-|]; [|apply (io_connected i Hok)].
    destruct (bool_decide _); [apply (io_connected i Hok)|].
    intros [?|Heq%list_elem_of_singleton]%elem_of_app; [|by subst].
    by eapply (io_connected i Hok).
  - intros g s'. rewrite members_add_member.
    destruct (decide _) as [<-|]; [by right|apply (io_named i Hok)].
  - apply (io_ids i Hok).
Qed.

Lemma io_ok_close (s : SocketId) (i : Io) : io_ok i → io_ok (io_close s i).
Proof.
  intros Hok. split; intros *; rewrite ?members_io_close, ?sockets_io_close.
  - intros [Hne Hin]%list_elem_of_filter.
    rewrite (io_own i Hok _ Hin). by rewrite filter_cons_True.
  - intros [Hne Hin]%list_elem_of_filter.
    apply list_elem_of_filter. split; [done|]. by eapply (io_connected i Hok).
  - intros [Hne Hin]%list_elem_of_filter.
    destruct (io_named i Hok g s0 Hin) as [Hg|?]; [|by right].
    left. apply list_elem_of_filter. split; [|done].
    intros ->. rewrite (io_own i Hok _ Hg) in Hin.
    by apply list_elem_of_singleton in Hin.
  - intros [_ Hin]%list_elem_of_filter. by apply (io_ids i Hok).
Qed.

Lemma handleJoinRoom_io (w : World) (socket : SocketId)
    (meetingId : MeetingId) (userId : UserId) (userName : string)
    (env : JoinEnv.t) :
  let r := handleJoinRoom w socket meetingId userId userName env in
  match r.2 with
  | Some _ => io r.1.1 = io w
  | None => io r.1.1 = socket_join socket (room_id_of meetingId) (io w)
  end.
Proof.
  unfold handleJoinRoom.
  destruct (JoinEnv.found env) as [[meeting|]|e]; try done.
  destruct (negb _ && negb _); [done|].
  destruct (JsMap.get (room_id_of meetingId) (rooms (manager w))); [done|].
  by destruct (JoinEnv.updated env).
Qed.

Lemma update_own_flag_io (w : World) (socket : SocketId)
    (f : Participant.t → Participant.t) (notice : Entry.t → ServerEvent) :
  io (update_own_flag w socket f notice).1 = io w.
Proof.
  unfold update_own_flag.
  destruct (JsMap.get socket _) as [entry|]; [|done].
  destruct (JsMap.get (Entry.roomId entry) _) as [room|]; [|done].
  by destruct (JsMap.get socket (Room.participants room)).
Qed.

Lemma handleChatMessage_io (trim : string → string) (w : World)
    (socket : SocketId) (message uuid : string) (now : Millis) :
  io (handleChatMessage trim w socket message uuid now).1 = io w.
Proof.
  unfold handleChatMessage.
  destruct (JsMap.get socket _) as [entry|]; [|done].
  destruct (bool_decide _); [done|].
  by destruct (JsMap.get (Entry.roomId entry) _).
Qed.

Lemma removeParticipant_begin_io (w : World) (socket : SocketId) :
  io (removeParticipant_begin w socket).1.1 = io w.
Proof.
  unfold removeParticipant_begin.
  destruct (JsMap.get socket _) as [entry|]; [|done].
  destruct (JsMap.get (Entry.roomId entry) _) as [room|]; [|done].
  by destruct (decide _).
Qed.

Lemma removeParticipant_io (w : World) (socket : SocketId)
    (updated : Settled unit) :
  io (removeParticipant w socket updated).1.1 = io w.
Proof.
  unfold removeParticipant.
  pose proof (removeParticipant_begin_io w socket) as H.
  destruct (removeParticipant_begin w socket) as [[w' effs] [k|]]; [|done].
  by destruct updated.
Qed.

Lemma handle_io_ok (trim : string → string) (w : World) (ev : ClientEvent) :
  admissible w ev → io_ok (io w) → io_ok (io (handle trim w ev).1).
Proof.
  intros Hadm Hok. destruct ev; simpl in *.
  - destruct Hadm. by apply io_ok_connect.
  - unfold join_room_listener.
    pose proof (handleJoinRoom_io w socket meetingId userId userName env) as H.
    destruct (handleJoinRoom _ _ _ _ _ _) as [[w' effs] [e|]]; simpl in *;
      rewrite H; [done|]. by apply io_ok_join.
  - done.
  - done.
  - done.
  - by rewrite handleToggleAudio_shape, update_own_flag_io.
  - by rewrite handleToggleVideo_shape, update_own_flag_io.
  - by rewrite handleStartScreenShare_shape, update_own_flag_io.
  - by rewrite handleStopScreenShare_shape, update_own_flag_io.
  - by rewrite handleChatMessage_io.
  - unfold handleLeaveRoom. by rewrite removeParticipant_io.
  - unfold handleDisconnect. rewrite removeParticipant_io. simpl.
    by apply io_ok_close.
Qed.

(** C3, as amended: a relay never throws (its result has no error
    component) and leaves the state as it was; the payload, tagged with the
    sender's id, goes to the members of the group that the target string
    names, the sender excepted.  On a well-formed server that is: nobody
    when the target is neither connected nor a room name, the target alone
    when it is a connected socket other than the sender, and nobody when
    the target is the sender's own id. *)
Theorem relay_reaches_group_of_target
    (kind : SignalKind) (w : World) (socket targetSocketId : SocketId)
    (payload : Payload) :
  let '(w', effs) := relaySignal kind w socket targetSocketId payload in
  w' = w
  ∧ effs = map (λ s, Deliver s (signal_event kind socket payload))
               (filter (λ s, s ≠ socket) (members (io w) targetSocketId))
  ∧ (io_ok (io w) → targetSocketId ∉ sockets (io w) →
     ¬ is_room_name targetSocketId → effs = [])
  ∧ (io_ok (io w) → targetSocketId ∈ sockets (io w) →
     targetSocketId ≠ socket →
     effs = [Deliver targetSocketId (signal_event kind socket payload)])
  ∧ (io_ok (io w) → socket ∈ sockets (io w) → targetSocketId = socket →
     effs = []).
Proof.
  assert (H : relaySignal kind w socket targetSocketId payload
              = (w, map (λ s, Deliver s (signal_event kind socket payload))
                      (filter (λ s, s ≠ socket)
                              (members (io w) targetSocketId))))
    by by destruct kind.
  rewrite H. split; [done|]. split; [done|]. split; [|split].
  - intros Hok Hnc Hnr. by rewrite (io_ok_unnamed _ _ Hok Hnc Hnr).
  - intros Hok Hc Hne. rewrite (io_own _ Hok _ Hc).
    by rewrite filter_cons_True.
  - intros Hok Hc ->. rewrite (io_own _ Hok _ Hc).
    by rewrite filter_cons_False by (by intros ?).
Qed.

(** C3, as stated, fails in the call of three: a relay that [sA] addresses
    to its own id, a connected socket, is delivered to nobody; and a relay
    addressed to the room's name, which is no connected socket, is
    delivered to the other two. *)
Lemma relay_to_own_id_or_room_name :
  ("sA" ∈ sockets (io call_of_three)
   ∧ (relaySignal sig_offer call_of_three "sA" "sA" "sdp").2 = [])
  ∧ (("meeting_M" ∉ sockets (io call_of_three))
     ∧ (relaySignal sig_offer call_of_three "sA" "meeting_M" "sdp").2
       = [Deliver "sB" (offer_ "sA" "sdp");
          Deliver "sC" (offer_ "sA" "sdp")]).
Proof.
  split; (split; [|by vm_compute]).
  - vm_compute. left.
  - vm_compute. intros H. repeat (apply elem_of_cons in H as [H|H]; [done|]).
    by apply elem_of_nil in H.
Qed.

(** ** Rooms and broadcast groups *)

Lemma grouped_mono (w w' : World) :
  grouped w →
  seats_within (manager w) (manager w') →
  (∀ s, s ∈ sockets (io w) → s ∈ sockets (io w')) →
  (∀ g s, s ∈ members (io w) g → s ∈ members (io w') g) →
  grouped w'.
Proof.
  intros Hg Hseats Hsock Hmem rid s Hs.
  destruct (Hg rid s (Hseats _ _ Hs)). auto.
Qed.

Lemma seats_within_refl (m : Manager) : seats_within m m.
Proof. by intros rid s. Qed.

Lemma update_own_flag_seats (w : World) (socket : SocketId)
    (f : Participant.t → Participant.t) (notice : Entry.t → ServerEvent) :
  seats_within (manager w) (manager (update_own_flag w socket f notice).1).
Proof.
  unfold update_own_flag.
  destruct (JsMap.get socket _) as [entry|]; [|apply seats_within_refl].
  destruct (JsMap.get (Entry.roomId entry) _) as [room|] eqn:Hroom;
    [|apply seats_within_refl].
  destruct (JsMap.get socket (Room.participants room)) as [p|] eqn:Hp;
    [|apply seats_within_refl].
  intros rid s (room' & Hr & Hs). simpl in Hr. rewrite get_set in Hr.
  destruct (decide _) as [<-|]; [|by exists room'].
  injection Hr as <-. simpl in Hs. rewrite get_set in Hs.
  exists room. split; [done|]. destruct (decide _) as [<-|]; [|done].
  by rewrite Hp.
Qed.

Lemma handleChatMessage_seats (trim : string → string) (w : World)
    (socket : SocketId) (message uuid : string) (now : Millis) :
  seats_within (manager w)
    (manager (handleChatMessage trim w socket message uuid now).1).
Proof.
  unfold handleChatMessage.
  destruct (JsMap.get socket _) as [entry|]; [|apply seats_within_refl].
  destruct (bool_decide _); [apply seats_within_refl|].
  destruct (JsMap.get (Entry.roomId entry) _) as [room|] eqn:Hroom;
    [|apply seats_within_refl].
  intros rid s (room' & Hr & Hs). simpl in Hr. rewrite get_set in Hr.
  destruct (decide _) as [<-|]; [|by exists room'].
  injection Hr as <-. by exists room.
Qed.

(** After [removeParticipant_begin] the socket has no seat in the room its
    index entry names, and no seat has been added. *)
Lemma removeParticipant_begin_seats (w : World) (socket : SocketId) :
  let m' := manager (removeParticipant_begin w socket).1.1 in
  seats_within (manager w) m'
  ∧ ∀ entry, JsMap.get socket (participants (manager w)) = Some entry →
             ¬ seated m' (Entry.roomId entry) socket.
Proof.
  unfold removeParticipant_begin.
  destruct (JsMap.get socket _) as [entry|] eqn:He;
    [|split; [apply seats_within_refl|done]].
  destruct (JsMap.get (Entry.roomId entry) _) as [room|] eqn:Hroom.
  - assert (Hcommon : ∀ ps,
      let m' := mkManager
                  (JsMap.set (Entry.roomId entry)
                     (Room.with_participants
                        (JsMap.delete socket (Room.participants room)) room)
                     (rooms (manager w))) ps in
      seats_within (manager w) m'
      ∧ ∀ entry0, Some entry = Some entry0 →
                  ¬ seated m' (Entry.roomId entry0) socket).
    { intros ps. split.
      - intros rid s (room' & Hr & Hs). simpl in Hr. rewrite get_set in Hr.
        destruct (decide _) as [<-|]; [|by exists room'].
        injection Hr as <-. simpl in Hs. rewrite get_delete in Hs.
        exists room. split; [done|]. by destruct (decide _).
      - intros entry0 [= <-] (room' & Hr & Hs). simpl in Hr.
        rewrite get_set_eq in Hr. injection Hr as <-. simpl in Hs.
        rewrite get_delete_eq in Hs. by destruct Hs. }
    destruct (decide _); apply Hcommon.
  - simpl. split; [intros rid s Hs; exact Hs|].
    intros entry0 [= <-] (room' & Hr & _). simpl in Hr. congruence.
Qed.

Lemma removeParticipant_seats (w : World) (socket : SocketId)
    (updated : Settled unit) :
  let m' := manager (removeParticipant w socket updated).1.1 in
  seats_within (manager w) m'
  ∧ ∀ entry, JsMap.get socket (participants (manager w)) = Some entry →
             ¬ seated m' (Entry.roomId entry) socket.
Proof.
  unfold removeParticipant.
  pose proof (removeParticipant_begin_seats w socket) as [H1 H2].
  destruct (removeParticipant_begin w socket) as [[w' effs] [k|]];
    [|by split].
  assert (Hdel : seats_within (manager w')
            (manager (removeParticipant_resume w' k updated).1)).
  { destruct updated; intros rid s (room' & Hr & Hs); simpl in Hr;
      rewrite get_delete in Hr; (destruct (decide _); [done|]);
      by exists room'. }
  destruct (removeParticipant_resume w' k updated) as [w'' thrown] eqn:E.
  simpl in *. split.
  - intros rid s Hs. by apply H1, Hdel.
  - intros entry He Hs. by apply (H2 entry He), Hdel.
Qed.

Lemma world_ok_initial : world_ok initial.
Proof.
  split; [apply index_inv_constructor|]. split; [apply io_ok_initial|].
  intros rid s (room & Hr & _). done.
Qed.

Lemma handleJoinRoom_thrown_seats (w : World) (socket : SocketId)
    (meetingId : MeetingId) (userId : UserId) (userName : string)
    (env : JoinEnv.t) :
  let r := handleJoinRoom w socket meetingId userId userName env in
  is_Some r.2 → seats_within (manager w) (manager r.1.1).
Proof.
  unfold handleJoinRoom.
  destruct (JoinEnv.found env) as [[meeting|]|e];
    try (intros; apply seats_within_refl).
  destruct (negb _ && negb _); [intros; apply seats_within_refl|].
  destruct (JsMap.get (room_id_of meetingId) (rooms (manager w)))
    as [room|] eqn:Hget; [by intros []|].
  destruct (JoinEnv.updated env); [by intros []|].
  intros _ rid s (room' & Hr & Hs). simpl in Hr. rewrite get_set in Hr.
  destruct (decide _) as [<-|]; [|by exists room'].
  injection Hr as <-. by destruct Hs.
Qed.

Lemma handleJoinRoom_grouped (w : World) (socket : SocketId)
    (meetingId : MeetingId) (userId : UserId) (userName : string)
    (env : JoinEnv.t) :
  socket ∈ sockets (io w) →
  grouped w →
  grouped (handleJoinRoom w socket meetingId userId userName env).1.1.
Proof.
  intros Hconn Hg.
  pose proof (handleJoinRoom_thrown_seats w socket meetingId userId userName
                env) as Hthrown.
  pose proof (handleJoinRoom_io w socket meetingId userId userName env)
    as Hio.
  destruct (handleJoinRoom w socket meetingId userId userName env)
    as [[w' effs] [e|]] eqn:E; simpl in *.
  - eapply grouped_mono; [done|by apply Hthrown|by rewrite Hio..].
  - clear Hthrown. apply handleJoinRoom_success in E.
    destruct E as (meeting & room & created & _ & Hroom & Hrooms & _ & _ & _).
    cbv zeta in *.
    assert (Hmem : ∀ g s, s ∈ members (io w) g → s ∈ members (io w') g).
    { intros g s Hs. rewrite Hio. unfold socket_join.
      rewrite members_add_member. destruct (decide _) as [<-|]; [|done].
      destruct (bool_decide (socket ∈ _)); [done|].
      apply elem_of_app. by left. }
    assert (Hself : socket ∈ members (io w') (room_id_of meetingId)).
    { rewrite Hio. unfold socket_join.
      rewrite members_add_member, decide_True by done.
      destruct (bool_decide (socket ∈ _)) eqn:Hb.
      - by apply bool_decide_eq_true in Hb.
      - apply elem_of_app. right. left. }
    assert (Hsock : sockets (io w') = sockets (io w)) by by rewrite Hio.
    intros rid s (room' & Hr & Hs). rewrite Hsock.
    rewrite Hrooms, get_set in Hr.
    destruct (decide (room_id_of meetingId = rid)) as [<-|Hne].
    + injection Hr as <-. simpl in Hs. rewrite get_set in Hs.
      destruct (decide (socket = s)) as [<-|Hns]; [done|].
      destruct (JsMap.get (room_id_of meetingId) (rooms (manager w)))
        as [r|] eqn:Hget.
      * destruct Hroom as [-> _].
        destruct (Hg (room_id_of meetingId) s) as [? ?]; [by exists r|].
        auto.
      * destruct Hroom as [-> _]. by destruct Hs.
    + assert (Hold : JsMap.get rid (rooms (manager w)) = Some room').
      { destruct (JsMap.get (room_id_of meetingId) (rooms (manager w)));
          [done|]. by rewrite get_set_ne in Hr. }
      destruct (Hg rid s) as [? ?]; [by exists room'|]. auto.
Qed.

Lemma handle_world_ok (trim : string → string) (w : World)
    (ev : ClientEvent) :
  admissible w ev → fresh_join w ev →
  world_ok w → world_ok (handle trim w ev).1.
Proof.
  intros Hadm Hfresh (Hinv & Hok & Hg).
  split; [by apply handle_index_inv|]. split; [by apply handle_io_ok|].
  destruct ev; simpl in *.
  - destruct Hadm as [Hnew Hname].
    eapply grouped_mono; [done|apply seats_within_refl|..]; simpl.
    + intros s Hs. apply elem_of_app. by left.
    + intros g s Hs. unfold io_connect. rewrite members_add_member.
      destruct (decide _) as [<-|]; [|done].
      change (members _ socket) with (members (io w) socket).
      rewrite (io_ok_unnamed _ _ Hok Hnew Hname) in Hs.
      by apply elem_of_nil in Hs.
  - unfold join_room_listener.
    pose proof (handleJoinRoom_grouped w socket meetingId userId userName env
                  Hadm Hg) as H.
    by destruct (handleJoinRoom _ _ _ _ _ _) as [[w' effs] [e|]].
  - done.
  - done.
  - done.
  - rewrite handleToggleAudio_shape.
    eapply grouped_mono; [done|apply update_own_flag_seats|..];
      by rewrite update_own_flag_io.
  - rewrite handleToggleVideo_shape.
    eapply grouped_mono; [done|apply update_own_flag_seats|..];
      by rewrite update_own_flag_io.
  - rewrite handleStartScreenShare_shape.
    eapply grouped_mono; [done|apply update_own_flag_seats|..];
      by rewrite update_own_flag_io.
  - rewrite handleStopScreenShare_shape.
    eapply grouped_mono; [done|apply update_own_flag_seats|..];
      by rewrite update_own_flag_io.
  - eapply grouped_mono; [done|apply handleChatMessage_seats|..];
      by rewrite handleChatMessage_io.
  - unfold handleLeaveRoom.
    eapply grouped_mono; [done|apply removeParticipant_seats|..];
      by rewrite removeParticipant_io.
  - unfold handleDisconnect.
    pose proof (removeParticipant_seats
                  (mkWorld (manager w) (io_close socket (io w)))
                  socket updated) as [Hseats Hgone].
    intros rid s Hs. rewrite removeParticipant_io.
    cbn [io]. rewrite members_io_close, sockets_io_close.
    assert (Hbefore : seated (manager w) rid s) by by apply Hseats.
    assert (Hne : s ≠ socket).
    { intros ->. destruct Hinv as [_ Hc].
      destruct Hbefore as (room & Hr & Hin).
      destruct (Hc _ _ _ Hr Hin) as (entry & He & <-).
      by apply (Hgone entry He). }
    destruct (Hg rid s Hbefore).
    split; apply list_elem_of_filter; by split.
Qed.

Lemma run_world_ok (trim : string → string) (evs : list ClientEvent)
    (w : World) :
  admissible_run trim w evs → world_ok w → world_ok (run trim w evs).1.
Proof.
  revert w. induction evs as [|ev evs IH]; intros w Hadm Hok; [done|].
  destruct Hadm as (Ha & Hf & Hrest). simpl.
  pose proof (handle_world_ok trim w ev Ha Hf Hok) as H1.
  destruct (handle trim w ev) as [w1 effs1]. specialize (IH w1 Hrest H1).
  by destruct (run trim w1 evs).
Qed.

(** ** Media flags *)

Lemma keys_set_present {V} (k : string) (v v' : V) (m : JsMap.t V) :
  JsMap.get k m = Some v' → JsMap.keys (JsMap.set k v m) = JsMap.keys m.
Proof.
  induction m as [|[k0 v0] m IH]; simpl; [done|].
  destruct (decide (k = k0)) as [->|]; [done|]. intros. simpl. f_equal. auto.
Qed.

Lemma update_own_flag_seated (w : World) (socket : SocketId)
    (entry : Entry.t) (room : Room.t) (p : Participant.t)
    (f : Participant.t → Participant.t) (notice : Entry.t → ServerEvent) :
  JsMap.get socket (participants (manager w)) = Some entry →
  JsMap.get (Entry.roomId entry) (rooms (manager w)) = Some room →
  JsMap.get socket (Room.participants room) = Some p →
  own_flag_set w socket entry room p f (notice entry)
               (update_own_flag w socket f notice).
Proof.
  intros He Hr Hp. unfold update_own_flag, own_flag_set.
  rewrite He, Hr, Hp. cbn [manager rooms participants io].
  split.
  { eexists. split; [apply get_set_eq|]. cbn.
    split; [apply get_set_eq|]. split; [intros s Hs; by apply get_set_ne|].
    split; [by eapply keys_set_present|]. done. }
  split; [intros rid' Hne; by apply get_set_ne|].
  split; [apply get_set_eq|].
  split; [intros s Hs; by apply get_set_ne|].
  split; [done|]. split.
  { intros now. eexists. split.
    - unfold getRoomStats. cbn. apply list_elem_of_fmap. eexists. split; [done|].
      apply (get_Some_elem (Entry.roomId entry)). apply get_set_eq.
    - cbn. split; [done|]. apply list_elem_of_fmap. exists (f p).
      split; [done|]. apply (get_Some_value socket). apply get_set_eq. }
  split; [done|].
  intros Hg s Hs Hin. unfold socket_to_emit.
  apply list_elem_of_fmap. exists s. split; [done|].
  apply list_elem_of_filter. split; [done|].
  apply (Hg (Entry.roomId entry) s). by exists room.
Qed.

Lemma update_own_flag_unseated (w : World) (socket : SocketId)
    (f : Participant.t → Participant.t) (notice : Entry.t → ServerEvent) :
  (∀ rid, ¬ seated (manager w) rid socket) →
  update_own_flag w socket f notice = (w, []).
Proof.
  intros Hno. unfold update_own_flag.
  destruct (JsMap.get socket _) as [entry|]; [|done].
  destruct (JsMap.get (Entry.roomId entry) _) as [room|] eqn:Hr; [|done].
  destruct (JsMap.get socket (Room.participants room)) as [p|] eqn:Hp;
    [|done].
  destruct (Hno (Entry.roomId entry)). exists room. by rewrite Hp.
Qed.


(** ** Ending a call *)

Lemma filter_all {A} (P : A → Prop) `{!∀ x, Decision (P x)} (l : list A) :
  (∀ x, x ∈ l → P x) → filter P l = l.
Proof.
  induction l as [|a l IH]; intros Hall; [done|].
  rewrite filter_cons_True by (apply Hall; left).
  f_equal. apply IH. intros x Hx. apply Hall. by right.
Qed.

Lemma force_disconnect_sockets (roomId : RoomId)
    (acc : World * list Effect * list Pending.t) (s : SocketId) :
  sockets (io (force_disconnect roomId acc s).1.1)
  = filter (λ x, x ≠ s) (sockets (io acc.1.1)).
Proof.
  destruct acc as [[w effs] pending]. unfold force_disconnect.
  case_bool_decide as Hin.
  - pose proof (removeParticipant_begin_io
                  (mkWorld (manager w)
                     (io_close s (socket_leave s roomId (io w)))) s) as Hio.
    destruct (removeParticipant_begin _ s) as [[w' effs'] k]. simpl in *.
    rewrite Hio, sockets_io_close. unfold socket_leave.
    by rewrite sockets_del_member.
  - simpl. symmetry. apply filter_all. by intros x Hx ->.
Qed.

Lemma force_disconnect_effects (roomId : RoomId)
    (acc : World * list Effect * list Pending.t) (s : SocketId) :
  ∃ more, (force_disconnect roomId acc s).1.2 = acc.1.2 ++ more
          ∧ (s ∈ sockets (io acc.1.1) → Disconnected s ∈ more).
Proof.
  destruct acc as [[w effs] pending]. unfold force_disconnect.
  case_bool_decide as Hin.
  - destruct (removeParticipant_begin _ s) as [[w' effs'] k]. simpl.
    eexists. split; [done|]. intros _. left.
  - exists []. simpl. by rewrite app_nil_r.
Qed.

Lemma foldl_force_disconnect (roomId : RoomId) (l : list SocketId)
    (acc : World * list Effect * list Pending.t) :
  let r := foldl (force_disconnect roomId) acc l in
  (∀ x, x ∈ sockets (io r.1.1) ↔ x ∈ sockets (io acc.1.1) ∧ x ∉ l)
  ∧ ∃ more, r.1.2 = acc.1.2 ++ more
            ∧ ∀ s, s ∈ l → s ∈ sockets (io acc.1.1) → Disconnected s ∈ more.
Proof.
  revert acc. induction l as [|a l IH]; intros acc; simpl.
  - split.
    + intros x. split; [intros ?; split; [done|apply not_elem_of_nil]|].
      by intros [? _].
    + exists []. split; [by rewrite app_nil_r|]. by intros s ?%elem_of_nil.
  - destruct (IH (force_disconnect roomId acc a)) as [Hsock (more & Heff & Hd)].
    destruct (force_disconnect_effects roomId acc a) as (m1 & Hm1 & Hd1).
    pose proof (force_disconnect_sockets roomId acc a) as Hs1.
    split.
    + intros x. rewrite Hsock, Hs1, list_elem_of_filter, not_elem_of_cons.
      tauto.
    + exists (m1 ++ more). split; [by rewrite Heff, Hm1, app_assoc|].
      intros s Hin Hconn. apply elem_of_app.
      destruct (decide (s = a)) as [->|Hne]; [left; auto|].
      right. apply Hd.
      * by apply elem_of_cons in Hin as [?|?].
      * rewrite Hs1. apply list_elem_of_filter. by split.
Qed.

Lemma elem_of_delete {V} (k k0 : string) (v : V) (m : JsMap.t V) :
  (k, v) ∈ JsMap.delete k0 m → k ≠ k0.
Proof.
  induction m as [|[k1 v1] m IH]; simpl; [by intros ?%elem_of_nil|].
  destruct (decide (k0 = k1)) as [->|Hne]; [done|].
  intros [[= -> ->]|?]%elem_of_cons; [done|auto].
Qed.

(** A room that is not in the registry is not there either after a
    suspended handler has resumed. *)
Lemma settles_keeps_room_gone (trim : string → string) (w : World)
    (l : list Suspended) (i : nat) (outcome : Settled unit) (now : Millis)
    (rid : RoomId) :
  JsMap.get rid (rooms (manager w)) = None →
  JsMap.get rid
    (rooms (manager (world (step trim (mkSys w l)
                                 (settles i outcome now)).1))) = None.
Proof.
  intros Hgone. cbn [step world awaiting].
  destruct (l !! i) as [[k|k]|]; [| |done].
  - unfold handleJoinRoom_resume, handleJoinRoom_seat.
    destruct outcome as [[]|e]; [|done].
    destruct (JsMap.get (room_id_of (JoinPending.meetingId k))
                        (rooms (manager w))) as [room|] eqn:Hget; [|done].
    cbn [fst world manager rooms]. rewrite get_set_ne; [done|].
    intros Heq. congruence.
  - destruct outcome; cbn; rewrite get_delete; by destruct (decide _).
Qed.

(** C5: the organizer ends the call of a meeting whose room seats
    connected sockets that are in the room's broadcast group.  Each of them
    is sent 'call-ended' and is disconnected by the server; the room is out
    of the registry when [endVideoCall] reaches its [await], no
    [getRoomStats] from then on lists it, and it stays out when the
    teardowns left waiting, or any other suspended handler, resume; the
    meeting is saved as completed, its
    notes being the old notes followed by a line feed and the line
    "Call ended by organizer at <time>", trimmed as the schema has it, and
    that meeting is the body of the 200 response. *)
Theorem endVideoCall_ends_call
    (trim : string → string)
    (w : World) (meetingId : MeetingId) (userId : UserId) (userName : string)
    (meeting : Meeting.t) (nowIso : string) (saved : Settled unit)
    (room : Room.t) :
  Meeting.organizer meeting = userId →
  JsMap.get (room_id_of meetingId) (rooms (manager w)) = Some room →
  (∀ s, s ∈ JsMap.keys (Room.participants room) →
        s ∈ sockets (io w) ∧ s ∈ members (io w) (room_id_of meetingId)) →
  let '(w', effs, response, pending) :=
    endVideoCall trim w meetingId userId userName (Resolved (Some meeting))
                 nowIso saved in
  let notes' :=
    trim (default "" (Meeting.notes meeting)
          +:+ String (Ascii.ascii_of_nat 10)
                ("Call ended by organizer at " +:+ nowIso)) in
  (∀ s, s ∈ JsMap.keys (Room.participants room) →
        Deliver s (call_ended "The call has been ended by the organizer"
                              userName) ∈ effs
        ∧ Disconnected s ∈ effs
        ∧ s ∉ sockets (io w'))
  ∧ JsMap.get (room_id_of meetingId) (rooms (manager w')) = None
  ∧ (∀ now rs, rs ∈ Stats.rooms (getRoomStats (manager w') now) →
               RoomStats.roomId rs ≠ room_id_of meetingId)
  ∧ (∀ k updated,
       JsMap.get (room_id_of meetingId)
         (rooms (manager (removeParticipant_resume w' k updated).1)) = None)
  ∧ (∀ suspended i outcome now,
       JsMap.get (room_id_of meetingId)
         (rooms (manager (world (step trim (mkSys w' suspended)
                                      (settles i outcome now)).1))) = None)
  ∧ MeetingSave meetingId completed notes' ∈ effs
  ∧ (saved = Resolved () →
     response
     = Response.mk 200 "Video call ended successfully"
         (Some (Meeting.mk (Meeting.title meeting) (Meeting.organizer meeting)
                           (Meeting.attendees meeting) completed
                           (Some notes')))).
Proof.
  intros Horg Hroom Hin. unfold endVideoCall.
  rewrite bool_decide_eq_false_2 by (by intros ?). rewrite Hroom.
  pose proof (foldl_force_disconnect (room_id_of meetingId)
                (JsMap.keys (Room.participants room))
                (w, io_to_emit (io w) (room_id_of meetingId)
                      (call_ended msg_call_ended userName), []))
    as [Hsock (more & Heff & Hd)].
  destruct (foldl _ _ _) as [[w1 effs1] pending]. simpl in Hsock, Heff, Hd.
  set (notes' := trim (default "" (Meeting.notes meeting)
                       +:+ String (Ascii.ascii_of_nat 10)
                             ("Call ended by organizer at " +:+ nowIso))).
  assert (Hall : ∀ s, s ∈ JsMap.keys (Room.participants room) →
            Deliver s (call_ended "The call has been ended by the organizer"
                                  userName)
              ∈ effs1 ++ [MeetingSave meetingId completed notes']
            ∧ Disconnected s
              ∈ effs1 ++ [MeetingSave meetingId completed notes']
            ∧ s ∉ sockets (io w1)).
  { intros s Hs. destruct (Hin s Hs) as [Hconn Hmem]. rewrite Heff.
    split; [|split].
    - apply elem_of_app. left. apply elem_of_app. left.
      apply list_elem_of_fmap. by exists s.
    - apply elem_of_app. left. apply elem_of_app. right. by apply Hd.
    - intros [_ ?]%Hsock. done. }
  assert (Hgone : JsMap.get (room_id_of meetingId)
                    (JsMap.delete (room_id_of meetingId) (rooms (manager w1)))
                  = None) by apply get_delete_eq.
  assert (Hstats : ∀ (now : Millis) rs ps,
            rs ∈ Stats.rooms
                   (getRoomStats
                      (mkManager
                         (JsMap.delete (room_id_of meetingId)
                                       (rooms (manager w1))) ps) now) →
            RoomStats.roomId rs ≠ room_id_of meetingId).
  { intros now rs ps. unfold getRoomStats. cbn.
    intros ([k r] & -> & Hkr)%list_elem_of_fmap. cbn.
    by apply elem_of_delete in Hkr. }
  assert (Hresume : ∀ k updated ps i,
            JsMap.get (room_id_of meetingId)
              (rooms (manager
                 (removeParticipant_resume
                    (mkWorld
                       (mkManager
                          (JsMap.delete (room_id_of meetingId)
                                        (rooms (manager w1))) ps) i)
                    k updated).1)) = None).
  { intros k updated ps i. destruct updated; simpl;
      rewrite get_delete; by destruct (decide _). }
  destruct saved as [[]|e]; cbv zeta;
    (split; [exact Hall|]; split; [exact Hgone|];
     split; [intros now rs Hrs; exact (Hstats now rs (participants (manager w1)) Hrs)|];
     split; [intros k updated; apply Hresume|];
     split; [intros l i outcome now;
             by apply settles_keeps_room_gone|];
     split; [apply elem_of_app; right; left|]); [done|by intros ?].
Qed.

(** ** The life of a room *)

Lemma one_room_constructor (rid : RoomId) : one_room rid constructor.
Proof.
  split; [done|]. split; [done|]. by intros s (room & Hr & _).
Qed.

Lemma handleJoinRoom_one_room (w : World) (socket : SocketId)
    (meetingId : MeetingId) (userId : UserId) (userName : string)
    (env : JoinEnv.t) :
  JoinEnv.updated env = Resolved () →
  one_room (room_id_of meetingId) (manager w) →
  one_room (room_id_of meetingId)
    (manager (handleJoinRoom w socket meetingId userId userName env).1.1).
Proof.
  intros Hupd Hone. pose proof Hone as (Ha & Hb & Hc).
  destruct (handleJoinRoom w socket meetingId userId userName env)
    as [[w' effs] [e|]] eqn:E.
  - (* a throw: before anything is written *)
    revert E. unfold handleJoinRoom.
    destruct (JoinEnv.found env) as [[meeting|]|e0];
      try (intros [= <- _ _]; exact Hone).
    destruct (negb _ && negb _); [intros [= <- _ _]; exact Hone|].
    rewrite Hupd.
    by destruct (JsMap.get (room_id_of meetingId) (rooms (manager w))).
  - apply handleJoinRoom_success in E.
    destruct E as (meeting & room & created & _ & Hroom & Hrooms & Hidx & _).
    cbv zeta in *. simpl.
    assert (Hget : ∀ k, JsMap.get k (rooms (manager w'))
              = if decide (room_id_of meetingId = k)
                then Some (Room.with_participants
                             (JsMap.set socket
                                (Participant.mk socket userId userName
                                   (bool_decide
                                      (Meeting.organizer meeting = userId))
                                   (JoinEnv.joinedAt env) true true false)
                                (Room.participants room)) room)
                else JsMap.get k (rooms (manager w))).
    { intros k. rewrite Hrooms, get_set.
      destruct (decide _); [done|].
      destruct (JsMap.get (room_id_of meetingId) (rooms (manager w)));
        [done|]. by rewrite get_set_ne. }
    assert (Hold : ∀ s, seated (manager w) (room_id_of meetingId) s →
              is_Some (JsMap.get s (Room.participants room))).
    { intros s (r & Hr & Hs). rewrite Hr in Hroom. by destruct Hroom as [-> _]. }
    assert (Hnew : ∀ s, seated (manager w') (room_id_of meetingId) s →
              s = socket ∨ seated (manager w) (room_id_of meetingId) s).
    { intros s (r & Hr & Hs). rewrite Hget, decide_True in Hr by done.
      injection Hr as <-. simpl in Hs. rewrite get_set in Hs.
      destruct (decide (socket = s)) as [<-|]; [by left|]. right.
      destruct (JsMap.get (room_id_of meetingId) (rooms (manager w)))
        as [r|] eqn:Hr.
      - destruct Hroom as [-> _]. by exists r.
      - destruct Hroom as [-> _]. by destruct Hs. }
    assert (Hseat : ∀ s, s = socket
                         ∨ seated (manager w) (room_id_of meetingId) s →
              seated (manager w') (room_id_of meetingId) s).
    { intros s Hs. eexists. rewrite Hget, decide_True by done.
      split; [done|]. simpl. rewrite get_set.
      destruct (decide (socket = s)); [done|].
      destruct Hs as [->|Hs]; [done|by apply Hold]. }
    split; [|split].
    + intros rid' r. rewrite Hget.
      destruct (decide _) as [<-|]; [|apply Ha].
      intros [= <-]. split; [done|]. exists socket. simpl.
      by rewrite get_set_eq.
    + intros s e. rewrite Hidx, get_set.
      destruct (decide (socket = s)) as [<-|].
      * intros [= <-]. split; [done|]. apply Hseat. by left.
      * intros He. destruct (Hb _ _ He). split; [done|]. apply Hseat. auto.
    + intros s [->|Hs]%Hnew; rewrite Hidx, get_set.
      * by rewrite decide_True.
      * destruct (decide _); [done|]. by apply Hc.
Qed.

Lemma removeParticipant_one_room (rid : RoomId) (w : World)
    (socket : SocketId) (updated : Settled unit) :
  one_room rid (manager w) →
  one_room rid (manager (removeParticipant w socket updated).1.1).
Proof.
  intros (Ha & Hb & Hc).
  rewrite (removeParticipant_settled w socket updated (Resolved ())).
  unfold removeParticipant, removeParticipant_begin.
  destruct (JsMap.get socket _) as [entry|] eqn:He; [|done].
  destruct (Hb _ _ He) as [Hrid (room & Hr & Hs)]. rewrite Hrid, Hr.
  destruct (decide _) as [Hempty|Hrest]; simpl in *.
  - (* the last one leaves: nobody else was seated or registered *)
    assert (Halone : ∀ s, seated (manager w) rid s → s = socket).
    { intros s (r & Hr' & Hs'). rewrite Hr in Hr'. injection Hr' as <-.
      destruct (decide (s = socket)) as [|Hne]; [done|].
      pose proof (proj1 (size_0_get _) Hempty s) as Hnone.
      rewrite get_delete_ne in Hnone by done. rewrite Hnone in Hs'.
      by destruct Hs'. }
    split; [|split]; simpl.
    + intros rid' r. rewrite get_delete, get_set.
      destruct (decide (rid = rid')); [done|]. apply Ha.
    + intros s e. rewrite get_delete.
      destruct (decide (socket = s)); [done|]. intros He'.
      destruct (Hb _ _ He') as [_ Hseat]. by apply Halone in Hseat.
    + intros s (r & Hr' & _). simpl in Hr'. by rewrite get_delete_eq in Hr'.
  - assert (Hstay : ∀ s, s ≠ socket → seated (manager w) rid s →
              seated
                (mkManager
                   (JsMap.set rid
                      (Room.with_participants
                         (JsMap.delete socket (Room.participants room)) room)
                      (rooms (manager w)))
                   (JsMap.delete socket (participants (manager w)))) rid s).
    { intros s Hne (r & Hr' & Hs'). rewrite Hr in Hr'. injection Hr' as <-.
      eexists. simpl. rewrite get_set_eq. split; [done|]. simpl.
      by rewrite get_delete_ne. }
    split; [|split]; simpl.
    + intros rid' r. rewrite get_set.
      destruct (decide (rid = rid')) as [<-|]; [|apply Ha].
      intros [= <-]. split; [done|]. simpl.
      destruct (JsMap.delete socket (Room.participants room))
        as [|[k v] rest] eqn:Hd; [done|].
      exists k. simpl. by rewrite decide_True.
    + intros s e. rewrite get_delete.
      destruct (decide (socket = s)); [done|]. intros He'.
      destruct (Hb _ _ He') as [? Hseat]. split; [done|]. by apply Hstay.
    + intros s (r & Hr' & Hs'). simpl in Hr'. rewrite get_set_eq in Hr'.
      injection Hr' as <-. simpl in Hs'. rewrite get_delete in Hs'.
      rewrite get_delete. destruct (decide (socket = s)); [by destruct Hs'|].
      apply Hc. by exists room.
Qed.

Lemma run_one_room (trim : string → string) (meetingId : MeetingId)
    (evs : list ClientEvent) (w : World) :
  Forall (λ ev, on_meeting meetingId ev ∧ creation_write_resolves ev) evs →
  one_room (room_id_of meetingId) (manager w) →
  one_room (room_id_of meetingId) (manager (run trim w evs).1).
Proof.
  revert w. induction evs as [|ev evs IH]; intros w Hall Hone; [done|].
  apply Forall_cons in Hall as [[Hon Hres] Hall]. simpl.
  assert (H1 : one_room (room_id_of meetingId)
                 (manager (handle trim w ev).1)).
  { destruct ev; simpl in *; try done.
    - subst meetingId0. unfold join_room_listener.
      pose proof (handleJoinRoom_one_room w socket meetingId userId userName
                    env Hres Hone) as H.
      by destruct (handleJoinRoom _ _ _ _ _ _) as [[w' effs] [e|]].
    - by apply removeParticipant_one_room.
    - by apply (removeParticipant_one_room _ (mkWorld _ _)). }
  destruct (handle trim w ev) as [w1 effs1]. specialize (IH w1 Hall H1).
  by destruct (run trim w1 evs).
Qed.

(** The life of a room in the runs in which no status write of a room
    creation is rejected: the room of the meeting
    is in the registry exactly when some socket is registered, no other
    room is, and the room seats at least one socket. *)
Lemma room_exists_iff_occupied (trim : string → string)
    (meetingId : MeetingId) (evs : list ClientEvent) :
  Forall (λ ev, on_meeting meetingId ev ∧ creation_write_resolves ev) evs →
  let m := manager (run trim initial evs).1 in
  (JsMap.has (room_id_of meetingId) (rooms m) = true
   ↔ 0 < JsMap.size (participants m))
  ∧ ∀ rid room, JsMap.get rid (rooms m) = Some room →
      rid = room_id_of meetingId ∧ 0 < JsMap.size (Room.participants room).
Proof.
  intros Hall m.
  destruct (run_one_room trim meetingId evs initial Hall
              (one_room_constructor _)) as (Ha & Hb & Hc).
  fold m in Ha, Hb, Hc.
  assert (Hpos : ∀ V (l : JsMap.t V) k, is_Some (JsMap.get k l) →
                   0 < JsMap.size l).
  { intros V [|x l] k [v Hv]; [done|]. simpl. lia. }
  split.
  - rewrite has_get. split.
    + intros [room Hr]. destruct (Ha _ _ Hr) as [_ [s Hs]].
      apply (Hpos _ _ s), Hc. by exists room.
    + intros Hsize. destruct (participants m) as [|[s e] rest] eqn:Hp;
        [simpl in Hsize; lia|].
      destruct (Hb s e) as [_ (room & Hr & _)].
      { simpl. by rewrite decide_True. }
      by exists room.
  - intros rid room Hr. destruct (Ha _ _ Hr) as [-> [s Hs]].
    split; [done|]. by apply (Hpos _ _ s).
Qed.

Lemma meeting_writes_app (l1 l2 : list Effect) :
  meeting_writes (l1 ++ l2) = meeting_writes l1 ++ meeting_writes l2.
Proof. apply List.filter_app. Qed.

Lemma meeting_writes_deliver (l : list SocketId) (ev : ServerEvent) :
  meeting_writes (map (λ s, Deliver s ev) l) = [].
Proof. by induction l. Qed.

Lemma meeting_writes_socket_to_emit (i : Io) (socket : SocketId)
    (group : string) (ev : ServerEvent) :
  meeting_writes (socket_to_emit i socket group ev) = [].
Proof. apply meeting_writes_deliver. Qed.

(** A successful join writes the meeting once, as ongoing, when it creates
    the room, and does not write it when the room is there. *)
Lemma join_marks_ongoing_once (w w' : World) (socket : SocketId)
    (meetingId : MeetingId) (userId : UserId) (userName : string)
    (env : JoinEnv.t) (effs : list Effect) :
  handleJoinRoom w socket meetingId userId userName env = (w', effs, None) →
  is_Some (JsMap.get (room_id_of meetingId) (rooms (manager w')))
  ∧ meeting_writes effs
    = if JsMap.has (room_id_of meetingId) (rooms (manager w))
      then []
      else [FindByIdAndUpdate meetingId ongoing None].
Proof.
  intros H. apply handleJoinRoom_success in H.
  destruct H as (meeting & room & created & _ & Hroom & Hrooms & _ & _ & ->).
  cbv zeta in *. split; [rewrite Hrooms, get_set_eq; eauto|].
  rewrite !meeting_writes_app, meeting_writes_socket_to_emit.
  unfold JsMap.has.
  destruct (JsMap.get (room_id_of meetingId) (rooms (manager w)));
    by destruct Hroom as [_ ->].
Qed.

(** The leave that empties the room deletes it and writes the meeting
    once, as completed with the note; any other leave of a seated socket
    keeps the room and writes nothing. *)
Lemma leave_tears_down_once (w : World) (socket : SocketId)
    (updated : Settled unit) (entry : Entry.t) (room : Room.t) :
  JsMap.get socket (participants (manager w)) = Some entry →
  JsMap.get (Entry.roomId entry) (rooms (manager w)) = Some room →
  let '(w', effs, _) := removeParticipant w socket updated in
  if decide (JsMap.size (JsMap.delete socket (Room.participants room)) = 0)
  then JsMap.get (Entry.roomId entry) (rooms (manager w')) = None
       ∧ meeting_writes effs
         = [FindByIdAndUpdate (Room.meetingId room) completed
              (Some (completion_note (length (Room.chatMessages room))))]
  else is_Some (JsMap.get (Entry.roomId entry) (rooms (manager w')))
       ∧ meeting_writes effs = [].
Proof.
  intros He Hr.
  rewrite (removeParticipant_settled w socket updated (Resolved ())).
  unfold removeParticipant, removeParticipant_begin. rewrite He, Hr.
  cbn [Room.participants Room.with_participants].
  destruct (decide _); simpl.
  - split; [apply get_delete_eq|].
    by rewrite meeting_writes_app, meeting_writes_socket_to_emit.
  - split; [rewrite get_set_eq; eauto|].
    apply meeting_writes_socket_to_emit.
Qed.

(** C1, where the code departs from it: the first join of a meeting whose
    status write is rejected throws after it has put the room in the
    registry.  The room then exists without a participant, nobody is
    registered, the joining socket is told of the error; and the join that
    succeeds next finds the room and does not mark the meeting ongoing. *)
Theorem rejected_creation_write_leaves_empty_room :
  let '(w, effs) := handle ascii_trim lobby join_with_rejected_write in
  (∃ room, JsMap.get (room_id_of "M") (rooms (manager w)) = Some room
           ∧ JsMap.size (Room.participants room) = 0)
  ∧ JsMap.size (participants (manager w)) = 0
  ∧ effs = [FindByIdAndUpdate "M" ongoing None;
            Deliver "sA" (error_ "connection lost")]
  ∧ let '(w', effs') :=
      handle ascii_trim w (ev_join_room "sA" "M" "uA" "Ann" (envOk 20)) in
    JsMap.size (participants (manager w')) = 1
    ∧ meeting_writes effs' = [].
Proof.
  vm_compute. split; [|done]. eexists. split; reflexivity.
Qed.

(** The scenario of the spec, run: the meeting is written twice, as
    ongoing and as completed with the note on one chat message; both A and
    B get the chat message; B's leave is told to A; at the end the
    coordinator is as new. *)
Example spec_scenario :
  let '(w, effs) := run ascii_trim initial scenario in
  let hello := ChatMessage.mk "id1" "uB" "Bob" "hello" 30 false in
  manager w = constructor
  ∧ meeting_writes effs
    = [FindByIdAndUpdate "M" ongoing None;
       FindByIdAndUpdate "M" completed
         (Some "Meeting completed with 1 chat messages")]
  ∧ Deliver "sA" (chat_message hello) ∈ effs
  ∧ Deliver "sB" (chat_message hello) ∈ effs
  ∧ Deliver "sA" (user_joined "sB" "uB" "Bob" false) ∈ effs
  ∧ Deliver "sA" (user_left "sB" "Bob") ∈ effs.
Proof.
  vm_compute. split; [done|]. split; [done|].
  repeat split;
    repeat first [apply list_elem_of_here | apply list_elem_of_further].
Qed.

(** Not a sequence of events handled one after the other, but what the
    [await] in [removeParticipant] allows: B's join is handled while the
    teardown started by A's leave waits for its write.  The join finds the
    emptied room and seats B in it; the teardown then deletes the room.  B
    stays registered for a room that is gone. *)
Example join_while_teardown_awaits :
  let alone := (run ascii_trim lobby (take 1 join_three)).1 in
  let '(w1, _, k) := removeParticipant_begin alone "sA" in
  let w2 :=
    (handle ascii_trim w1 (ev_join_room "sB" "M" "uB" "Bob" (envOk 20))).1 in
  match k with
  | Some k =>
      let w3 := (removeParticipant_resume w2 k (Resolved ())).1 in
      JsMap.get "meeting_M" (rooms (manager w3)) = None
      ∧ is_Some (JsMap.get "sB" (participants (manager w3)))
  | None => False
  end.
Proof. vm_compute. split; eauto. Qed.

(** [removeParticipant] does not take the socket out of the room's
    broadcast group, only a disconnect does: after its leave, [sB] is
    still sent what is broadcast in the room. *)
Example left_socket_still_in_group :
  let w := (handle ascii_trim call_of_two
              (ev_leave_room "sB" (Resolved ()))).1 in
  JsMap.get "sB" (participants (manager w)) = None
  ∧ (handle ascii_trim w (ev_chat_message "sA" "still here?" "id2" 50)).2
    = [Deliver "sA" (chat_message
                       (ChatMessage.mk "id2" "uA" "Ann" "still here?" 50 true));
       Deliver "sB" (chat_message
                       (ChatMessage.mk "id2" "uA" "Ann" "still here?" 50 true))].
Proof. by vm_compute. Qed.

(** Why joins are taken from unregistered sockets in [fresh_join]: a
    socket that joins a second meeting without leaving the first stays
    seated in the first room, and the index is no longer [index_ok]. *)
Example second_join_leaves_a_ghost :
  let w := (handle ascii_trim call_of_two
              (ev_join_room "sB" "N" "uB" "Bob" (envOk 40))).1 in
  seated (manager w) "meeting_M" "sB"
  ∧ seated (manager w) "meeting_N" "sB"
  ∧ ¬ index_ok (manager w).
Proof.
  intros w.
  assert (HM : seated (manager w) "meeting_M" "sB").
  { eexists. split; [vm_compute; reflexivity|]. vm_compute. eauto. }
  assert (HN : seated (manager w) "meeting_N" "sB").
  { eexists. split; [vm_compute; reflexivity|]. vm_compute. eauto. }
  split; [exact HM|]. split; [exact HN|].
  intros Hok. destruct (Hok "sB") as (_ & Huniq & _).
  by specialize (Huniq _ _ HM HN).
Qed.

(** ** The theorems at concrete inputs *)

(** [¬ is_room_name s] for a literal [s] that does not start with
    [meeting_]. *)
Ltac not_a_room_name :=
  let H := fresh in intros [? H]; cbv in H; discriminate H.

(** The events that lead to the call of three are deliverable, and no
    socket joins twice. *)
Lemma call_of_three_admissible :
  admissible_run ascii_trim initial (connect_three ++ join_three).
Proof.
  simpl. repeat split; try compute_done; not_a_room_name.
Qed.

(** The call of three is a well-formed world. *)
Lemma call_of_three_ok : world_ok call_of_three.
Proof.
  pose proof (run_world_ok ascii_trim (connect_three ++ join_three) initial
                call_of_three_admissible world_ok_initial) as H.
  exact H.
Qed.

(** C2 at a concrete input: Eve, who is not invited, tries to join the
    call of two. *)
Lemma join_failure_reported_to_caller_witness :
  Meeting.organizer org ≠ "uX"
  ∧ ("uX" ∉ Meeting.attendees org)
  ∧ join_room_listener call_of_two "sC" "M" "uX" "Eve"
      (JoinEnv.mk (Resolved (Some org)) (Resolved ()) 5 5)
    = (call_of_two, [Deliver "sC" (error_ msg_not_authorized)]).
Proof.
  assert (H1 : Meeting.organizer org ≠ "uX") by compute_done.
  assert (H2 : "uX" ∉ Meeting.attendees org) by compute_done.
  split; [exact H1|]. split; [exact H2|].
  exact (proj1 (proj2 (join_failure_reported_to_caller call_of_two "sC" "M"
                         "uX" "Eve" (Resolved ()) 5 5)) org H1 H2).
Defined.

(** C9 at a concrete input: Bob's second device joins the call of two;
    and Ann's join, which has created the room, resumes after Bob has
    joined. *)
Lemma join_registers_and_replies_witness :
  let r := handleJoinRoom call_of_two "sC" "M" "uB" "Bob" (envOk 30) in
  let waiting :=
    (exec ascii_trim (mkSys lobby [])
       [ arrives (ev_join_room "sA" "M" "uA" "Ann" (envOk 10));
         arrives (ev_join_room "sB" "M" "uB" "Bob" (envOk 20)) ]).1 in
  let r' :=
    handleJoinRoom_resume (world waiting)
      (JoinPending.mk "sA" "M" "uA" "Ann" true) (Resolved ()) 30 in
  r.2 = None
  ∧ JsMap.get "sC" (Room.participants (room_M r.1.1))
    = Some (Participant.mk "sC" "uB" "Bob" false 30 true true false)
  ∧ last r.1.2
    = Some (Deliver "sC"
              (room_joined "meeting_M" "Pitch"
                 [ ParticipantView.mk "sA" "uA" "Ann" true true true false;
                   ParticipantView.mk "sB" "uB" "Bob" false true true false;
                   ParticipantView.mk "sC" "uB" "Bob" false true true false ]
                 []))
  ∧ awaiting waiting
    = [join_awaits (JoinPending.mk "sA" "M" "uA" "Ann" true)]
  ∧ r'.2 = None
  ∧ r'.1.2
    = [ Deliver "sB" (user_joined "sA" "uA" "Ann" true);
        Deliver "sA"
          (room_joined "meeting_M" "Pitch"
             [ ParticipantView.mk "sB" "uB" "Bob" false true true false;
               ParticipantView.mk "sA" "uA" "Ann" true true true false ]
             []) ].
Proof.
  intros r waiting r'. split; [reflexivity|].
  destruct (proj1 join_registers_and_replies call_of_two r.1.1 "sC" "M" "uB"
              "Bob" (envOk 30) r.1.2 eq_refl)
    as (meeting & room' & p & Hfound & Hroom & Hseat & _ & Hp & _ & _ & _ & _
        & _ & _ & _ & _ & participantList & chatMessages & Hlast & Hlist
        & _ & _ & _ & Hchat & _).
  destruct (proj2 join_registers_and_replies (world waiting) r'.1.1
              (JoinPending.mk "sA" "M" "uA" "Ann" true) (Resolved ()) 30%Z
              r'.1.2 eq_refl)
    as (room0 & room0' & p0 & Hroom0 & Hroom0' & _ & _ & _ & _ & _ & _
        & participantList0 & chatMessages0 & Heffs0 & Hlist0 & _ & _ & _
        & Hchat0 & _).
  cbv zeta in *.
  assert (Hm : meeting = org) by (by injection Hfound).
  assert (Hr : room' = room_M r.1.1).
  { unfold room_M. change (room_id_of "M") with ("meeting_" +:+ "M").
    by rewrite Hroom. }
  assert (Hr0 : room0' = room_M r'.1.1).
  { unfold room_M. change (room_id_of "M") with ("meeting_" +:+ "M").
    cbn [JoinPending.meetingId] in Hroom0'. by rewrite Hroom0'. }
  subst meeting room' room0'.
  split; [rewrite Hseat, Hp; reflexivity|].
  split; [rewrite Hlast, Hlist, Hchat; reflexivity|].
  split; [reflexivity|]. split; [reflexivity|].
  rewrite Heffs0, Hlist0, Hchat0. reflexivity.
Defined.


(** At a concrete input: the join that turns the call of two into the
    call of three, its write settled at once. *)
Lemma reverse_index_consistent_witness :
  fresh_join call_of_two (ev_join_room "sC" "M" "uB" "Bob" (envOk 30))
  ∧ index_ok (manager call_of_two)
  ∧ index_ok (manager call_of_three).
Proof.
  assert (Hfresh : fresh_join call_of_two
                     (ev_join_room "sC" "M" "uB" "Bob" (envOk 30)))
    by reflexivity.
  assert (Hok : index_ok (manager call_of_two)).
  { apply index_ok_halves.
    assert (Hadm : admissible_run ascii_trim initial
                     (connect_three ++ take 2 join_three)).
    { simpl. repeat split; try compute_done; not_a_room_name. }
    apply (run_world_ok ascii_trim (connect_three ++ take 2 join_three)
             initial Hadm world_ok_initial). }
  split; [exact Hfresh|]. split; [exact Hok|].
  exact (proj1 (proj2 (reverse_index_consistent ascii_trim)) call_of_two
           (ev_join_room "sC" "M" "uB" "Bob" (envOk 30)) Hfresh Hok).
Defined.

(** C3, as amended, at concrete inputs: an answer for [sB], and one for a
    socket that is gone. *)
Lemma relay_reaches_group_of_target_witness :
  io_ok (io call_of_three)
  ∧ "sB" ∈ sockets (io call_of_three)
  ∧ "sB" ≠ "sA"
  ∧ (relaySignal sig_answer call_of_three "sA" "sB" "sdp").2
    = [Deliver "sB" (answer_ "sA" "sdp")]
  ∧ ("gone" ∉ sockets (io call_of_three))
  ∧ ¬ is_room_name "gone"
  ∧ (relaySignal sig_answer call_of_three "sA" "gone" "sdp").2 = [].
Proof.
  assert (Hok : io_ok (io call_of_three)) by apply call_of_three_ok.
  assert (HB : "sB" ∈ sockets (io call_of_three)) by compute_done.
  assert (Hne : "sB" ≠ "sA") by compute_done.
  assert (Hgone : "gone" ∉ sockets (io call_of_three)) by compute_done.
  assert (Hname : ¬ is_room_name "gone") by not_a_room_name.
  pose proof (relay_reaches_group_of_target sig_answer call_of_three "sA"
                "sB" "sdp") as H1.
  pose proof (relay_reaches_group_of_target sig_answer call_of_three "sA"
                "gone" "sdp") as H2.
  destruct (relaySignal sig_answer call_of_three "sA" "sB" "sdp")
    as [w1 effs1].
  destruct (relaySignal sig_answer call_of_three "sA" "gone" "sdp")
    as [w2 effs2].
  destruct H1 as (_ & _ & _ & H1 & _). destruct H2 as (_ & _ & H2 & _).
  split; [exact Hok|]. split; [exact HB|]. split; [exact Hne|].
  split; [exact (H1 Hok HB Hne)|]. split; [exact Hgone|].
  split; [exact Hname|]. exact (H2 Hok Hgone Hname).
Defined.

(** C4 at a concrete input: message 101 in a room whose log is full. *)
Lemma chat_log_capped_fifo_witness :
  let w := (run ascii_trim initial busy_call_events).1 in
  ascii_trim " one more " ≠ ""
  ∧ length (Room.chatMessages (room_M w)) = chat_retention
  ∧ ∃ room',
      JsMap.get (room_id_of "M")
        (rooms (manager
                  (handleChatMessage ascii_trim w "sB" " one more " "id101"
                                     50).1)) = Some room'
      ∧ length (Room.chatMessages room') ≤ chat_retention
      ∧ Room.chatMessages room'
        = drop 1 (Room.chatMessages (room_M w))
          ++ [ChatMessage.mk "id101" "uB" "Bob" "one more" 50 false].
Proof.
  intros w.
  assert (Htrim : ascii_trim " one more " ≠ "") by compute_done.
  assert (Hfull : length (Room.chatMessages (room_M w)) = chat_retention)
    by (vm_compute; reflexivity).
  split; [exact Htrim|]. split; [exact Hfull|].
  assert (He : JsMap.get "sB" (participants (manager w))
               = Some (Entry.mk (Participant.mk "sB" "uB" "Bob" false 20 true
                                                true false) "meeting_M"))
    by (vm_compute; reflexivity).
  assert (Hr : JsMap.get "meeting_M" (rooms (manager w)) = Some (room_M w))
    by (vm_compute; reflexivity).
  destruct (chat_log_capped_fifo ascii_trim busy_call_events) as [_ Hstep].
  destruct (Hstep "sB" " one more " "id101" 50%Z _ (room_M w) He Htrim Hr)
    as (room' & H1 & H2 & _ & _ & H3).
  exists room'. split; [exact H1|]. split; [exact H2|]. exact (H3 Hfull).
Defined.


(** C8 at a concrete input: Ann, alone in the call, leaves, and the update
    of the meeting is rejected. *)
Lemma teardown_survives_rejected_update_witness :
  let w := (run ascii_trim lobby (take 1 join_three)).1 in
  let r := removeParticipant w "sA" (Rejected "connection lost") in
  JsMap.size (JsMap.delete "sA" (Room.participants (room_M w))) = 0
  ∧ r.2 = None
  ∧ JsMap.get "meeting_M" (rooms (manager r.1.1)) = None
  ∧ JsMap.get "sA" (participants (manager r.1.1)) = None
  ∧ removeParticipant w "sA" (Resolved ()) = r.
Proof.
  intros w r.
  assert (H3 : JsMap.size (JsMap.delete "sA" (Room.participants (room_M w)))
               = 0) by reflexivity.
  pose proof (teardown_survives_rejected_update w "sA" "connection lost"
                (Entry.mk (Participant.mk "sA" "uA" "Ann" true 10 true true
                                          false) "meeting_M")
                (room_M w) eq_refl eq_refl H3) as H.
  fold r in H. destruct r as [[w' effs] thrown].
  destruct H as (Ha & Hb & Hc & _ & Hd). by repeat split.
Defined.

(** C5 at a concrete input: Ann ends the call of three.  The meeting had
    no notes, so the notes saved are the end-of-call line alone. *)
Lemma endVideoCall_ends_call_witness :
  let r := endVideoCall ascii_trim call_of_three "M" "uA" "Ann"
             (Resolved (Some org)) "2026-01-01T10:00:00.000Z" (Resolved ()) in
  Meeting.organizer org = "uA"
  ∧ JsMap.keys (Room.participants (room_M call_of_three)) = ["sA"; "sB"; "sC"]
  ∧ (∀ s, s ∈ ["sA"; "sB"; "sC"] →
       Deliver s (call_ended "The call has been ended by the organizer" "Ann")
         ∈ r.1.1.2
       ∧ Disconnected s ∈ r.1.1.2
       ∧ s ∉ sockets (io r.1.1.1))
  ∧ JsMap.get (room_id_of "M") (rooms (manager r.1.1.1)) = None
  ∧ MeetingSave "M" completed
      "Call ended by organizer at 2026-01-01T10:00:00.000Z" ∈ r.1.1.2
  ∧ r.1.2
    = Response.mk 200 "Video call ended successfully"
        (Some (Meeting.mk "Pitch" "uA" ["uB"] completed
                 (Some "Call ended by organizer at 2026-01-01T10:00:00.000Z"))).
Proof.
  intros r.
  assert (Horg : Meeting.organizer org = "uA") by reflexivity.
  assert (Hkeys : JsMap.keys (Room.participants (room_M call_of_three))
                  = ["sA"; "sB"; "sC"]) by reflexivity.
  assert (Hin : ∀ s, s ∈ JsMap.keys (Room.participants (room_M call_of_three))
            → s ∈ sockets (io call_of_three)
              ∧ s ∈ members (io call_of_three) (room_id_of "M")).
  { intros s Hs. apply call_of_three_ok. exists (room_M call_of_three).
    split; [reflexivity|]. by apply key_get. }
  pose proof (endVideoCall_ends_call ascii_trim call_of_three "M" "uA" "Ann"
                org "2026-01-01T10:00:00.000Z" (Resolved ())
                (room_M call_of_three) Horg eq_refl Hin) as H.
  fold r in H. destruct r as [[[w' effs] response] pending].
  destruct H as (Ha & Hb & _ & _ & _ & Hc & Hd).
  split; [exact Horg|]. split; [exact Hkeys|].
  split; [intros s Hs; apply Ha; by rewrite Hkeys|].
  split; [exact Hb|]. split; [exact Hc|]. exact (Hd eq_refl).
Defined.

(** * Properties of the further parts *)

Section jsmap_more.
Context {V : Type}.
Implicit Types (m : JsMap.t V) (k : string) (v : V).

Lemma set_set k v v' m :
  JsMap.set k v' (JsMap.set k v m) = JsMap.set k v' m.
Proof.
  induction m as [|[k0 v0] m IH]; simpl.
  - by rewrite decide_True.
  - destruct (decide (k = k0)) as [->|Hne]; simpl.
    + by rewrite decide_True.
    + rewrite decide_False by done. by rewrite IH.
Qed.

Lemma set_same k v m : JsMap.get k m = Some v → JsMap.set k v m = m.
Proof.
  induction m as [|[k0 v0] m IH]; simpl; [done|].
  destruct (decide (k = k0)) as [->|Hne].
  - by intros [= ->].
  - intros H. by rewrite IH.
Qed.

Lemma delete_absent k m : JsMap.get k m = None → JsMap.delete k m = m.
Proof.
  induction m as [|[k0 v0] m IH]; simpl; [done|].
  destruct (decide (k = k0)) as [->|Hne]; [done|].
  intros H. by rewrite IH.
Qed.

Lemma delete_set_absent k v m :
  JsMap.get k m = None → JsMap.delete k (JsMap.set k v m) = m.
Proof.
  induction m as [|[k0 v0] m IH]; simpl.
  - by rewrite decide_True.
  - destruct (decide (k = k0)) as [->|Hne]; [done|].
    intros H. simpl. rewrite decide_False by done. by rewrite IH.
Qed.

Lemma delete_set k v m :
  JsMap.delete k (JsMap.set k v m) = JsMap.delete k m.
Proof.
  induction m as [|[k0 v0] m IH]; simpl.
  - by rewrite decide_True.
  - destruct (decide (k = k0)) as [->|Hne]; simpl.
    + by rewrite decide_True.
    + rewrite decide_False by done. by rewrite IH.
Qed.

Lemma delete_delete k m :
  JsMap.delete k (JsMap.delete k m) = JsMap.delete k m.
Proof. apply delete_absent, get_delete_eq. Qed.

Lemma keys_set_absent k v m :
  JsMap.get k m = None → JsMap.keys (JsMap.set k v m) = JsMap.keys m ++ [k].
Proof.
  induction m as [|[k0 v0] m IH]; simpl; [done|].
  destruct (decide (k = k0)) as [->|Hne]; [done|].
  intros H. simpl. f_equal. by apply IH.
Qed.

Lemma keys_delete k m :
  JsMap.keys (JsMap.delete k m) = filter (λ x, x ≠ k) (JsMap.keys m).
Proof.
  induction m as [|[k0 v0] m IH]; simpl; [done|].
  destruct (decide (k = k0)) as [->|Hne].
  - rewrite filter_cons_False by (by intros ?). done.
  - rewrite filter_cons_True by (by intros ->). simpl. by rewrite IH.
Qed.

Lemma size_set_present k v v' m :
  JsMap.get k m = Some v' → JsMap.size (JsMap.set k v m) = JsMap.size m.
Proof.
  intros H. unfold JsMap.size.
  rewrite <- (length_map fst (JsMap.set k v m)), <- (length_map fst m).
  change (length (JsMap.keys (JsMap.set k v m)) = length (JsMap.keys m)).
  by erewrite keys_set_present.
Qed.

Lemma size_set_absent k v m :
  JsMap.get k m = None → JsMap.size (JsMap.set k v m) = S (JsMap.size m).
Proof.
  intros H. unfold JsMap.size.
  rewrite <- (length_map fst (JsMap.set k v m)), <- (length_map fst m).
  change (length (JsMap.keys (JsMap.set k v m)) = S (length (JsMap.keys m))).
  rewrite keys_set_absent by done. rewrite length_app. simpl. lia.
Qed.

End jsmap_more.

(** ** Media flags: screen sharing, and assignments in sequence *)

(** X1: a socket that is registered and seated starts or stops its screen
    share: the flag is set on the caller's own participant, in the room
    and in the index, and nothing else changes (the other participants,
    who may be sharing themselves, the chat log, the other rooms, the other
    index entries); 'screen-share-started', with the caller's name as
    registered, or 'screen-share-stopped' goes to every other member of
    the room's group.  The participant the room then holds for the caller
    is the old one with [isScreenSharing] true after a start and false
    after a stop, and the next [getRoomStats] shows that value.  For a
    socket that no room seats both handlers change and send nothing. *)
Theorem screen_share_sets_own_flag_only (w : World) (socket : SocketId) :
  (∀ (entry : Entry.t) (room : Room.t) (p : Participant.t),
     JsMap.get socket (participants (manager w)) = Some entry →
     JsMap.get (Entry.roomId entry) (rooms (manager w)) = Some room →
     JsMap.get socket (Room.participants room) = Some p →
     let shared (b : bool) :=
       Participant.mk (Participant.socketId p) (Participant.userId p)
         (Participant.userName p) (Participant.isOrganizer p)
         (Participant.joinedAt p) (Participant.audio p) (Participant.video p)
         b in
     own_flag_set w socket entry room p (Participant.with_isScreenSharing true)
       (screen_share_started socket
          (Participant.userName (Entry.participant entry)))
       (handleStartScreenShare w socket)
     ∧ seat_of (manager (handleStartScreenShare w socket).1)
               (Entry.roomId entry) socket = Some (shared true)
     ∧ ParticipantStats.isScreenSharing
         (ParticipantStats.of_participant
            (Participant.with_isScreenSharing true p)) = true
     ∧ own_flag_set w socket entry room p
         (Participant.with_isScreenSharing false)
         (screen_share_stopped socket)
         (handleStopScreenShare w socket)
     ∧ seat_of (manager (handleStopScreenShare w socket).1)
               (Entry.roomId entry) socket = Some (shared false)
     ∧ ParticipantStats.isScreenSharing
         (ParticipantStats.of_participant
            (Participant.with_isScreenSharing false p)) = false
     ∧ (∀ b, Entry.participant
               (Entry.update (Participant.with_isScreenSharing b) entry)
             = Participant.mk
                 (Participant.socketId (Entry.participant entry))
                 (Participant.userId (Entry.participant entry))
                 (Participant.userName (Entry.participant entry))
                 (Participant.isOrganizer (Entry.participant entry))
                 (Participant.joinedAt (Entry.participant entry))
                 (Participant.audio (Entry.participant entry))
                 (Participant.video (Entry.participant entry)) b))
  ∧ ((∀ rid, ¬ seated (manager w) rid socket) →
     handleStartScreenShare w socket = (w, [])
     ∧ handleStopScreenShare w socket = (w, [])).
Proof.
  split.
  - intros entry room p He Hr Hp shared.
    assert (Hstart :
      own_flag_set w socket entry room p
        (Participant.with_isScreenSharing true)
        (screen_share_started socket
           (Participant.userName (Entry.participant entry)))
        (handleStartScreenShare w socket)).
    { rewrite handleStartScreenShare_shape.
      by apply (update_own_flag_seated w socket entry room p _
                  (λ e, screen_share_started socket
                          (Participant.userName (Entry.participant e)))). }
    assert (Hstop :
      own_flag_set w socket entry room p
        (Participant.with_isScreenSharing false)
        (screen_share_stopped socket)
        (handleStopScreenShare w socket)).
    { rewrite handleStopScreenShare_shape.
      by apply (update_own_flag_seated w socket entry room p _
                  (λ _, screen_share_stopped socket)). }
    split; [exact Hstart|]. split.
    { destruct (handleStartScreenShare w socket) as [w' effs].
      destruct Hstart as ((room' & Hr' & Hp' & _) & _).
      unfold seat_of. cbn [fst]. by rewrite Hr', Hp'. }
    split; [done|]. split; [exact Hstop|]. split.
    { destruct (handleStopScreenShare w socket) as [w' effs].
      destruct Hstop as ((room' & Hr' & Hp' & _) & _).
      unfold seat_of. cbn [fst]. by rewrite Hr', Hp'. }
    split; [done|]. by intros b.
  - intros Hno.
    rewrite handleStartScreenShare_shape, handleStopScreenShare_shape.
    split; by apply update_own_flag_unseated.
Qed.

(** Two assignments of the same socket in a row leave the state of the one
    composed assignment. *)
Lemma update_own_flag_twice (w : World) (socket : SocketId)
    (f g : Participant.t → Participant.t)
    (n1 n2 n3 : Entry.t → ServerEvent) :
  (update_own_flag (update_own_flag w socket f n1).1 socket g n2).1
  = (update_own_flag w socket (g ∘ f) n3).1.
Proof.
  unfold update_own_flag at 2 3.
  destruct (JsMap.get socket (participants (manager w))) as [entry|] eqn:He;
    [|cbn [fst]; unfold update_own_flag; by rewrite He].
  destruct (JsMap.get (Entry.roomId entry) (rooms (manager w)))
    as [room|] eqn:Hr;
    [|cbn [fst]; unfold update_own_flag; by rewrite He, Hr].
  destruct (JsMap.get socket (Room.participants room)) as [p|] eqn:Hp;
    [|cbn [fst]; unfold update_own_flag; by rewrite He, Hr, Hp].
  cbn [fst]. unfold update_own_flag. cbn [manager rooms participants io].
  rewrite !get_set_eq. cbn [Entry.roomId Entry.update].
  rewrite ?get_set_eq. unfold Room.with_participants at 1.
  cbn [Room.participants]. rewrite get_set_eq. cbn [fst]. rewrite !set_set.
  unfold Room.with_participants. cbn. by rewrite ?set_set.
Qed.

(** X2: of two assignments of the same flag by one socket in a row the
    last one wins: the state after toggling audio (or video) to [a] and
    then to [b] is the state after toggling to [b]; stopping a screen share
    after starting it leaves the state of a stop, and starting after
    stopping that of a start; and an audio toggle and a video toggle
    commute.  This holds in every state, the handlers being without effect
    for a socket that is not seated. *)
Theorem media_assignments_last_write_wins
    (w : World) (socket : SocketId) (a b : bool) :
  (handleToggleAudio (handleToggleAudio w socket a).1 socket b).1
  = (handleToggleAudio w socket b).1
  ∧ (handleToggleVideo (handleToggleVideo w socket a).1 socket b).1
    = (handleToggleVideo w socket b).1
  ∧ (handleStopScreenShare (handleStartScreenShare w socket).1 socket).1
    = (handleStopScreenShare w socket).1
  ∧ (handleStartScreenShare (handleStopScreenShare w socket).1 socket).1
    = (handleStartScreenShare w socket).1
  ∧ (handleToggleVideo (handleToggleAudio w socket a).1 socket b).1
    = (handleToggleAudio (handleToggleVideo w socket b).1 socket a).1.
Proof.
  rewrite !handleToggleAudio_shape, !handleToggleVideo_shape,
          !handleStartScreenShare_shape, !handleStopScreenShare_shape.
  split; [|split; [|split; [|split]]].
  - rewrite (update_own_flag_twice _ _ _ _ _ _
               (λ _, participant_audio_toggle socket b)).
    reflexivity.
  - rewrite (update_own_flag_twice _ _ _ _ _ _
               (λ _, participant_video_toggle socket b)).
    reflexivity.
  - rewrite (update_own_flag_twice _ _ _ _ _ _
               (λ _, screen_share_stopped socket)).
    reflexivity.
  - rewrite (update_own_flag_twice _ _ _ _ _ _
               (λ e, screen_share_started socket
                       (Participant.userName (Entry.participant e)))).
    reflexivity.
  - rewrite (update_own_flag_twice _ _ _ _ _ _
               (λ _, participant_video_toggle socket b)).
    rewrite (update_own_flag_twice _ _ (Participant.with_video b) _ _ _
               (λ _, participant_video_toggle socket b)).
    reflexivity.
Qed.

(** ** Chat: who receives a message, and the log over a sequence of posts *)

Lemma slice_last_short {A} (n : nat) (l : list A) :
  length l ≤ n → slice_last n l = l.
Proof.
  intros H. unfold slice_last. by replace (length l - n) with 0 by lia.
Qed.

Lemma slice_last_app {A} (n : nat) (l l' : list A) :
  slice_last n (slice_last n l ++ l') = slice_last n (l ++ l').
Proof.
  destruct (decide (length l ≤ n)) as [Hle|Hgt].
  - by rewrite (slice_last_short n l).
  - unfold slice_last. rewrite !length_app, length_drop.
    replace (length l - (length l - n) + length l' - n) with (length l') by lia.
    replace (length l + length l' - n)
      with ((length l - n) + length l') by lia.
    rewrite <- drop_drop. f_equal. rewrite drop_app_le by lia. done.
Qed.

(** What [handleChatMessage] keeps of the pushed log is its last 100. *)
Lemma chat_kept_is_slice_last {A} (pushed : list A) :
  (if decide (chat_retention < length pushed)
   then slice_last chat_retention pushed else pushed)
  = slice_last chat_retention pushed.
Proof.
  destruct (decide _); [done|]. symmetry. apply slice_last_short. lia.
Qed.

(** X3: an accepted chat message (sender registered, text not blank after
    trimming, room present) is sent to every member of the room's broadcast
    group, the sender included, hence to every participant of the room when
    the participants are in the group; it carries the user id, the user
    name and the organizer flag of the sender's index entry and the trimmed
    text; the room keeps its participants and its other fields, and the
    other rooms, the index and the socket.io server are as before.  A
    message of an unregistered socket, a blank message, or a message for a
    room that the registry does not hold changes and sends nothing. *)
Theorem chat_message_reaches_whole_group (trim : string → string)
    (w : World) (socket : SocketId) (message uuid : string) (now : Millis) :
  (∀ (entry : Entry.t) (room : Room.t),
     JsMap.get socket (participants (manager w)) = Some entry →
     trim message ≠ "" →
     JsMap.get (Entry.roomId entry) (rooms (manager w)) = Some room →
     let rid := Entry.roomId entry in
     let chatMessage :=
       ChatMessage.mk uuid (Participant.userId (Entry.participant entry))
         (Participant.userName (Entry.participant entry)) (trim message) now
         (Participant.isOrganizer (Entry.participant entry)) in
     let '(w', effs) := handleChatMessage trim w socket message uuid now in
     effs = map (λ s, Deliver s (chat_message chatMessage))
                (members (io w) rid)
     ∧ (grouped w → ∀ s, is_Some (JsMap.get s (Room.participants room)) →
          Deliver s (chat_message chatMessage) ∈ effs)
     ∧ (socket ∈ members (io w) rid →
          Deliver socket (chat_message chatMessage) ∈ effs)
     ∧ (∃ room',
          JsMap.get rid (rooms (manager w')) = Some room'
          ∧ Room.participants room' = Room.participants room
          ∧ Room.meetingId room' = Room.meetingId room
          ∧ Room.meetingTitle room' = Room.meetingTitle room
          ∧ Room.startTime room' = Room.startTime room
          ∧ Room.isRecording room' = Room.isRecording room)
     ∧ (∀ rid', rid' ≠ rid →
          JsMap.get rid' (rooms (manager w'))
          = JsMap.get rid' (rooms (manager w)))
     ∧ participants (manager w') = participants (manager w)
     ∧ io w' = io w)
  ∧ (JsMap.get socket (participants (manager w)) = None
     ∨ trim message = ""
     ∨ (∃ entry, JsMap.get socket (participants (manager w)) = Some entry
                 ∧ JsMap.get (Entry.roomId entry) (rooms (manager w)) = None) →
     handleChatMessage trim w socket message uuid now = (w, [])).
Proof.
  split.
  - intros entry room He Ht Hr rid chatMessage.
    rewrite (handleChatMessage_accepted trim w socket message uuid now
               entry room He Ht Hr).
    fold rid chatMessage. cbn [manager rooms participants io].
    split; [done|]. split; [|split; [|split; [|split]]].
    + intros Hg s Hs. apply list_elem_of_fmap. exists s. split; [done|].
      apply (Hg rid s). by exists room.
    + intros Hin. apply list_elem_of_fmap. by exists socket.
    + eexists. split; [apply get_set_eq|]. done.
    + intros rid' Hne. by apply get_set_ne.
    + done.
  - unfold handleChatMessage. intros [Hn|[Hb|(entry & He & Hr)]].
    + by rewrite Hn.
    + destruct (JsMap.get socket _); [|done].
      by rewrite bool_decide_eq_true_2.
    + rewrite He, Hr. by destruct (bool_decide _).
Qed.

Lemma with_chatMessages_same (room : Room.t) :
  Room.with_chatMessages (Room.chatMessages room) room = room.
Proof. by destruct room. Qed.

(** One post, seen from a room [rid] that exists. *)
Lemma handleChatMessage_room (trim : string → string) (w : World)
    (c : ChatPost.t) (rid : RoomId) (room : Room.t) :
  JsMap.get rid (rooms (manager w)) = Some room →
  length (Room.chatMessages room) ≤ chat_retention →
  let w' := (handle trim w (chat_event c)).1 in
  participants (manager w') = participants (manager w)
  ∧ JsMap.get rid (rooms (manager w'))
    = Some (Room.with_chatMessages
              (slice_last chat_retention
                 (Room.chatMessages room
                  ++ accepted_into trim (participants (manager w)) rid [c]))
              room).
Proof.
  intros Hroom Hlen.
  assert (Hsame : Some room
            = Some (Room.with_chatMessages
                      (slice_last chat_retention (Room.chatMessages room ++ []))
                      room)).
  { rewrite app_nil_r, slice_last_short by done.
    by rewrite with_chatMessages_same. }
  unfold chat_event, accepted_into. cbn [handle omap list_omap].
  unfold handleChatMessage.
  destruct (JsMap.get (ChatPost.socket c) (participants (manager w)))
    as [entry|] eqn:He; [|cbn; by rewrite Hroom].
  destruct (decide (trim (ChatPost.message c) = "")) as [Hb|Hb].
  { rewrite bool_decide_eq_true_2 by done.
    rewrite bool_decide_eq_false_2 by (by intros [_ ?]).
    cbn. by rewrite Hroom. }
  rewrite (bool_decide_eq_false_2 (trim _ = "")) by done.
  destruct (decide (Entry.roomId entry = rid)) as [Hrid|Hrid].
  - rewrite Hrid, Hroom. rewrite bool_decide_eq_true_2 by done.
    cbn. split; [done|]. rewrite get_set_eq. f_equal.
    by rewrite chat_kept_is_slice_last.
  - rewrite bool_decide_eq_false_2 by (by intros [? _]).
    destruct (JsMap.get (Entry.roomId entry) (rooms (manager w)));
      cbn; [|by rewrite Hroom].
    split; [done|]. rewrite get_set_ne by done. by rewrite Hroom.
Qed.

Lemma accepted_into_cons (trim : string → string) (idx : JsMap.t Entry.t)
    (rid : RoomId) (c : ChatPost.t) (cs : list ChatPost.t) :
  accepted_into trim idx rid (c :: cs)
  = accepted_into trim idx rid [c] ++ accepted_into trim idx rid cs.
Proof.
  unfold accepted_into. cbn [omap list_omap].
  by destruct (match JsMap.get (ChatPost.socket c) idx with
               | Some _ => _ | None => _ end).
Qed.

(** X4: after any sequence of 'chat-message' events, the log of a room that
    exists (and was within the retention count) is the last 100 of its old
    log followed by the entries of the accepted posts, in the order of the
    posts; the accepted posts are those of senders the index places in
    that room, with a text that is not blank; the rest of the room and the
    index are unchanged. *)
Theorem chat_log_is_last_accepted (trim : string → string)
    (cs : list ChatPost.t) (w : World) (rid : RoomId) (room : Room.t) :
  JsMap.get rid (rooms (manager w)) = Some room →
  length (Room.chatMessages room) ≤ chat_retention →
  let w' := (run trim w (map chat_event cs)).1 in
  participants (manager w') = participants (manager w)
  ∧ JsMap.get rid (rooms (manager w'))
    = Some (Room.with_chatMessages
              (slice_last chat_retention
                 (Room.chatMessages room
                  ++ accepted_into trim (participants (manager w)) rid cs))
              room).
Proof.
  revert w room. induction cs as [|c cs IH]; intros w room Hroom Hlen.
  - cbn. split; [done|]. rewrite Hroom, app_nil_r, slice_last_short by done.
    by rewrite with_chatMessages_same.
  - cbn [map run].
    destruct (handleChatMessage_room trim w c rid room Hroom Hlen)
      as [Hidx Hroom1].
    destruct (handle trim w (chat_event c)) as [w1 effs1].
    cbn [fst] in Hidx, Hroom1.
    specialize (IH w1 _ Hroom1 (slice_last_length _ _)).
    destruct (run trim w1 (map chat_event cs)) as [w2 effs2].
    cbn [fst] in *. destruct IH as [Hidx2 Hroom2].
    split; [congruence|]. rewrite Hroom2, Hidx. cbn [Room.chatMessages Room.with_chatMessages].
    rewrite slice_last_app, (accepted_into_cons _ _ _ c cs), app_assoc.
    done.
Qed.

(** ** After a leave *)

Lemma removeParticipant_unregisters (w : World) (socket : SocketId)
    (updated : Settled unit) :
  JsMap.get socket
    (participants (manager (removeParticipant w socket updated).1.1)) = None.
Proof.
  unfold removeParticipant, removeParticipant_begin.
  destruct (JsMap.get socket (participants (manager w))) as [entry|] eqn:He;
    [|done].
  destruct (JsMap.get (Entry.roomId entry) (rooms (manager w))) as [room|];
    [|apply get_delete_eq].
  destruct (decide _); [|apply get_delete_eq].
  destruct updated; apply get_delete_eq.
Qed.

Lemma update_own_flag_unregistered (w : World) (socket : SocketId)
    (f : Participant.t → Participant.t) (notice : Entry.t → ServerEvent) :
  JsMap.get socket (participants (manager w)) = None →
  update_own_flag w socket f notice = (w, []).
Proof. intros H. unfold update_own_flag. by rewrite H. Qed.

(** X5: once [removeParticipant] has run for a socket, the reverse index
    does not hold the socket, so a second leave, or the disconnect that
    follows a leave, changes nothing, sends nothing and throws nothing, and
    a toggle, a screen-share event or a chat message of that socket is
    ignored. *)
Theorem left_socket_is_ignored (trim : string → string) (w : World)
    (socket : SocketId) (updated : Settled unit) :
  let w' := (removeParticipant w socket updated).1.1 in
  JsMap.get socket (participants (manager w')) = None
  ∧ (∀ again, handleLeaveRoom w' socket again = (w', [], None))
  ∧ (∀ again,
       handleDisconnect (mkWorld (manager w') (io_close socket (io w')))
                        socket again
       = (mkWorld (manager w') (io_close socket (io w')), [], None))
  ∧ (∀ enabled, handleToggleAudio w' socket enabled = (w', [])
                ∧ handleToggleVideo w' socket enabled = (w', []))
  ∧ handleStartScreenShare w' socket = (w', [])
  ∧ handleStopScreenShare w' socket = (w', [])
  ∧ (∀ message uuid now,
       handleChatMessage trim w' socket message uuid now = (w', [])).
Proof.
  intros w'. pose proof (removeParticipant_unregisters w socket updated) as H.
  fold w' in H. split; [done|].
  split; [intros; by apply removeParticipant_unregistered|].
  split; [intros; by apply removeParticipant_unregistered|].
  rewrite handleStartScreenShare_shape, handleStopScreenShare_shape.
  split; [|split; [|split]]; try by apply update_own_flag_unregistered.
  - intros enabled.
    rewrite handleToggleAudio_shape, handleToggleVideo_shape.
    split; by apply update_own_flag_unregistered.
  - intros message uuid now. unfold handleChatMessage. by rewrite H.
Qed.

(** X6: [handleLeaveRoom] does not take the socket out of the broadcast
    group of its room (it never calls [socket.leave]): the socket.io server
    is as before, and a chat message accepted afterwards in a room whose
    group the socket was in is still delivered to it.  After a
    'disconnect' the socket is in no group. *)
Theorem leave_keeps_group_membership (trim : string → string) (w : World)
    (socket : SocketId) (updated : Settled unit) :
  let w' := (handleLeaveRoom w socket updated).1.1 in
  io w' = io w
  ∧ (∀ (sender : SocketId) (message uuid : string) (now : Millis)
       (entry : Entry.t) (room : Room.t),
       JsMap.get sender (participants (manager w')) = Some entry →
       trim message ≠ "" →
       JsMap.get (Entry.roomId entry) (rooms (manager w')) = Some room →
       socket ∈ members (io w) (Entry.roomId entry) →
       Deliver socket
         (chat_message
            (ChatMessage.mk uuid
               (Participant.userId (Entry.participant entry))
               (Participant.userName (Entry.participant entry))
               (trim message) now
               (Participant.isOrganizer (Entry.participant entry))))
       ∈ (handleChatMessage trim w' sender message uuid now).2)
  ∧ (∀ g, socket ∉ members
                     (io (handle trim w (ev_disconnect socket updated)).1) g).
Proof.
  intros w'.
  assert (Hio : io w' = io w) by apply removeParticipant_io.
  split; [done|]. split.
  - intros sender message uuid now entry room He Ht Hr Hin.
    rewrite (handleChatMessage_accepted trim w' sender message uuid now
               entry room He Ht Hr).
    cbn [snd]. apply list_elem_of_fmap. exists socket. split; [done|].
    by rewrite Hio.
  - intros g. cbn [handle]. unfold handleDisconnect.
    rewrite removeParticipant_io. cbn [io].
    rewrite members_io_close. by intros [? _]%list_elem_of_filter.
Qed.

(** ** Joining and leaving in sequence *)

Lemma with_participants_same (room : Room.t) :
  Room.with_participants (Room.participants room) room = room.
Proof. by destruct room. Qed.

Lemma manager_eta (m : Manager) : mkManager (rooms m) (participants m) = m.
Proof. by destruct m. Qed.

(** X7: a socket that is not registered joins a meeting, the join
    succeeds, and the socket leaves.  If the room was not there, or was
    there with participants and without this socket, the coordinator's
    rooms and index are exactly as before the join; the socket is still a
    member of the room's broadcast group. *)
Theorem join_then_leave_restores_manager
    (w w1 : World) (socket : SocketId) (meetingId : MeetingId)
    (userId : UserId) (userName : string) (env : JoinEnv.t)
    (effs : list Effect) (updated : Settled unit) :
  handleJoinRoom w socket meetingId userId userName env = (w1, effs, None) →
  JsMap.get socket (participants (manager w)) = None →
  (∀ room, JsMap.get (room_id_of meetingId) (rooms (manager w)) = Some room →
     JsMap.get socket (Room.participants room) = None
     ∧ JsMap.size (Room.participants room) ≠ 0) →
  let w2 := (handleLeaveRoom w1 socket updated).1.1 in
  manager w2 = manager w
  ∧ io w2 = socket_join socket (room_id_of meetingId) (io w)
  ∧ socket ∈ members (io w2) (room_id_of meetingId).
Proof.
  intros Hjoin Hfresh Hroom w2.
  apply handleJoinRoom_success in Hjoin.
  destruct Hjoin as (meeting & room & created & _ & Hcase & Hrooms & Hidx
                     & Hio & _).
  cbv zeta in *.
  assert (Hio2 : io w2 = socket_join socket (room_id_of meetingId) (io w)).
  { unfold w2, handleLeaveRoom. by rewrite removeParticipant_io. }
  split; [|split; [done|]].
  - unfold w2, handleLeaveRoom, removeParticipant, removeParticipant_begin.
    rewrite Hidx, get_set_eq. cbn [Entry.roomId Entry.participant].
    rewrite Hrooms, get_set_eq.
    cbn [Room.participants Room.with_participants].
    destruct (JsMap.get (room_id_of meetingId) (rooms (manager w)))
      as [r|] eqn:Hget.
    + destruct Hcase as [-> ->]. destruct (Hroom r eq_refl) as [Hseat Hsize].
      rewrite delete_set_absent by done.
      rewrite decide_False by done. cbn.
      rewrite set_set, delete_set_absent by done.
      change (Room.with_participants (Room.participants r)
                (Room.with_participants _ r))
        with (Room.with_participants (Room.participants r) r).
      rewrite with_participants_same, set_same by done.
      apply manager_eta.
    + destruct Hcase as [-> ->]. cbn [Room.participants].
      rewrite (delete_set_absent socket _ JsMap.empty) by done.
      rewrite decide_True by done.
      unfold removeParticipant_resume.
      destruct updated; cbn [fst snd manager rooms participants Pending.roomId
                             Pending.socketId];
        rewrite !delete_set, (delete_absent _ (rooms (manager w))) by done;
        rewrite delete_absent by done; apply manager_eta.
  - rewrite Hio2. unfold socket_join. rewrite members_add_member.
    destruct (decide (room_id_of meetingId = room_id_of meetingId)); [|done].
    destruct (bool_decide (socket ∈ _)) eqn:Hin.
    + by apply bool_decide_eq_true in Hin.
    + apply elem_of_app. right. left.
Qed.

(** X8: a successful join by a socket that the room of the meeting already
    seats does not add a seat: the room has the same sockets in the same
    order, the other participants are untouched, the chat log and the
    start time stay, and the meeting is not written; the caller's
    participant is replaced by a new one with the user id and the name of
    this join, audio and video on and no screen share. *)
Theorem rejoin_replaces_own_seat
    (w w' : World) (socket : SocketId) (meetingId : MeetingId)
    (userId : UserId) (userName : string) (env : JoinEnv.t)
    (effs : list Effect) (room : Room.t) (old : Participant.t) :
  handleJoinRoom w socket meetingId userId userName env = (w', effs, None) →
  JsMap.get (room_id_of meetingId) (rooms (manager w)) = Some room →
  JsMap.get socket (Room.participants room) = Some old →
  ∃ (room' : Room.t) (p : Participant.t),
    JsMap.get (room_id_of meetingId) (rooms (manager w')) = Some room'
    ∧ JsMap.keys (Room.participants room') = JsMap.keys (Room.participants room)
    ∧ JsMap.size (Room.participants room') = JsMap.size (Room.participants room)
    ∧ JsMap.get socket (Room.participants room') = Some p
    ∧ (∀ s, s ≠ socket →
         JsMap.get s (Room.participants room')
         = JsMap.get s (Room.participants room))
    ∧ Participant.userId p = userId
    ∧ Participant.userName p = userName
    ∧ Participant.joinedAt p = JoinEnv.joinedAt env
    ∧ Participant.audio p = true
    ∧ Participant.video p = true
    ∧ Participant.isScreenSharing p = false
    ∧ Room.chatMessages room' = Room.chatMessages room
    ∧ Room.startTime room' = Room.startTime room
    ∧ meeting_writes effs = [].
Proof.
  intros Hjoin Hroom Hold.
  apply handleJoinRoom_success in Hjoin.
  destruct Hjoin as (meeting & r & created & _ & Hcase & Hrooms & _ & _
                     & Heffs).
  cbv zeta in *. rewrite Hroom in Hcase, Hrooms. destruct Hcase as [-> ->].
  eexists _, _. split; [by rewrite Hrooms, get_set_eq|].
  cbn [Room.participants Room.with_participants Room.chatMessages
       Room.startTime].
  split; [by eapply keys_set_present|].
  split; [by eapply size_set_present|].
  split; [apply get_set_eq|].
  split; [intros s Hs; by apply get_set_ne|].
  do 8 (split; [done|]).
  rewrite Heffs. cbn [app]. rewrite meeting_writes_app.
  by rewrite meeting_writes_socket_to_emit.
Qed.

(** X9: a socket seated in one room that joins another meeting
    successfully is then seated in both rooms, while the index knows the
    new room only; when it leaves, it is removed from the new room (which
    seats it no longer, whether the room goes or stays) and from the index,
    and its seat in the first room stays, so that the invariant of the
    reverse index is lost. *)
Theorem join_of_second_meeting_orphans_seat
    (w w1 : World) (socket : SocketId) (meetingId : MeetingId)
    (userId : UserId) (userName : string) (env : JoinEnv.t)
    (effs : list Effect) (entry : Entry.t) (room : Room.t)
    (old : Participant.t) (updated : Settled unit) :
  handleJoinRoom w socket meetingId userId userName env = (w1, effs, None) →
  JsMap.get socket (participants (manager w)) = Some entry →
  Entry.roomId entry ≠ room_id_of meetingId →
  JsMap.get (Entry.roomId entry) (rooms (manager w)) = Some room →
  JsMap.get socket (Room.participants room) = Some old →
  let w2 := (handleLeaveRoom w1 socket updated).1.1 in
  seat_of (manager w1) (Entry.roomId entry) socket = Some old
  ∧ is_Some (seat_of (manager w1) (room_id_of meetingId) socket)
  ∧ (Entry.roomId <$> JsMap.get socket (participants (manager w1)))
    = Some (room_id_of meetingId)
  ∧ seat_of (manager w2) (Entry.roomId entry) socket = Some old
  ∧ seat_of (manager w2) (room_id_of meetingId) socket = None
  ∧ JsMap.get socket (participants (manager w2)) = None
  ∧ ¬ index_ok (manager w2).
Proof.
  intros Hjoin He Hne Hroom Hold w2.
  apply handleJoinRoom_success in Hjoin.
  destruct Hjoin as (meeting & r & created & _ & _ & Hrooms & Hidx & _ & _).
  cbv zeta in *.
  assert (Hother : JsMap.get (Entry.roomId entry) (rooms (manager w1))
                   = Some room).
  { rewrite Hrooms, get_set_ne by done.
    destruct (JsMap.get (room_id_of meetingId) (rooms (manager w)));
      [done|]. by rewrite get_set_ne. }
  assert (Hseat2 : seat_of (manager w2) (Entry.roomId entry) socket = Some old).
  { unfold w2, handleLeaveRoom, removeParticipant, removeParticipant_begin,
           seat_of.
    rewrite Hidx, get_set_eq. cbn [Entry.roomId Entry.participant].
    rewrite (eq_trans (f_equal (JsMap.get (room_id_of meetingId)) Hrooms)
                      (get_set_eq _ _ _)).
    destruct (decide _);
      [destruct updated|];
      cbn [fst snd manager rooms participants removeParticipant_resume
           Pending.roomId Pending.socketId];
      rewrite ?get_delete_ne, ?get_set_ne by done;
      by rewrite Hother. }
  assert (Hgone : JsMap.get socket (participants (manager w2)) = None).
  { apply removeParticipant_unregisters. }
  assert (Hleft : seat_of (manager w2) (room_id_of meetingId) socket = None).
  { unfold w2, handleLeaveRoom, removeParticipant, removeParticipant_begin,
           seat_of.
    rewrite Hidx, get_set_eq. cbn [Entry.roomId Entry.participant].
    rewrite (eq_trans (f_equal (JsMap.get (room_id_of meetingId)) Hrooms)
                      (get_set_eq _ _ _)).
    destruct (decide _);
      [destruct updated|];
      cbn [fst snd manager rooms participants removeParticipant_resume
           Pending.roomId Pending.socketId];
      rewrite ?get_delete_eq; [done..|].
    rewrite get_set_eq.
    cbn [Room.participants Room.with_participants].
    apply get_delete_eq. }
  split; [unfold seat_of; by rewrite Hother|].
  split; [unfold seat_of; rewrite Hrooms, get_set_eq; cbn;
          rewrite get_set_eq; eauto|].
  split; [by rewrite Hidx, get_set_eq|].
  split; [done|]. split; [done|]. split; [done|].
  intros Hok. destruct (Hok socket) as [[_ Hback] _].
  rewrite Hgone in Hback. destruct Hback as [? [=]].
  exists (Entry.roomId entry). unfold seat_of in Hseat2. unfold seated.
  destruct (JsMap.get (Entry.roomId entry) (rooms (manager w2))) as [r2|];
    [|done].
  exists r2. split; [done|]. by rewrite Hseat2.
Qed.

(** ** Events of one socket leave the others alone *)

Lemma touches_only_refl (socket : SocketId) (touched : option RoomId)
    (m : Manager) : touches_only socket touched m m.
Proof. by split. Qed.

(** The goal [touches_only socket touched m m'] where [m'] is [m] after
    [JsMap.set]s and [JsMap.delete]s at [socket] and at the touched room. *)
Ltac touches_only_by_lookup :=
  split;
  [ intros s Hs; split; [|intros rid0; unfold seat_of];
    cbn [fst snd manager rooms participants];
    repeat first [rewrite get_set | rewrite get_delete];
    repeat (destruct (decide _) as [?|?]; simplify_eq; try done);
    cbn [Room.participants Room.with_participants];
    repeat first [rewrite get_set | rewrite get_delete];
    repeat (destruct (decide _) as [?|?]; simplify_eq; try done)
  | intros rid0 Hrid0; cbn [fst snd manager rooms participants];
    repeat first [rewrite get_set | rewrite get_delete];
    repeat (destruct (decide _) as [?|?]; simplify_eq; try done) ].

Lemma handleJoinRoom_touches_only (w : World) (socket : SocketId)
    (meetingId : MeetingId) (userId : UserId) (userName : string)
    (env : JoinEnv.t) :
  touches_only socket (Some (room_id_of meetingId)) (manager w)
    (manager (handleJoinRoom w socket meetingId userId userName env).1.1).
Proof.
  unfold handleJoinRoom.
  destruct (JoinEnv.found env) as [[meeting|]|e];
    try apply touches_only_refl.
  destruct (negb _ && negb _); [apply touches_only_refl|].
  destruct (JsMap.get (room_id_of meetingId) (rooms (manager w)))
    as [room|] eqn:Hget.
  - touches_only_by_lookup; by rewrite ?Hget.
  - destruct (JoinEnv.updated env); touches_only_by_lookup;
      by rewrite ?Hget.
Qed.

Lemma update_own_flag_touches_only (w : World) (socket : SocketId)
    (f : Participant.t → Participant.t) (notice : Entry.t → ServerEvent) :
  touches_only socket
    (Entry.roomId <$> JsMap.get socket (participants (manager w)))
    (manager w) (manager (update_own_flag w socket f notice).1).
Proof.
  unfold update_own_flag.
  destruct (JsMap.get socket _) as [entry|]; [|apply touches_only_refl].
  destruct (JsMap.get (Entry.roomId entry) _) as [room|] eqn:Hroom;
    [|apply touches_only_refl].
  destruct (JsMap.get socket (Room.participants room));
    [|apply touches_only_refl].
  touches_only_by_lookup; by rewrite ?Hroom.
Qed.

Lemma handleChatMessage_touches_only (trim : string → string) (w : World)
    (socket : SocketId) (message uuid : string) (now : Millis) :
  touches_only socket
    (Entry.roomId <$> JsMap.get socket (participants (manager w)))
    (manager w)
    (manager (handleChatMessage trim w socket message uuid now).1).
Proof.
  unfold handleChatMessage.
  destruct (JsMap.get socket _) as [entry|]; [|apply touches_only_refl].
  destruct (bool_decide _); [apply touches_only_refl|].
  destruct (JsMap.get (Entry.roomId entry) _) as [room|] eqn:Hroom;
    [|apply touches_only_refl].
  touches_only_by_lookup; by rewrite ?Hroom.
Qed.

Lemma handleJoinRoom_seat_touches_only (w : World) (k : JoinPending.t)
    (joinedAt : Millis) :
  touches_only (JoinPending.socketId k)
    (Some (room_id_of (JoinPending.meetingId k))) (manager w)
    (manager (handleJoinRoom_seat w k joinedAt).1.1).
Proof.
  unfold handleJoinRoom_seat.
  destruct (JsMap.get _ (rooms (manager w))) as [room|] eqn:Hget;
    [|apply touches_only_refl].
  touches_only_by_lookup; by rewrite ?Hget.
Qed.

Lemma handleJoinRoom_begin_touches_only (w : World) (socket : SocketId)
    (meetingId : MeetingId) (userId : UserId) (userName : string)
    (env : JoinEnv.t) :
  touches_only socket (Some (room_id_of meetingId)) (manager w)
    (manager (handleJoinRoom_begin w socket meetingId userId userName
                                   env).1.1.1).
Proof.
  unfold handleJoinRoom_begin.
  destruct (JoinEnv.found env) as [[meeting|]|e];
    try apply touches_only_refl.
  destruct (negb _ && negb _); [apply touches_only_refl|].
  destruct (JsMap.get (room_id_of meetingId) (rooms (manager w)))
    as [room|] eqn:Hget.
  - pose proof (handleJoinRoom_seat_touches_only w
                  (JoinPending.mk socket meetingId userId userName
                     (bool_decide (Meeting.organizer meeting = userId)))
                  (JoinEnv.joinedAt env)) as H.
    by destruct (handleJoinRoom_seat _ _ _) as [[w' effs] thrown].
  - touches_only_by_lookup; by rewrite ?Hget.
Qed.

Lemma removeParticipant_begin_touches_only (w : World) (socket : SocketId) :
  touches_only socket
    (Entry.roomId <$> JsMap.get socket (participants (manager w)))
    (manager w) (manager (removeParticipant_begin w socket).1.1).
Proof.
  unfold removeParticipant_begin.
  destruct (JsMap.get socket _) as [entry|]; [|apply touches_only_refl].
  destruct (JsMap.get (Entry.roomId entry) _) as [room|] eqn:Hroom.
  - destruct (decide _) as [Hempty|Hsome];
      touches_only_by_lookup; by rewrite ?Hroom.
  - touches_only_by_lookup; done.
Qed.

(** X10: every step of the coordinator leaves the sockets it is not about
    alone, but for the teardown that resumes.  A listener run up to its
    [await] and a join that resumes leave the index entry of every other
    socket and the seat of every other socket in every room as they were,
    and change no room but the one the event is about (the room of the
    meeting for a join, the room the index gives for the sender
    otherwise; none for a connection or a relayed signal).  A teardown
    that resumes deletes the index entry of its own socket and no other,
    and deletes its room with every seat the room has by then, those
    taken during the [await] included; the other rooms stay. *)
Theorem steps_touch_only_their_socket (trim : string → string) (σ : Sys) :
  let m := manager (world σ) in
  (∀ ev,
     touches_only (sender ev) (room_of_event (world σ) ev) m
       (manager (world (step trim σ (arrives ev)).1)))
  ∧ (∀ i k outcome now,
       awaiting σ !! i = Some (join_awaits k) →
       touches_only (JoinPending.socketId k)
         (Some (room_id_of (JoinPending.meetingId k))) m
         (manager (world (step trim σ (settles i outcome now)).1)))
  ∧ (∀ i k outcome now,
       awaiting σ !! i = Some (teardown_awaits k) →
       let m' := manager (world (step trim σ (settles i outcome now)).1) in
       (∀ s, s ≠ Pending.socketId k →
          JsMap.get s (participants m') = JsMap.get s (participants m))
       ∧ JsMap.get (Pending.socketId k) (participants m') = None
       ∧ (∀ rid, rid ≠ Pending.roomId k →
            JsMap.get rid (rooms m') = JsMap.get rid (rooms m))
       ∧ JsMap.get (Pending.roomId k) (rooms m') = None
       ∧ (∀ rid s, seat_of m' rid s
                   = if decide (rid = Pending.roomId k) then None
                     else seat_of m rid s)).
Proof.
  intros m. split; [|split].
  - intros ev.
    destruct ev; cbn [step sender room_of_event world];
      try apply touches_only_refl.
    + pose proof (handleJoinRoom_begin_touches_only (world σ) socket meetingId
                    userId userName env) as H.
      by destruct (handleJoinRoom_begin _ _ _ _ _ _)
        as [[[w' effs] thrown] k].
    + cbn [handle]. rewrite handleToggleAudio_shape.
      pose proof (update_own_flag_touches_only (world σ) socket
                    (Participant.with_audio audio)
                    (λ _, participant_audio_toggle socket audio)) as H.
      by destruct (update_own_flag _ _ _ _).
    + cbn [handle]. rewrite handleToggleVideo_shape.
      pose proof (update_own_flag_touches_only (world σ) socket
                    (Participant.with_video video)
                    (λ _, participant_video_toggle socket video)) as H.
      by destruct (update_own_flag _ _ _ _).
    + cbn [handle]. rewrite handleStartScreenShare_shape.
      pose proof (update_own_flag_touches_only (world σ) socket
                    (Participant.with_isScreenSharing true)
                    (λ e, screen_share_started socket
                            (Participant.userName (Entry.participant e))))
        as H.
      by destruct (update_own_flag _ _ _ _).
    + cbn [handle]. rewrite handleStopScreenShare_shape.
      pose proof (update_own_flag_touches_only (world σ) socket
                    (Participant.with_isScreenSharing false)
                    (λ _, screen_share_stopped socket)) as H.
      by destruct (update_own_flag _ _ _ _).
    + cbn [handle].
      pose proof (handleChatMessage_touches_only trim (world σ) socket message
                    uuid now) as H.
      by destruct (handleChatMessage _ _ _ _ _ _).
    + pose proof (removeParticipant_begin_touches_only (world σ) socket) as H.
      by destruct (removeParticipant_begin _ _) as [[w' effs] k].
    + pose proof (removeParticipant_begin_touches_only
                    (mkWorld (manager (world σ))
                             (io_close socket (io (world σ)))) socket) as H.
      by destruct (removeParticipant_begin _ _) as [[w' effs] k].
  - intros i k outcome now Hi. cbn [step]. rewrite Hi.
    unfold handleJoinRoom_resume. destruct outcome as [[]|e];
      [|apply touches_only_refl].
    pose proof (handleJoinRoom_seat_touches_only (world σ) k now) as H.
    by destruct (handleJoinRoom_seat _ _ _) as [[w' effs] thrown].
  - intros i k outcome now Hi. cbn [step]. rewrite Hi.
    assert (Hm : manager (removeParticipant_resume (world σ) k outcome).1
                 = mkManager (JsMap.delete (Pending.roomId k) (rooms m))
                             (JsMap.delete (Pending.socketId k)
                                           (participants m)))
      by (by destruct outcome).
    cbn [fst world]. rewrite Hm. cbn [rooms participants].
    split; [intros s Hs; by rewrite get_delete_ne|].
    split; [apply get_delete_eq|].
    split; [intros rid Hrid; by rewrite get_delete_ne|].
    split; [apply get_delete_eq|].
    intros rid s. unfold seat_of. cbn [rooms]. rewrite get_delete.
    destruct (decide (Pending.roomId k = rid)) as [<-|Hne].
    + by rewrite decide_True.
    + by rewrite decide_False.
Qed.

Section jsmap_nodup.
Context {V : Type}.
Implicit Types (m : JsMap.t V) (k : string) (v : V).

Lemma not_key_get k m : k ∉ JsMap.keys m → JsMap.get k m = None.
Proof.
  intros Hn. destruct (JsMap.get k m) eqn:H; [|done].
  by apply get_Some_key in H.
Qed.

Lemma NoDup_keys_set k v m :
  NoDup (JsMap.keys m) → NoDup (JsMap.keys (JsMap.set k v m)).
Proof.
  intros Hnd. destruct (JsMap.get k m) as [v'|] eqn:H.
  - by erewrite keys_set_present.
  - rewrite keys_set_absent by done. apply NoDup_app. split; [done|].
    split; [|apply NoDup_singleton].
    intros x Hx ->%list_elem_of_singleton.
    apply key_get in Hx. rewrite H in Hx. by destruct Hx.
Qed.

Lemma NoDup_keys_delete k m :
  NoDup (JsMap.keys m) → NoDup (JsMap.keys (JsMap.delete k m)).
Proof. intros Hnd. rewrite keys_delete. by apply NoDup_filter. Qed.

Lemma elem_get k v m :
  NoDup (JsMap.keys m) → (k, v) ∈ m → JsMap.get k m = Some v.
Proof.
  induction m as [|[k0 v0] m IH]; simpl; [by intros _ ?%elem_of_nil|].
  intros [Hk0 Hnd]%NoDup_cons [[= -> ->]|Hin]%elem_of_cons.
  - by rewrite decide_True.
  - rewrite decide_False; [by apply IH|].
    intros ->. apply Hk0. unfold JsMap.keys.
    apply list_elem_of_fmap. by exists (k0, v).
Qed.

End jsmap_nodup.

(** ** The keys stay distinct *)

Lemma maps_wf_constructor : maps_wf constructor.
Proof.
  split; [apply NoDup_nil_2|]. split; [apply NoDup_nil_2|]. done.
Qed.

(** The goal [maps_wf m'] where [m'] is [m] after [JsMap.set]s and
    [JsMap.delete]s, the rooms set being rooms of [m] with a participant
    set or deleted. *)
Ltac maps_wf_by_lookup Hwf :=
  destruct Hwf as (Hwf_rooms & Hwf_idx & Hwf_seats);
  split; [|split];
  [ cbn [fst snd manager rooms participants];
    repeat first [apply NoDup_keys_set | apply NoDup_keys_delete]; done
  | cbn [fst snd manager rooms participants];
    repeat first [apply NoDup_keys_set | apply NoDup_keys_delete]; done
  | cbn [fst snd manager rooms participants]; intros rid0 room0;
    repeat first [rewrite get_set | rewrite get_delete];
    repeat (destruct (decide _) as [?|?]; simplify_eq; try done);
    try (intros [= <-];
         cbn [Room.participants Room.with_participants Room.with_chatMessages];
         repeat first [apply NoDup_keys_set | apply NoDup_keys_delete
                      | apply NoDup_nil_2 | apply NoDup_singleton];
         eauto);
    eauto ].

Lemma handleJoinRoom_maps_wf (w : World) (socket : SocketId)
    (meetingId : MeetingId) (userId : UserId) (userName : string)
    (env : JoinEnv.t) :
  maps_wf (manager w) →
  maps_wf (manager (handleJoinRoom w socket meetingId userId userName env).1.1).
Proof.
  intros Hwf. unfold handleJoinRoom.
  destruct (JoinEnv.found env) as [[meeting|]|e]; try done.
  destruct (negb _ && negb _); [done|].
  destruct (JsMap.get (room_id_of meetingId) (rooms (manager w)))
    as [room|] eqn:Hget.
  - maps_wf_by_lookup Hwf.
  - destruct (JoinEnv.updated env); maps_wf_by_lookup Hwf.
Qed.

Lemma update_own_flag_maps_wf (w : World) (socket : SocketId)
    (f : Participant.t → Participant.t) (notice : Entry.t → ServerEvent) :
  maps_wf (manager w) →
  maps_wf (manager (update_own_flag w socket f notice).1).
Proof.
  intros Hwf. unfold update_own_flag.
  destruct (JsMap.get socket _) as [entry|]; [|done].
  destruct (JsMap.get (Entry.roomId entry) _) as [room|] eqn:Hroom; [|done].
  destruct (JsMap.get socket (Room.participants room)); [|done].
  maps_wf_by_lookup Hwf.
Qed.

Lemma handleChatMessage_maps_wf (trim : string → string) (w : World)
    (socket : SocketId) (message uuid : string) (now : Millis) :
  maps_wf (manager w) →
  maps_wf (manager (handleChatMessage trim w socket message uuid now).1).
Proof.
  intros Hwf. unfold handleChatMessage.
  destruct (JsMap.get socket _) as [entry|]; [|done].
  destruct (bool_decide _); [done|].
  destruct (JsMap.get (Entry.roomId entry) _) as [room|] eqn:Hroom; [|done].
  maps_wf_by_lookup Hwf.
Qed.

Lemma removeParticipant_begin_maps_wf (w : World) (socket : SocketId) :
  maps_wf (manager w) →
  maps_wf (manager (removeParticipant_begin w socket).1.1).
Proof.
  intros Hwf. unfold removeParticipant_begin.
  destruct (JsMap.get socket _) as [entry|]; [|done].
  destruct (JsMap.get (Entry.roomId entry) _) as [room|] eqn:Hroom.
  - destruct (decide _); maps_wf_by_lookup Hwf.
  - maps_wf_by_lookup Hwf.
Qed.

Lemma removeParticipant_resume_maps_wf (w : World) (k : Pending.t)
    (updated : Settled unit) :
  maps_wf (manager w) →
  maps_wf (manager (removeParticipant_resume w k updated).1).
Proof.
  intros Hwf. unfold removeParticipant_resume.
  destruct updated; maps_wf_by_lookup Hwf.
Qed.

Lemma removeParticipant_maps_wf (w : World) (socket : SocketId)
    (updated : Settled unit) :
  maps_wf (manager w) →
  maps_wf (manager (removeParticipant w socket updated).1.1).
Proof.
  intros Hwf. unfold removeParticipant.
  pose proof (removeParticipant_begin_maps_wf w socket Hwf) as H.
  destruct (removeParticipant_begin w socket) as [[w' effs] [k|]]; [|done].
  pose proof (removeParticipant_resume_maps_wf w' k updated H) as H'.
  by destruct (removeParticipant_resume w' k updated).
Qed.

Lemma handle_maps_wf (trim : string → string) (w : World) (ev : ClientEvent) :
  maps_wf (manager w) → maps_wf (manager (handle trim w ev).1).
Proof.
  intros Hwf. destruct ev; cbn [handle]; try done.
  - unfold join_room_listener.
    pose proof (handleJoinRoom_maps_wf w socket meetingId userId userName
                  env Hwf) as H.
    by destruct (handleJoinRoom _ _ _ _ _ _) as [[w' effs] [e|]].
  - rewrite handleToggleAudio_shape. by apply update_own_flag_maps_wf.
  - rewrite handleToggleVideo_shape. by apply update_own_flag_maps_wf.
  - rewrite handleStartScreenShare_shape. by apply update_own_flag_maps_wf.
  - rewrite handleStopScreenShare_shape. by apply update_own_flag_maps_wf.
  - by apply handleChatMessage_maps_wf.
  - by apply removeParticipant_maps_wf.
  - by apply (removeParticipant_maps_wf (mkWorld _ _)).
Qed.

Lemma run_maps_wf (trim : string → string) (evs : list ClientEvent)
    (w : World) :
  maps_wf (manager w) → maps_wf (manager (run trim w evs).1).
Proof.
  revert w. induction evs as [|ev evs IH]; intros w Hwf; [done|].
  cbn [run]. pose proof (handle_maps_wf trim w ev Hwf) as H1.
  destruct (handle trim w ev) as [w1 effs1]. specialize (IH w1 H1).
  by destruct (run trim w1 evs).
Qed.

(** ** The totals of [getRoomStats] *)

Lemma length_seated_sockets (rs : JsMap.t Room.t) :
  length (seated_sockets rs)
  = sum_list (map (λ e : RoomId * Room.t,
                     JsMap.size (Room.participants e.2)) rs).
Proof.
  induction rs as [|[rid room] rs IH]; [done|].
  unfold seated_sockets in *. cbn [map concat sum_list sum_list_with snd].
  rewrite length_app, IH. unfold JsMap.size, JsMap.keys.
  by rewrite length_map.
Qed.

Lemma elem_of_seated_sockets (rs : JsMap.t Room.t) (s : SocketId) :
  s ∈ seated_sockets rs
  ↔ ∃ rid room, (rid, room) ∈ rs ∧ s ∈ JsMap.keys (Room.participants room).
Proof.
  induction rs as [|[rid0 room0] rs IH].
  - split; [by intros ?%elem_of_nil|]. by intros (? & ? & ?%elem_of_nil & _).
  - change (seated_sockets ((rid0, room0) :: rs))
      with (JsMap.keys (Room.participants room0) ++ seated_sockets rs).
    rewrite elem_of_app, IH. split.
    + intros [Hs|(rid & room & Hin & Hs)].
      * exists rid0, room0. split; [left|done].
      * exists rid, room. split; [by right|done].
    + intros (rid & room & [[= -> ->]|Hin]%elem_of_cons & Hs); [by left|].
      right. eauto.
Qed.

Lemma NoDup_seated_sockets (rs : JsMap.t Room.t) :
  NoDup (JsMap.keys rs) →
  (∀ rid room, (rid, room) ∈ rs → NoDup (JsMap.keys (Room.participants room))) →
  (∀ rid rid' room room' s,
     (rid, room) ∈ rs → (rid', room') ∈ rs →
     s ∈ JsMap.keys (Room.participants room) →
     s ∈ JsMap.keys (Room.participants room') → rid = rid') →
  NoDup (seated_sockets rs).
Proof.
  induction rs as [|[rid room] rs IH]; intros Hk Hin Hone;
    [apply NoDup_nil_2|].
  apply NoDup_cons in Hk as [Hrid Hk].
  change (seated_sockets ((rid, room) :: rs))
    with (JsMap.keys (Room.participants room) ++ seated_sockets rs).
  apply NoDup_app. split; [apply (Hin rid); left|]. split.
  - intros s Hs (rid' & room' & Hin' & Hs')%elem_of_seated_sockets.
    assert (rid = rid') as <-.
    { apply (Hone rid rid' room room' s); [left|by right|done..]. }
    apply Hrid. unfold JsMap.keys. apply list_elem_of_fmap.
    by exists (rid, room').
  - apply IH; [done|..].
    + intros rid' room' ?. apply (Hin rid'). by right.
    + intros r1 r2 m1 m2 s ? ?. apply (Hone r1 r2 m1 m2 s); by right.
Qed.

(** Under the invariant, the index holds as many sockets as the rooms
    seat. *)
Lemma index_counts_seats (m : Manager) :
  index_ok m → maps_wf m →
  JsMap.size (participants m) = length (seated_sockets (rooms m)).
Proof.
  intros Hok (Hrooms & Hidx & Hseats).
  unfold JsMap.size. rewrite <- (length_map fst).
  change (map fst (participants m)) with (JsMap.keys (participants m)).
  apply Permutation_length, NoDup_Permutation; [done|..].
  - apply NoDup_seated_sockets; [done|..].
    + intros rid room Hin. apply (Hseats rid). by apply elem_get.
    + intros rid rid' room room' s Hin Hin' Hs Hs'.
      destruct (Hok s) as (_ & Hone & _). apply Hone.
      * exists room. split; [by apply elem_get|]. by apply key_get.
      * exists room'. split; [by apply elem_get|]. by apply key_get.
  - intros s. destruct (Hok s) as (Hiff & _ & _).
    rewrite elem_of_seated_sockets. split.
    + intros Hs%key_get. apply Hiff in Hs as (rid & room & Hr & [p Hp]).
      exists rid, room. split; [by apply get_Some_elem|].
      by eapply get_Some_key.
    + intros (rid & room & Hin & Hs).
      assert (is_Some (JsMap.get s (participants m))) as [e He].
      { apply Hiff. exists rid, room. split; [by apply elem_get|].
        by apply key_get. }
      by eapply get_Some_key.
Qed.

(** The totals of [getRoomStats] where the index agrees with the rooms. *)
Lemma getRoomStats_totals (m : Manager) (now : Millis) :
  index_ok m → maps_wf m →
  let stats := getRoomStats m now in
  Stats.totalRooms stats = length (Stats.rooms stats)
  ∧ Stats.totalParticipants stats
    = sum_list (map RoomStats.participantCount (Stats.rooms stats))
  ∧ NoDup (map RoomStats.roomId (Stats.rooms stats))
  ∧ ∀ rs, rs ∈ Stats.rooms stats →
      RoomStats.participantCount rs = length (RoomStats.participants rs)
      ∧ RoomStats.duration rs = (now - RoomStats.startTime rs)%Z.
Proof.
  intros Hinv Hwf. unfold getRoomStats.
  cbn [Stats.totalRooms Stats.totalParticipants Stats.rooms].
  unfold JsMap.entries. split; [by rewrite length_map|]. split.
  - rewrite index_counts_seats, length_seated_sockets by done.
    rewrite map_map. f_equal. apply map_ext. by intros [rid room].
  - split.
    + rewrite map_map.
      erewrite map_ext; [apply (proj1 Hwf)|]. by intros [rid room].
    + intros rs ([rid room] & -> & _)%list_elem_of_fmap.
      cbn. split; [|done]. unfold JsMap.size, JsMap.values.
      by rewrite !length_map.
Qed.

(** ** Ending a call: who may, and what is left *)

(** X12: [endVideoCall] changes nothing, sends nothing and answers 500, 404
    or 403 unless the lookup finds a meeting whose organizer is the caller;
    for the organizer, a rejected [meeting.save()] changes the response
    only (500 with the error instead of 200): the room is torn down and
    the participants are disconnected all the same; and when the registry
    holds no room of the meeting, the one effect is the save of the
    meeting as completed, with the notes as the schema trims them: the old
    notes, a line feed and "Call ended by organizer at <time>". *)
Theorem endVideoCall_guards_and_save_outcome
    (trim : string → string)
    (w : World) (meetingId : MeetingId) (userId : UserId) (userName : string)
    (nowIso : string) :
  (∀ found saved,
     (∀ meeting, found = Resolved (Some meeting) →
                 Meeting.organizer meeting ≠ userId) →
     ∃ code message,
       code ∈ [500; 404; 403]
       ∧ endVideoCall trim w meetingId userId userName found nowIso saved
         = (w, [], Response.mk code message None, []))
  ∧ (∀ meeting error,
       Meeting.organizer meeting = userId →
       let '(w', effs, response, pending) :=
         endVideoCall trim w meetingId userId userName
                      (Resolved (Some meeting)) nowIso (Resolved ()) in
       Response.code response = 200
       ∧ endVideoCall trim w meetingId userId userName
                      (Resolved (Some meeting)) nowIso (Rejected error)
         = (w', effs, Response.mk 500 error None, pending))
  ∧ (∀ meeting saved,
       Meeting.organizer meeting = userId →
       JsMap.get (room_id_of meetingId) (rooms (manager w)) = None →
       let '(w', effs, response, pending) :=
         endVideoCall trim w meetingId userId userName
                      (Resolved (Some meeting)) nowIso saved in
       w' = w ∧ pending = []
       ∧ effs = [MeetingSave meetingId completed
                   (trim (default "" (Meeting.notes meeting)
                          +:+ String (Ascii.ascii_of_nat 10)
                                ("Call ended by organizer at " +:+ nowIso)))]).
Proof.
  split; [|split].
  - intros found saved Hno. unfold endVideoCall.
    destruct found as [[meeting|]|e].
    + rewrite bool_decide_eq_true_2 by (by apply Hno).
      exists 403, "Only the organizer can end the call".
      split; [|done]. do 2 right. left.
    + exists 404, msg_not_found. split; [|done]. right. left.
    + exists 500, e. split; [|done]. left.
  - intros meeting error Horg. unfold endVideoCall.
    rewrite bool_decide_eq_false_2 by (by intros ?).
    destruct (JsMap.get (room_id_of meetingId) (rooms (manager w)));
      [|done].
    by destruct (foldl _ _ _) as [[w1 effs1] pending].
  - intros meeting saved Horg Hroom. unfold endVideoCall.
    rewrite bool_decide_eq_false_2 by (by intros ?). rewrite Hroom.
    by destruct saved.
Qed.

(** What [removeParticipant_begin] does to the index and to the rooms. *)
Lemma removeParticipant_begin_lookup (w : World) (socket : SocketId) :
  let r := removeParticipant_begin w socket in
  (∀ s, s ≠ socket →
     JsMap.get s (participants (manager r.1.1))
     = JsMap.get s (participants (manager w)))
  ∧ (JsMap.get socket (participants (manager r.1.1)) = None ∧ r.2 = None
     ∨ ∃ e, JsMap.get socket (participants (manager w)) = Some e
            ∧ JsMap.get socket (participants (manager r.1.1)) = Some e
            ∧ r.2 = Some (Pending.mk (Entry.roomId e) socket))
  ∧ (∀ rid, (∀ e, JsMap.get socket (participants (manager w)) = Some e →
                  Entry.roomId e ≠ rid) →
       JsMap.get rid (rooms (manager r.1.1))
       = JsMap.get rid (rooms (manager w))).
Proof.
  unfold removeParticipant_begin.
  destruct (JsMap.get socket (participants (manager w))) as [entry|] eqn:He.
  2:{ cbn. split; [done|]. split; [by left|done]. }
  destruct (JsMap.get (Entry.roomId entry) (rooms (manager w))) as [room|].
  - destruct (decide _); cbn [fst snd manager rooms participants].
    + split; [done|]. split; [right; eauto|].
      intros rid Hrid. apply get_set_ne. by apply Hrid.
    + split; [intros s Hs; by apply get_delete_ne|].
      split; [left; split; [apply get_delete_eq|done]|].
      intros rid Hrid. apply get_set_ne. by apply Hrid.
  - cbn [fst snd manager rooms participants].
    split; [intros s Hs; by apply get_delete_ne|].
    split; [left; split; [apply get_delete_eq|done]|]. done.
Qed.

Lemma force_disconnect_lookup (rid : RoomId)
    (acc : World * list Effect * list Pending.t) (a : SocketId) :
  (∀ e, JsMap.get a (participants (manager acc.1.1)) = Some e →
        Entry.roomId e = rid) →
  let r := force_disconnect rid acc a in
  (∀ s, s ≠ a →
     JsMap.get s (participants (manager r.1.1))
     = JsMap.get s (participants (manager acc.1.1)))
  ∧ (JsMap.get a (participants (manager r.1.1)) = None
     ∨ JsMap.get a (participants (manager r.1.1))
       = JsMap.get a (participants (manager acc.1.1)))
  ∧ (a ∈ sockets (io acc.1.1) →
     JsMap.get a (participants (manager r.1.1)) = None
     ∨ ∃ k, k ∈ r.2 ∧ Pending.socketId k = a)
  ∧ (∀ k, k ∈ r.2 →
       k ∈ acc.2 ∨ (Pending.socketId k = a ∧ Pending.roomId k = rid))
  ∧ (∀ rid', rid' ≠ rid →
       JsMap.get rid' (rooms (manager r.1.1))
       = JsMap.get rid' (rooms (manager acc.1.1)))
  ∧ (∀ k, k ∈ acc.2 → k ∈ r.2).
Proof.
  destruct acc as [[w effs] pending]. cbn [fst snd]. intros Hrid.
  unfold force_disconnect.
  destruct (bool_decide (a ∈ sockets (io w))) eqn:Hconn.
  2:{ apply bool_decide_eq_false in Hconn. cbn [fst snd].
      split; [done|]. split; [by right|]. split; [done|].
      split; [by left|]. done. }
  pose proof (removeParticipant_begin_lookup
                (mkWorld (manager w)
                   (io_close a (socket_leave a rid (io w)))) a)
    as (Hother & Hown & Hrooms).
  destruct (removeParticipant_begin _ a) as [[w' effs'] k].
  cbn [fst snd manager] in *.
  split; [done|]. split; [|split; [|split; [|split]]].
  - destruct Hown as [[-> _]|(e & He & -> & _)]; [by left|by right].
  - intros _. destruct Hown as [[-> _]|(e & He & _ & ->)]; [by left|].
    right. eexists. split; [apply elem_of_app; right; left|done].
  - intros k0 [Hk0|Hk0]%elem_of_app; [by left|]. right.
    destruct Hown as [[_ ->]|(e & He & _ & ->)];
      [by apply elem_of_nil in Hk0|].
    apply list_elem_of_singleton in Hk0 as ->. cbn. split; [done|].
    by apply Hrid.
  - intros rid' Hne. apply Hrooms. intros e He <-. by apply Hne, Hrid.
  - intros k0 Hk0. apply elem_of_app. by left.
Qed.

Lemma foldl_force_disconnect_lookup (rid : RoomId) (l : list SocketId)
    (acc : World * list Effect * list Pending.t) :
  (∀ s e, s ∈ l →
     JsMap.get s (participants (manager acc.1.1)) = Some e →
     Entry.roomId e = rid) →
  let r := foldl (force_disconnect rid) acc l in
  (∀ s, s ∉ l →
     JsMap.get s (participants (manager r.1.1))
     = JsMap.get s (participants (manager acc.1.1)))
  ∧ (∀ s, JsMap.get s (participants (manager r.1.1)) = None
          ∨ JsMap.get s (participants (manager r.1.1))
            = JsMap.get s (participants (manager acc.1.1)))
  ∧ (∀ s, s ∈ l → s ∈ sockets (io acc.1.1) →
       JsMap.get s (participants (manager r.1.1)) = None
       ∨ ∃ k, k ∈ r.2 ∧ Pending.socketId k = s)
  ∧ (∀ k, k ∈ r.2 →
       k ∈ acc.2 ∨ (Pending.socketId k ∈ l ∧ Pending.roomId k = rid))
  ∧ (∀ rid', rid' ≠ rid →
       JsMap.get rid' (rooms (manager r.1.1))
       = JsMap.get rid' (rooms (manager acc.1.1)))
  ∧ (∀ k, k ∈ acc.2 → k ∈ r.2).
Proof.
  revert acc. induction l as [|a l IH]; intros acc Hrid; cbn [foldl].
  - split; [done|]. split; [by right|].
    split; [by intros s ?%elem_of_nil|]. split; [by left|]. done.
  - destruct (force_disconnect_lookup rid acc a)
      as (H1 & H2 & H3 & H4 & H5 & H6).
    { intros e. apply Hrid. left. }
    pose proof (force_disconnect_sockets rid acc a) as Hsock.
    destruct (IH (force_disconnect rid acc a))
      as (I1 & I2 & I3 & I4 & I5 & I6).
    { intros s e Hs He. apply (Hrid s e); [by right|].
      destruct (decide (s = a)) as [->|Hne].
      - destruct H2 as [H2|H2]; congruence.
      - by rewrite <- H1. }
    split; [|split; [|split; [|split; [|split]]]].
    + intros s [Hsa Hsl]%not_elem_of_cons. by rewrite I1, H1.
    + intros s. destruct (I2 s) as [-> | ->]; [by left|].
      destruct (decide (s = a)) as [->|Hne]; [done|]. right. by apply H1.
    + intros s Hs Hconn. destruct (decide (s = a)) as [->|Hne].
      * destruct (H3 Hconn) as [Hnone|(k & Hk & Hks)].
        -- left. destruct (I2 a) as [?|Heq]; [done|]. by rewrite Heq.
        -- right. exists k. split; [by apply I6|done].
      * apply I3.
        -- by apply elem_of_cons in Hs as [?|?].
        -- rewrite Hsock. apply list_elem_of_filter. by split.
    + intros k [Hk|[Hk ?]]%I4.
      * destruct (H4 k Hk) as [?|[<- ?]]; [by left|]. right.
        split; [left|done].
      * right. split; [by right|done].
    + intros rid' Hne. by rewrite I5, H5.
    + intros k Hk. by apply I6, H6.
Qed.

Lemma resume_all_lookup (pending : list Pending.t)
    (updated : Pending.t → Settled unit) (w : World) :
  let w' := resume_all w pending updated in
  (∀ s, JsMap.get s (participants (manager w'))
        = if decide (s ∈ map Pending.socketId pending) then None
          else JsMap.get s (participants (manager w)))
  ∧ (∀ rid, JsMap.get rid (rooms (manager w'))
            = if decide (rid ∈ map Pending.roomId pending) then None
              else JsMap.get rid (rooms (manager w))).
Proof.
  revert w. induction pending as [|k ks IH]; intros w.
  - cbn. split; intros x; by rewrite decide_False by apply not_elem_of_nil.
  - unfold resume_all. cbn [foldl map].
    destruct (IH (removeParticipant_resume w k (updated k)).1) as [I1 I2].
    unfold resume_all in I1, I2. split.
    + intros s. rewrite I1.
      assert (Hk : JsMap.get s
                (participants
                   (manager (removeParticipant_resume w k (updated k)).1))
              = if decide (Pending.socketId k = s) then None
                else JsMap.get s (participants (manager w))).
      { unfold removeParticipant_resume. destruct (updated k); cbn;
          apply get_delete. }
      rewrite Hk.
      destruct (decide (s ∈ map Pending.socketId ks)) as [Hin|Hin].
      * rewrite decide_True; [done|by right].
      * destruct (decide (Pending.socketId k = s)) as [<-|Hne].
        -- rewrite decide_True; [done|left].
        -- rewrite decide_False; [done|].
           by intros [?|?]%elem_of_cons.
    + intros rid. rewrite I2.
      assert (Hk : JsMap.get rid
                (rooms (manager (removeParticipant_resume w k (updated k)).1))
              = if decide (Pending.roomId k = rid) then None
                else JsMap.get rid (rooms (manager w))).
      { unfold removeParticipant_resume. destruct (updated k); cbn;
          apply get_delete. }
      rewrite Hk.
      destruct (decide (rid ∈ map Pending.roomId ks)) as [Hin|Hin].
      * rewrite decide_True; [done|by right].
      * destruct (decide (Pending.roomId k = rid)) as [<-|Hne].
        -- rewrite decide_True; [done|left].
        -- rewrite decide_False; [done|].
           by intros [?|?]%elem_of_cons.
Qed.

(** X13: in a well-formed world, when the organizer's [endVideoCall] has
    run and the teardowns it left waiting have resumed, the sockets that
    the room seated are out of the reverse index, the index entries of all
    other sockets are as before, the room is out of the registry and the
    other rooms are there as before; every teardown left waiting is of
    that room and of a socket the room seated. *)
Theorem endVideoCall_clears_room_and_index
    (trim : string → string)
    (w : World) (meetingId : MeetingId) (userId : UserId) (userName : string)
    (meeting : Meeting.t) (nowIso : string) (saved : Settled unit)
    (room : Room.t) (updated : Pending.t → Settled unit) :
  world_ok w →
  Meeting.organizer meeting = userId →
  JsMap.get (room_id_of meetingId) (rooms (manager w)) = Some room →
  let '(w', effs, response, pending) :=
    endVideoCall trim w meetingId userId userName (Resolved (Some meeting))
                 nowIso saved in
  let w'' := resume_all w' pending updated in
  (∀ s, s ∈ JsMap.keys (Room.participants room) →
        JsMap.get s (participants (manager w'')) = None)
  ∧ (∀ s, s ∉ JsMap.keys (Room.participants room) →
          JsMap.get s (participants (manager w''))
          = JsMap.get s (participants (manager w)))
  ∧ JsMap.get (room_id_of meetingId) (rooms (manager w'')) = None
  ∧ (∀ rid, rid ≠ room_id_of meetingId →
       JsMap.get rid (rooms (manager w''))
       = JsMap.get rid (rooms (manager w)))
  ∧ (∀ k, k ∈ pending →
       Pending.roomId k = room_id_of meetingId
       ∧ Pending.socketId k ∈ JsMap.keys (Room.participants room)).
Proof.
  intros ((Hsound & Hcomplete) & _ & Hg) Horg Hroom. unfold endVideoCall.
  rewrite bool_decide_eq_false_2 by (by intros ?). rewrite Hroom.
  assert (Hseated : ∀ s, s ∈ JsMap.keys (Room.participants room) →
            seated (manager w) (room_id_of meetingId) s).
  { intros s Hs. exists room. split; [done|]. by apply key_get. }
  destruct (foldl_force_disconnect_lookup (room_id_of meetingId)
              (JsMap.keys (Room.participants room))
              (w, io_to_emit (io w) (room_id_of meetingId)
                    (call_ended msg_call_ended userName), []))
    as (F1 & F2 & F3 & F4 & F5 & _).
  { cbn [fst snd]. intros s e Hs He.
    destruct (Hseated s Hs) as (r & Hr & Hin).
    destruct (Hcomplete _ _ _ Hr Hin) as (e' & He' & <-). congruence. }
  destruct (foldl _ _ _) as [[w1 effs1] pending]. cbn [fst snd] in *.
  assert (Hpend : ∀ k, k ∈ pending →
            Pending.roomId k = room_id_of meetingId
            ∧ Pending.socketId k ∈ JsMap.keys (Room.participants room)).
  { intros k [?%elem_of_nil|[? ?]]%F4; done. }
  assert (Hrest : ∀ w1' : World,
            participants (manager w1') = participants (manager w1) →
            rooms (manager w1')
            = JsMap.delete (room_id_of meetingId) (rooms (manager w1)) →
            let w'' := resume_all w1' pending updated in
            (∀ s, s ∈ JsMap.keys (Room.participants room) →
                  JsMap.get s (participants (manager w'')) = None)
            ∧ (∀ s, s ∉ JsMap.keys (Room.participants room) →
                    JsMap.get s (participants (manager w''))
                    = JsMap.get s (participants (manager w)))
            ∧ JsMap.get (room_id_of meetingId) (rooms (manager w'')) = None
            ∧ (∀ rid, rid ≠ room_id_of meetingId →
                 JsMap.get rid (rooms (manager w''))
                 = JsMap.get rid (rooms (manager w)))
            ∧ (∀ k, k ∈ pending →
                 Pending.roomId k = room_id_of meetingId
                 ∧ Pending.socketId k
                     ∈ JsMap.keys (Room.participants room))).
  { intros w1' Hidx Hrooms w''.
    destruct (resume_all_lookup pending updated w1') as [R1 R2].
    fold w'' in R1, R2.
    split; [|split; [|split; [|split; [|done]]]].
    - intros s Hs. rewrite R1. destruct (decide _); [done|].
      rewrite Hidx.
      destruct (F3 s Hs) as [?|(k & Hk & Hks)];
        [by apply (Hg (room_id_of meetingId) s), Hseated|done|].
      destruct n. apply list_elem_of_fmap. by exists k.
    - intros s Hs. rewrite R1. destruct (decide _) as [Hin|_].
      + apply list_elem_of_fmap in Hin as (k & -> & Hk).
        by destruct Hs, (Hpend k Hk).
      + rewrite Hidx. by apply F1.
    - rewrite R2. destruct (decide _); [done|].
      rewrite Hrooms. apply get_delete_eq.
    - intros rid Hne. rewrite R2. destruct (decide _) as [Hin|_].
      + apply list_elem_of_fmap in Hin as (k & -> & Hk).
        by destruct Hne, (Hpend k Hk).
      + rewrite Hrooms, get_delete_ne by done. by apply F5. }
  destruct saved as [[]|e]; by apply Hrest.
Qed.

(** ** The call token and the join it is for *)


(** ** What every interleaving keeps *)

Lemma busy_app (l l' : list Suspended) (s : SocketId) :
  busy (l ++ l') s = busy l s + busy l' s.
Proof. unfold busy. by rewrite filter_app, length_app. Qed.

Lemma busy_0 (l : list Suspended) (s : SocketId) :
  busy l s = 0 ↔ ∀ k, k ∈ l → socket_of k ≠ s.
Proof.
  unfold busy. split.
  - intros H%nil_length_inv k Hk Hs.
    by apply (filter_nil_not_elem_of _ _ k H).
  - intros H. induction l as [|k l IH]; [done|].
    rewrite filter_cons_False by (apply H; left).
    apply IH. intros k' Hk'. apply H. by right.
Qed.

Lemma busy_pos (l : list Suspended) (k : Suspended) :
  k ∈ l → 0 < busy l (socket_of k).
Proof.
  intros Hk. destruct (busy l (socket_of k)) eqn:Hb; [|lia].
  by destruct (proj1 (busy_0 _ _) Hb k Hk).
Qed.

Lemma busy_delete (l : list Suspended) (i : nat) (x : Suspended)
    (s : SocketId) :
  l !! i = Some x →
  busy l s = (if decide (socket_of x = s) then 1 else 0) + busy (delete i l) s.
Proof.
  intros Hi. rewrite <- (take_drop_middle l i x Hi) at 1.
  rewrite delete_take_drop, !busy_app. unfold busy at 2.
  destruct (decide (socket_of x = s)) as [Hs|Hs].
  - rewrite filter_cons_True by done. cbn [length].
    fold (busy (drop (S i) l) s). lia.
  - rewrite filter_cons_False by done. fold (busy (drop (S i) l) s). lia.
Qed.

(** A socket the index does not hold has no seat. *)
Lemma unindexed_seatless (m : Manager) (s : SocketId) (rid : RoomId) :
  index_complete m → JsMap.get s (participants m) = None → ¬ seated m rid s.
Proof.
  intros Hc Hs (room & Hroom & Hseat).
  destruct (Hc rid room s Hroom Hseat) as (e & He & _). congruence.
Qed.

(** The invariant goes over to a manager that seats nobody new and keeps
    what the index says of the sockets it seats. *)
Lemma pending_ok_mono (m m' : Manager) (l : list Suspended) :
  pending_ok m l →
  maps_wf m' →
  seats_within m m' →
  (∀ s, JsMap.get s (participants m) = None →
        JsMap.get s (participants m') = None) →
  (∀ rid s, seated m' rid s →
     Entry.roomId <$> JsMap.get s (participants m')
     = Entry.roomId <$> JsMap.get s (participants m)) →
  pending_ok m' l.
Proof.
  intros (Hwf & Hc & Hseatless & Hjoin) Hwf' Hin Hnone Hkeep.
  split; [done|]. split; [|split].
  - intros rid room s Hroom Hseat.
    assert (Hs' : seated m' rid s) by (by exists room).
    destruct (Hin rid s Hs') as (room0 & Hroom0 & Hseat0).
    destruct (Hc rid room0 s Hroom0 Hseat0) as (e & He & Hrid).
    specialize (Hkeep rid s Hs'). rewrite He in Hkeep.
    destruct (JsMap.get s (participants m')) as [e'|]; [|done].
    exists e'. split; [done|]. cbn in Hkeep. congruence.
  - intros k rid Hk Hs. by apply (Hseatless k rid Hk), Hin.
  - intros k Hk Hj. destruct (Hjoin k Hk Hj) as [Hidx Hbusy].
    split; [by apply Hnone|done].
Qed.

Lemma pending_ok_pop (m : Manager) (l : list Suspended) (i : nat)
    (x : Suspended) :
  pending_ok m l → l !! i = Some x →
  pending_ok m (delete i l)
  ∧ (is_join x = true → busy (delete i l) (socket_of x) = 0).
Proof.
  intros (Hwf & Hc & Hseatless & Hjoin) Hi.
  assert (Hx : x ∈ l) by (by eapply list_elem_of_lookup_2).
  split.
  - split; [done|]. split; [done|]. split.
    + intros k rid Hk%list_elem_of_delete_inv. by apply Hseatless.
    + intros k Hk Hj.
      pose proof (list_elem_of_delete_inv _ _ _ Hk) as Hk'.
      destruct (Hjoin k Hk' Hj) as [Hidx Hbusy]. split; [done|].
      pose proof (busy_delete l i x (socket_of k) Hi) as Hd.
      pose proof (busy_pos _ _ Hk). destruct (decide _); lia.
  - intros Hj. destruct (Hjoin x Hx Hj) as [_ Hbusy].
    pose proof (busy_delete l i x (socket_of x) Hi) as Hd.
    rewrite decide_True in Hd by done. lia.
Qed.

Lemma pending_ok_push_join (m : Manager) (l : list Suspended)
    (k : JoinPending.t) :
  pending_ok m l →
  JsMap.get (JoinPending.socketId k) (participants m) = None →
  busy l (JoinPending.socketId k) = 0 →
  pending_ok m (l ++ [join_awaits k]).
Proof.
  intros (Hwf & Hc & Hseatless & Hjoin) Hidx Hbusy.
  split; [done|]. split; [done|]. split.
  - intros k' rid [Hk' | ->%list_elem_of_singleton]%elem_of_app.
    + by apply Hseatless.
    + by apply unindexed_seatless.
  - intros k' [Hk' | ->%list_elem_of_singleton]%elem_of_app Hj.
    + destruct (Hjoin k' Hk' Hj) as [Hidx' Hbusy']. split; [done|].
      rewrite busy_app, Hbusy'. unfold busy at 1.
      rewrite filter_cons_False; [done|].
      cbn. intros Hs. by apply (proj1 (busy_0 _ _) Hbusy k').
    + split; [done|]. rewrite busy_app. cbn [socket_of]. rewrite Hbusy.
      unfold busy. by rewrite filter_cons_True.
Qed.

Lemma pending_ok_push_teardown (m : Manager) (l : list Suspended)
    (k : Pending.t) :
  pending_ok m l →
  (∀ rid, ¬ seated m rid (Pending.socketId k)) →
  is_Some (JsMap.get (Pending.socketId k) (participants m)) →
  pending_ok m (l ++ [teardown_awaits k]).
Proof.
  intros (Hwf & Hc & Hseatless & Hjoin) Hno [e He].
  split; [done|]. split; [done|]. split.
  - intros k' rid [Hk' | ->%list_elem_of_singleton]%elem_of_app.
    + by apply Hseatless.
    + apply Hno.
  - intros k' [Hk' | ->%list_elem_of_singleton]%elem_of_app Hj; [|done].
    destruct (Hjoin k' Hk' Hj) as [Hidx' Hbusy']. split; [done|].
    rewrite busy_app, Hbusy'. unfold busy at 1.
    rewrite filter_cons_False; [done|].
    cbn. intros Hs. congruence.
Qed.

Lemma update_own_flag_index (w : World) (socket : SocketId)
    (f : Participant.t → Participant.t) (notice : Entry.t → ServerEvent)
    (s : SocketId) :
  Entry.roomId <$> JsMap.get s (participants
                                  (manager (update_own_flag w socket f
                                                            notice).1))
  = Entry.roomId <$> JsMap.get s (participants (manager w)).
Proof.
  unfold update_own_flag.
  destruct (JsMap.get socket _) as [entry|] eqn:He; [|done].
  destruct (JsMap.get (Entry.roomId entry) _) as [room|]; [|done].
  destruct (JsMap.get socket (Room.participants room)); [|done].
  cbn [fst manager participants]. rewrite get_set.
  destruct (decide (socket = s)) as [<-|]; [|done]. by rewrite He.
Qed.

Lemma handleChatMessage_index (trim : string → string) (w : World)
    (socket : SocketId) (message uuid : string) (now : Millis) :
  participants (manager (handleChatMessage trim w socket message uuid now).1)
  = participants (manager w).
Proof.
  unfold handleChatMessage.
  destruct (JsMap.get socket _) as [entry|]; [|done].
  destruct (bool_decide _); [done|].
  by destruct (JsMap.get (Entry.roomId entry) _).
Qed.

Lemma fmap_roomId_None (o o' : option Entry.t) :
  Entry.roomId <$> o' = Entry.roomId <$> o → o = None → o' = None.
Proof. intros H ->. by destruct o'. Qed.

Lemma update_own_flag_pending_ok (w : World) (socket : SocketId)
    (f : Participant.t → Participant.t) (notice : Entry.t → ServerEvent)
    (l : list Suspended) :
  pending_ok (manager w) l →
  pending_ok (manager (update_own_flag w socket f notice).1) l.
Proof.
  intros Hok. eapply pending_ok_mono; [exact Hok|..].
  - apply update_own_flag_maps_wf, Hok.
  - apply update_own_flag_seats.
  - intros s. apply fmap_roomId_None, update_own_flag_index.
  - intros rid s _. apply update_own_flag_index.
Qed.

Lemma handleChatMessage_pending_ok (trim : string → string) (w : World)
    (socket : SocketId) (message uuid : string) (now : Millis)
    (l : list Suspended) :
  pending_ok (manager w) l →
  pending_ok (manager (handleChatMessage trim w socket message uuid now).1) l.
Proof.
  intros Hok. eapply pending_ok_mono; [exact Hok|..].
  - apply handleChatMessage_maps_wf, Hok.
  - apply handleChatMessage_seats.
  - intros s. by rewrite handleChatMessage_index.
  - intros rid s _. by rewrite handleChatMessage_index.
Qed.

(** [removeParticipant] up to its [await]. *)
Lemma removeParticipant_begin_pending_ok (w : World) (socket : SocketId)
    (l : list Suspended) :
  pending_ok (manager w) l →
  let r := removeParticipant_begin w socket in
  pending_ok (manager r.1.1) (l ++ option_list (teardown_awaits <$> r.2)).
Proof.
  intros Hok r.
  pose proof (removeParticipant_begin_maps_wf w socket (proj1 Hok)) as Hwf'.
  pose proof (removeParticipant_begin_seats w socket) as [Hin Hown].
  pose proof (removeParticipant_begin_lookup w socket)
    as (Hothers & Hself & _).
  fold r in Hwf', Hin, Hown, Hothers, Hself. cbv zeta in Hin, Hown.
  assert (Hc : index_complete (manager w)) by apply Hok.
  assert (Hseatless : ∀ rid, ¬ seated (manager r.1.1) rid socket).
  { intros rid Hs.
    destruct (Hin rid socket Hs) as (room & Hroom & Hseat).
    destruct (Hc rid room socket Hroom Hseat) as (e & He & <-).
    by apply (Hown e He). }
  assert (Hmono : pending_ok (manager r.1.1) l).
  { eapply pending_ok_mono; [exact Hok|done|done|..].
    - intros s Hs. destruct (decide (s = socket)) as [->|Hne].
      + destruct Hself as [[H _]|(e & He & _)]; [done|congruence].
      + by rewrite Hothers.
    - intros rid s Hs. destruct (decide (s = socket)) as [->|Hne].
      + by destruct (Hseatless rid).
      + by rewrite Hothers. }
  destruct Hself as [[_ Hk]|(e & He & He' & Hk)]; rewrite Hk; cbn.
  - by rewrite app_nil_r.
  - apply pending_ok_push_teardown; [done|done|]. cbn. by rewrite He'.
Qed.

(** [removeParticipant] after its [await]. *)
Lemma removeParticipant_resume_pending_ok (w : World) (k : Pending.t)
    (updated : Settled unit) (l : list Suspended) :
  pending_ok (manager w) l →
  (∀ rid, ¬ seated (manager w) rid (Pending.socketId k)) →
  pending_ok (manager (removeParticipant_resume w k updated).1) l.
Proof.
  intros Hok Hno.
  assert (Hm : manager (removeParticipant_resume w k updated).1
               = mkManager (JsMap.delete (Pending.roomId k)
                                         (rooms (manager w)))
                           (JsMap.delete (Pending.socketId k)
                                         (participants (manager w))))
    by (by destruct updated).
  assert (Hin : seats_within (manager w)
                  (manager (removeParticipant_resume w k updated).1)).
  { rewrite Hm. intros rid s (room & Hroom & Hseat). cbn [rooms] in Hroom.
    rewrite get_delete in Hroom. destruct (decide _); [done|].
    by exists room. }
  eapply pending_ok_mono; [exact Hok| |exact Hin|..].
  - apply removeParticipant_resume_maps_wf, Hok.
  - intros s Hs. rewrite Hm. cbn [participants]. rewrite get_delete.
    by destruct (decide _).
  - intros rid s Hs. rewrite Hm. cbn [participants].
    rewrite get_delete_ne; [done|]. intros <-. by apply (Hno rid), Hin.
Qed.

(** The seating of a socket that the index does not hold and that has no
    handler suspended. *)
Lemma handleJoinRoom_seat_pending_ok (w : World) (k : JoinPending.t)
    (joinedAt : Millis) (l : list Suspended) :
  pending_ok (manager w) l →
  JsMap.get (JoinPending.socketId k) (participants (manager w)) = None →
  busy l (JoinPending.socketId k) = 0 →
  pending_ok (manager (handleJoinRoom_seat w k joinedAt).1.1) l.
Proof.
  intros Hok Hnew Hidle. unfold handleJoinRoom_seat.
  destruct (JsMap.get _ (rooms (manager w))) as [room|] eqn:Hget; [|done].
  destruct Hok as (Hwf & Hc & Hseatless & Hjoin).
  cbn [fst].
  set (s := JoinPending.socketId k) in *.
  set (rid := room_id_of (JoinPending.meetingId k)) in *.
  assert (Hother : ∀ rid0 s0, s0 ≠ s →
            seated (mkManager
                      (JsMap.set rid
                         (Room.with_participants
                            (JsMap.set s
                               (Participant.mk s (JoinPending.userId k)
                                  (JoinPending.userName k)
                                  (JoinPending.isOrganizer k) joinedAt
                                  true true false)
                               (Room.participants room)) room)
                         (rooms (manager w)))
                      (JsMap.set s
                         (Entry.mk
                            (Participant.mk s (JoinPending.userId k)
                               (JoinPending.userName k)
                               (JoinPending.isOrganizer k) joinedAt
                               true true false) rid)
                         (participants (manager w)))) rid0 s0 →
            seated (manager w) rid0 s0).
  { intros rid0 s0 Hne (room0 & Hroom0 & Hseat0). cbn [rooms] in Hroom0.
    rewrite get_set in Hroom0.
    destruct (decide (rid = rid0)) as [<-|Hrid].
    - injection Hroom0 as <-. cbn in Hseat0.
      rewrite get_set_ne in Hseat0 by done. by exists room.
    - by exists room0. }
  split; [|split; [|split]].
  - maps_wf_by_lookup Hwf.
  - intros rid0 room0 s0 Hroom0 Hseat0. cbn [manager participants].
    rewrite get_set. destruct (decide (s = s0)) as [<-|Hne].
    + eexists. split; [done|]. cbn [Entry.roomId].
      cbn [manager rooms] in Hroom0. rewrite get_set in Hroom0.
      destruct (decide (rid = rid0)) as [|Hrid]; [done|].
      destruct (unindexed_seatless (manager w) s rid0 Hc Hnew).
      by exists room0.
    + destruct (Hother rid0 s0) as (r & Hr & Hs);
        [done|by exists room0|]. exact (Hc rid0 r s0 Hr Hs).
  - intros k' rid0 Hk' Hs. apply (Hseatless k' rid0 Hk'), Hother; [|done].
    by apply (proj1 (busy_0 _ _) Hidle).
  - intros k' Hk' Hj. destruct (Hjoin k' Hk' Hj) as [Hidx Hbusy].
    split; [|done]. cbn [manager participants]. rewrite get_set_ne; [done|].
    intros Heq. by apply (proj1 (busy_0 _ _) Hidle k').
Qed.

(** A join from the moment its lookup has settled up to its [await]. *)
Lemma handleJoinRoom_begin_pending_ok (w : World) (socket : SocketId)
    (meetingId : MeetingId) (userId : UserId) (userName : string)
    (env : JoinEnv.t) (l : list Suspended) :
  pending_ok (manager w) l →
  JsMap.get socket (participants (manager w)) = None →
  busy l socket = 0 →
  let r := handleJoinRoom_begin w socket meetingId userId userName env in
  pending_ok (manager r.1.1.1) (l ++ option_list (join_awaits <$> r.2)).
Proof.
  intros Hok Hnew Hidle. unfold handleJoinRoom_begin.
  destruct (JoinEnv.found env) as [[meeting|]|e];
    [|cbn; by rewrite app_nil_r..].
  destruct (negb _ && negb _); [cbn; by rewrite app_nil_r|].
  destruct (JsMap.get (room_id_of meetingId) (rooms (manager w)))
    as [room|] eqn:Hget.
  - pose proof (handleJoinRoom_seat_pending_ok w
                  (JoinPending.mk socket meetingId userId userName
                     (bool_decide (Meeting.organizer meeting = userId)))
                  (JoinEnv.joinedAt env) l Hok Hnew Hidle) as H.
    destruct (handleJoinRoom_seat _ _ _) as [[w' effs] thrown].
    cbn. by rewrite app_nil_r.
  - cbn. apply pending_ok_push_join; [|done..].
    eapply pending_ok_mono; [exact Hok|..].
    + destruct Hok as (Hwf & _). maps_wf_by_lookup Hwf.
    + intros rid s (room0 & Hroom0 & Hseat0). cbn [rooms] in Hroom0.
      rewrite get_set in Hroom0. destruct (decide _) as [|Hne].
      * injection Hroom0 as <-. by destruct Hseat0.
      * by exists room0.
    + done.
    + done.
Qed.

(** [endVideoCall]: the forced disconnects, then the deletion of the
    room. *)
Lemma force_disconnect_pending_ok (rid : RoomId) (l : list Suspended)
    (acc : World * list Effect * list Pending.t) (a : SocketId) :
  pending_ok (manager acc.1.1) (l ++ map teardown_awaits acc.2) →
  let r := force_disconnect rid acc a in
  pending_ok (manager r.1.1) (l ++ map teardown_awaits r.2).
Proof.
  destruct acc as [[w effs] pending]. cbn [fst snd]. intros Hok.
  unfold force_disconnect. case_bool_decide as Hconn; [|done].
  pose proof (removeParticipant_begin_pending_ok
                (mkWorld (manager w)
                   (io_close a (socket_leave a rid (io w)))) a _ Hok) as H.
  destruct (removeParticipant_begin _ a) as [[w' effs'] k].
  cbn [fst snd] in *. rewrite map_app, app_assoc. by destruct k.
Qed.

Lemma foldl_force_disconnect_pending_ok (rid : RoomId) (l : list Suspended)
    (ss : list SocketId) (acc : World * list Effect * list Pending.t) :
  pending_ok (manager acc.1.1) (l ++ map teardown_awaits acc.2) →
  let r := foldl (force_disconnect rid) acc ss in
  pending_ok (manager r.1.1) (l ++ map teardown_awaits r.2).
Proof.
  revert acc. induction ss as [|a ss IH]; intros acc Hok; [done|].
  cbn [foldl]. apply IH. by apply force_disconnect_pending_ok.
Qed.

Lemma endVideoCall_pending_ok (trim : string → string) (w : World)
    (meetingId : MeetingId) (userId : UserId) (userName : string)
    (found : Settled (option Meeting.t)) (nowIso : string)
    (saved : Settled unit) (l : list Suspended) :
  pending_ok (manager w) l →
  let r := endVideoCall trim w meetingId userId userName found nowIso saved in
  pending_ok (manager r.1.1.1) (l ++ map teardown_awaits r.2).
Proof.
  intros Hok. unfold endVideoCall.
  destruct found as [[meeting|]|e]; [|cbn; by rewrite app_nil_r..].
  destruct (bool_decide _); [cbn; by rewrite app_nil_r|].
  destruct (JsMap.get (room_id_of meetingId) (rooms (manager w)))
    as [room|] eqn:Hget.
  - pose proof (foldl_force_disconnect_pending_ok (room_id_of meetingId) l
                  (JsMap.keys (Room.participants room))
                  (w, io_to_emit (io w) (room_id_of meetingId)
                        (call_ended msg_call_ended userName), [])) as H.
    cbn [fst snd map] in H. rewrite app_nil_r in H. specialize (H Hok).
    destruct (foldl _ _ _) as [[w1 effs1] pending]. cbn [fst snd] in H.
    assert (H' : pending_ok
                   (mkManager (JsMap.delete (room_id_of meetingId)
                                            (rooms (manager w1)))
                              (participants (manager w1)))
                   (l ++ map teardown_awaits pending)).
    { eapply pending_ok_mono; [exact H|..].
      - destruct H as (Hwf & _). maps_wf_by_lookup Hwf.
      - intros rid s (room0 & Hroom0 & Hseat0). cbn [rooms] in Hroom0.
        rewrite get_delete in Hroom0. destruct (decide _); [done|].
        by exists room0.
      - done.
      - done. }
    by destruct saved.
  - destruct saved; cbn; by rewrite app_nil_r.
Qed.

(** Every step keeps the invariant. *)
Lemma step_sys_ok (trim : string → string) (σ : Sys) (a : Action) :
  first_join σ a → sys_ok σ → sys_ok (step trim σ a).1.
Proof.
  unfold sys_ok. destruct σ as [w l]. cbn [world awaiting].
  destruct a as [ev|i outcome now|meetingId userId userName found nowIso saved].
  - destruct ev; cbn [first_join step world awaiting]; intros Hfirst Hok;
      try exact Hok.
    + destruct Hfirst as [Hnew Hidle].
      pose proof (handleJoinRoom_begin_pending_ok w socket meetingId userId
                    userName env l Hok Hnew
                    (proj2 (busy_0 _ _) Hidle)) as H.
      by destruct (handleJoinRoom_begin _ _ _ _ _ _)
        as [[[w' effs] thrown] k].
    + cbn [handle]. rewrite handleToggleAudio_shape.
      pose proof (update_own_flag_pending_ok w socket
                    (Participant.with_audio audio)
                    (λ _, participant_audio_toggle socket audio) l Hok) as H.
      by destruct (update_own_flag _ _ _ _).
    + cbn [handle]. rewrite handleToggleVideo_shape.
      pose proof (update_own_flag_pending_ok w socket
                    (Participant.with_video video)
                    (λ _, participant_video_toggle socket video) l Hok) as H.
      by destruct (update_own_flag _ _ _ _).
    + cbn [handle]. rewrite handleStartScreenShare_shape.
      pose proof (update_own_flag_pending_ok w socket
                    (Participant.with_isScreenSharing true)
                    (λ e, screen_share_started socket
                            (Participant.userName (Entry.participant e)))
                    l Hok) as H.
      by destruct (update_own_flag _ _ _ _).
    + cbn [handle]. rewrite handleStopScreenShare_shape.
      pose proof (update_own_flag_pending_ok w socket
                    (Participant.with_isScreenSharing false)
                    (λ _, screen_share_stopped socket) l Hok) as H.
      by destruct (update_own_flag _ _ _ _).
    + cbn [handle].
      pose proof (handleChatMessage_pending_ok trim w socket message uuid now
                    l Hok) as H.
      by destruct (handleChatMessage _ _ _ _ _ _).
    + pose proof (removeParticipant_begin_pending_ok w socket l Hok) as H.
      by destruct (removeParticipant_begin _ _) as [[w' effs] k].
    + pose proof (removeParticipant_begin_pending_ok
                    (mkWorld (manager w) (io_close socket (io w))) socket l
                    Hok) as H.
      by destruct (removeParticipant_begin _ _) as [[w' effs] k].
  - intros _ Hok. cbn [step world awaiting].
    destruct (l !! i) as [[k|k]|] eqn:Hi; [| |done].
    + destruct (pending_ok_pop _ _ _ _ Hok Hi) as [Hpop Hidle].
      specialize (Hidle eq_refl). cbn [socket_of] in Hidle.
      assert (Hnew : JsMap.get (JoinPending.socketId k)
                       (participants (manager w)) = None).
      { destruct Hok as (_ & _ & _ & Hjoin).
        by apply (Hjoin (join_awaits k)); [eapply list_elem_of_lookup_2|]. }
      unfold handleJoinRoom_resume. destruct outcome as [[]|e]; [|done].
      pose proof (handleJoinRoom_seat_pending_ok w k now _ Hpop Hnew Hidle)
        as H.
      by destruct (handleJoinRoom_seat _ _ _) as [[w' effs] thrown].
    + destruct (pending_ok_pop _ _ _ _ Hok Hi) as [Hpop _]. cbn [fst world].
      apply removeParticipant_resume_pending_ok; [done|].
      intros rid. destruct Hok as (_ & _ & Hseatless & _).
      apply (Hseatless (teardown_awaits k)).
      by eapply list_elem_of_lookup_2.
  - intros _ Hok. cbn [step world awaiting].
    pose proof (endVideoCall_pending_ok trim w meetingId userId userName found
                  nowIso saved l Hok) as H.
    by destruct (endVideoCall _ _ _ _ _ _ _ _)
      as [[[w' effs] response] pending].
Qed.

Lemma exec_sys_ok (trim : string → string) (acts : list Action) (σ : Sys) :
  first_joins trim σ acts → sys_ok σ → sys_ok (exec trim σ acts).1.
Proof.
  revert σ. induction acts as [|a acts IH]; intros σ; [done|].
  cbn [first_joins exec]. intros [Hfirst Hrest] Hok.
  pose proof (step_sys_ok trim σ a Hfirst Hok) as H1.
  specialize (IH (step trim σ a).1 Hrest H1).
  destruct (step trim σ a) as [σ1 effs1]. cbn [fst] in *.
  by destruct (exec trim σ1 acts) as [σ2 effs2].
Qed.

Lemma sys_ok_initial : sys_ok (mkSys initial []).
Proof.
  split; [apply maps_wf_constructor|]. split; [|split].
  - by intros rid room s.
  - by intros k rid Hk%elem_of_nil.
  - by intros k Hk%elem_of_nil.
Qed.

(** ** The statistics *)

(** The seats are no more than the entries of the index. *)
Lemma seats_within_index (m : Manager) :
  maps_wf m → index_complete m →
  length (seated_sockets (rooms m)) ≤ JsMap.size (participants m).
Proof.
  intros (Hrooms & Hidx & Hseats) Hc.
  unfold JsMap.size. rewrite <- (length_map fst).
  change (map fst (participants m)) with (JsMap.keys (participants m)).
  apply submseteq_length, NoDup_submseteq.
  - apply NoDup_seated_sockets; [done|..].
    + intros rid room Hin. apply (Hseats rid). by apply elem_get.
    + intros rid rid' room room' s Hin Hin' Hs Hs'.
      destruct (Hc rid room s) as (e & He & <-);
        [by apply elem_get|by apply key_get|].
      destruct (Hc rid' room' s) as (e' & He' & <-);
        [by apply elem_get|by apply key_get|].
      congruence.
  - intros s (rid & room & Hin & Hs)%elem_of_seated_sockets.
    destruct (Hc rid room s) as (e & He & _);
      [by apply elem_get|by apply key_get|].
    by eapply get_Some_key.
Qed.

(** What [getRoomStats] reports of any state. *)
Lemma getRoomStats_rows (m : Manager) (now : Millis) :
  let stats := getRoomStats m now in
  Stats.totalRooms stats = JsMap.size (rooms m)
  ∧ Stats.totalParticipants stats = JsMap.size (participants m)
  ∧ map RoomStats.roomId (Stats.rooms stats) = JsMap.keys (rooms m)
  ∧ sum_list (map RoomStats.participantCount (Stats.rooms stats))
    = length (seated_sockets (rooms m))
  ∧ ∀ rs, rs ∈ Stats.rooms stats →
      RoomStats.participantCount rs = length (RoomStats.participants rs)
      ∧ RoomStats.duration rs = (now - RoomStats.startTime rs)%Z
      ∧ ∃ room, (RoomStats.roomId rs, room) ∈ rooms m
                ∧ RoomStats.participantCount rs
                  = JsMap.size (Room.participants room)
                ∧ RoomStats.participants rs
                  = map (λ p, ParticipantStats.mk
                                (Participant.userName p)
                                (Participant.joinedAt p)
                                (Participant.audio p) (Participant.video p)
                                (Participant.isScreenSharing p))
                        (JsMap.values (Room.participants room)).
Proof.
  unfold getRoomStats.
  cbn [Stats.totalRooms Stats.totalParticipants Stats.rooms].
  unfold JsMap.entries. split; [done|]. split; [done|]. split.
  { rewrite map_map. apply map_ext. by intros [rid room]. }
  split.
  { rewrite length_seated_sockets, map_map. f_equal. apply map_ext.
    by intros [rid room]. }
  intros rs ([rid room] & -> & Hin)%list_elem_of_fmap. cbn.
  split; [unfold JsMap.size, JsMap.values; by rewrite !length_map|].
  split; [done|]. by exists room.
Qed.

(** X11: [getActiveCallStats] refuses with 403 every role other than
    'entrepreneur' and 'investor', and sends these what [getRoomStats]
    returns.  In every state that the coordinator reaches from its start,
    whatever the interleaving of socket events, settled writes and calls
    of [endVideoCall], no socket joining before its earlier handlers are
    done: totalRooms is the number of rooms listed, a room id is listed
    once, each room's participantCount is the length of its participants
    list and its duration is now minus its start time, and the sum of the
    rooms' participantCount is at most totalParticipants.  The two are
    equal when the index is consistent ([index_ok]), as it is when every
    awaited write settles before the next event is handled. *)
Theorem call_stats_count_seats (trim : string → string)
    (acts : list Action) (now : Millis) (role : string) :
  first_joins trim (mkSys initial []) acts →
  let m := manager (world (exec trim (mkSys initial []) acts).1) in
  match getActiveCallStats m role now with
  | stats_refused code message =>
      (role ∉ ["entrepreneur"; "investor"])
      ∧ code = 403 ∧ message = "Access denied"
  | stats_sent stats =>
      role ∈ ["entrepreneur"; "investor"]
      ∧ stats = getRoomStats m now
      ∧ Stats.totalRooms stats = JsMap.size (rooms m)
      ∧ Stats.totalParticipants stats = JsMap.size (participants m)
      ∧ Stats.totalRooms stats = length (Stats.rooms stats)
      ∧ map RoomStats.roomId (Stats.rooms stats) = JsMap.keys (rooms m)
      ∧ NoDup (map RoomStats.roomId (Stats.rooms stats))
      ∧ sum_list (map RoomStats.participantCount (Stats.rooms stats))
        ≤ Stats.totalParticipants stats
      ∧ (index_ok m →
         Stats.totalParticipants stats
         = sum_list (map RoomStats.participantCount (Stats.rooms stats)))
      ∧ (∀ evs, admissible_run trim initial evs →
                acts = uninterrupted evs → index_ok m)
      ∧ ∀ rs, rs ∈ Stats.rooms stats →
          RoomStats.participantCount rs = length (RoomStats.participants rs)
          ∧ RoomStats.duration rs = (now - RoomStats.startTime rs)%Z
  end.
Proof.
  intros Hfirst m.
  pose proof (exec_sys_ok trim acts _ Hfirst sys_ok_initial)
    as (Hwf & Hc & _).
  fold m in Hwf, Hc. unfold getActiveCallStats.
  case_bool_decide as Hrole; cbn [negb]; [|done].
  destruct (getRoomStats_rows m now)
    as (Hrooms & Hparts & Hids & Hsum & Hrows).
  cbv zeta in *.
  split; [done|]. split; [done|]. split; [done|]. split; [done|].
  split; [unfold getRoomStats; cbn; unfold JsMap.entries, JsMap.size;
          by rewrite length_map|].
  split; [done|]. split; [rewrite Hids; apply Hwf|].
  split; [rewrite Hsum, Hparts; by apply seats_within_index|].
  split; [intros Hok; by apply getRoomStats_totals|].
  split.
  { intros evs Hadm ->. unfold m. rewrite exec_uninterrupted. cbn [fst world].
    apply index_ok_halves.
    apply (run_world_ok trim evs initial Hadm world_ok_initial). }
  intros rs Hrs. destruct (Hrows rs Hrs) as (H1 & H2 & _). by split.
Qed.

(** ** One meeting: the room and the status writes *)

Lemma seated_seat_of (m : Manager) (rid : RoomId) (s : SocketId) :
  seated m rid s ↔ is_Some (seat_of m rid s).
Proof.
  unfold seated, seat_of. split.
  - intros (room & -> & Hs). done.
  - destruct (JsMap.get rid (rooms m)) as [room|]; [eauto|by intros [? ?]].
Qed.

(** [one_room] looks at the seats, at the rooms that exist and at the room
    each index entry names, and at nothing else. *)
Lemma one_room_same_seats (rid : RoomId) (m m' : Manager) :
  one_room rid m →
  (∀ s, Entry.roomId <$> JsMap.get s (participants m')
        = Entry.roomId <$> JsMap.get s (participants m)) →
  (∀ rid0 s, is_Some (seat_of m' rid0 s) ↔ is_Some (seat_of m rid0 s)) →
  (∀ rid0, is_Some (JsMap.get rid0 (rooms m'))
           ↔ is_Some (JsMap.get rid0 (rooms m))) →
  one_room rid m'.
Proof.
  intros (Ha & Hb & Hc) Hidx Hseat Hrooms. split; [|split].
  - intros rid' room' Hr'.
    destruct (proj1 (Hrooms rid')) as [room Hr]; [eauto|].
    destruct (Ha _ _ Hr) as [-> [s Hs]]. split; [done|]. exists s.
    assert (is_Some (seat_of m' rid s)) as Hs'.
    { apply Hseat. unfold seat_of. by rewrite Hr. }
    unfold seat_of in Hs'. by rewrite Hr' in Hs'.
  - intros s e He. specialize (Hidx s). rewrite He in Hidx. cbn in Hidx.
    destruct (JsMap.get s (participants m)) as [e0|] eqn:He0; [|done].
    injection Hidx as Hidx. destruct (Hb _ _ He0) as [Hrid Hs].
    split; [congruence|]. apply seated_seat_of, Hseat. by apply seated_seat_of.
  - intros s Hs%seated_seat_of%Hseat%seated_seat_of.
    destruct (Hc s Hs) as [e He]. specialize (Hidx s). rewrite He in Hidx.
    by destruct (JsMap.get s (participants m')).
Qed.

Lemma update_own_flag_one_room (rid : RoomId) (w : World) (socket : SocketId)
    (f : Participant.t → Participant.t) (notice : Entry.t → ServerEvent) :
  one_room rid (manager w) →
  one_room rid (manager (update_own_flag w socket f notice).1).
Proof.
  intros Hone. unfold update_own_flag.
  destruct (JsMap.get socket _) as [entry|] eqn:He; [|done].
  destruct (JsMap.get (Entry.roomId entry) _) as [room|] eqn:Hroom; [|done].
  destruct (JsMap.get socket (Room.participants room)) as [p|] eqn:Hp;
    [|done].
  apply (one_room_same_seats rid (manager w)); [done|..];
    cbn [fst snd manager rooms participants].
  - intros s. rewrite get_set.
    destruct (decide (socket = s)) as [<-|]; [by rewrite He|done].
  - intros rid0 s. unfold seat_of. cbn [rooms]. rewrite get_set.
    destruct (decide (Entry.roomId entry = rid0)) as [<-|]; [|done].
    rewrite Hroom. cbn [Room.participants Room.with_participants].
    rewrite get_set. destruct (decide (socket = s)) as [<-|]; [|done].
    rewrite Hp. split; eauto.
  - intros rid0. rewrite get_set.
    destruct (decide (Entry.roomId entry = rid0)) as [<-|]; [|done].
    rewrite Hroom. split; eauto.
Qed.

Lemma handleChatMessage_one_room (trim : string → string) (rid : RoomId)
    (w : World) (socket : SocketId) (message uuid : string) (now : Millis) :
  one_room rid (manager w) →
  one_room rid (manager (handleChatMessage trim w socket message uuid now).1).
Proof.
  intros Hone. unfold handleChatMessage.
  destruct (JsMap.get socket _) as [entry|] eqn:He; [|done].
  destruct (bool_decide _); [done|].
  destruct (JsMap.get (Entry.roomId entry) _) as [room|] eqn:Hroom; [|done].
  apply (one_room_same_seats rid (manager w)); [done|..];
    cbn [fst snd manager rooms participants].
  - done.
  - intros rid0 s. unfold seat_of. cbn [rooms]. rewrite get_set.
    destruct (decide (Entry.roomId entry = rid0)) as [<-|]; [|done].
    by rewrite Hroom.
  - intros rid0. rewrite get_set.
    destruct (decide (Entry.roomId entry = rid0)) as [<-|]; [|done].
    rewrite Hroom. split; eauto.
Qed.

Lemma handle_one_room (trim : string → string) (meetingId : MeetingId)
    (w : World) (ev : ClientEvent) :
  serves_only meetingId ev →
  one_room (room_id_of meetingId) (manager w) →
  one_room (room_id_of meetingId) (manager (handle trim w ev).1).
Proof.
  intros Hev Hone. destruct ev; cbn [handle serves_only] in *; try done.
  - destruct Hev as [-> Hres]. unfold join_room_listener.
    pose proof (handleJoinRoom_one_room w socket meetingId userId userName
                  env Hres Hone) as H.
    by destruct (handleJoinRoom _ _ _ _ _ _) as [[w' effs] [e|]].
  - rewrite handleToggleAudio_shape. by apply update_own_flag_one_room.
  - rewrite handleToggleVideo_shape. by apply update_own_flag_one_room.
  - rewrite handleStartScreenShare_shape. by apply update_own_flag_one_room.
  - rewrite handleStopScreenShare_shape. by apply update_own_flag_one_room.
  - by apply handleChatMessage_one_room.
  - by apply removeParticipant_one_room.
  - by apply (removeParticipant_one_room _ (mkWorld _ _)).
Qed.

Lemma alternates_app (present : bool) (l1 l2 : list Effect) :
  alternates present (l1 ++ l2)
  = alternates present l1 ≫= λ b, alternates b l2.
Proof.
  revert present. induction l1 as [|e l1 IH]; intros present; [done|].
  cbn [app alternates].
  destruct e as [| mid [] [note|] | |]; try done; destruct present; auto.
Qed.

Lemma update_own_flag_writes (w : World) (socket : SocketId)
    (f : Participant.t → Participant.t) (notice : Entry.t → ServerEvent) :
  meeting_writes (update_own_flag w socket f notice).2 = [].
Proof.
  unfold update_own_flag.
  destruct (JsMap.get socket _) as [entry|]; [|done].
  destruct (JsMap.get (Entry.roomId entry) _) as [room|]; [|done].
  destruct (JsMap.get socket (Room.participants room)); [|done].
  apply meeting_writes_socket_to_emit.
Qed.

Lemma has_same {V} (k : string) (m m' : JsMap.t V) :
  (is_Some (JsMap.get k m') ↔ is_Some (JsMap.get k m)) →
  JsMap.has k m' = JsMap.has k m.
Proof.
  unfold JsMap.has.
  destruct (JsMap.get k m), (JsMap.get k m'); try done.
  - intros [_ H]. by destruct H; eauto.
  - intros [H _]. by destruct H; eauto.
Qed.

Lemma update_own_flag_has (rid : RoomId) (w : World) (socket : SocketId)
    (f : Participant.t → Participant.t) (notice : Entry.t → ServerEvent) :
  JsMap.has rid (rooms (manager (update_own_flag w socket f notice).1))
  = JsMap.has rid (rooms (manager w)).
Proof.
  apply has_same. unfold update_own_flag.
  destruct (JsMap.get socket _) as [entry|]; [|done].
  destruct (JsMap.get (Entry.roomId entry) _) as [room|] eqn:Hroom; [|done].
  destruct (JsMap.get socket (Room.participants room)); [|done].
  cbn [fst manager rooms]. rewrite get_set.
  destruct (decide (Entry.roomId entry = rid)) as [<-|]; [|done].
  rewrite Hroom. split; eauto.
Qed.

(** One event: its status writes alternate with the presence of the
    room. *)
Lemma handle_alternates (trim : string → string) (meetingId : MeetingId)
    (w : World) (ev : ClientEvent) :
  serves_only meetingId ev →
  one_room (room_id_of meetingId) (manager w) →
  alternates (JsMap.has (room_id_of meetingId) (rooms (manager w)))
             (meeting_writes (handle trim w ev).2)
  = Some (JsMap.has (room_id_of meetingId)
                    (rooms (manager (handle trim w ev).1))).
Proof.
  intros Hev Hone.
  assert (Hleave : ∀ (w0 : World) socket updated,
            manager w0 = manager w →
            alternates (JsMap.has (room_id_of meetingId) (rooms (manager w)))
              (meeting_writes (removeParticipant w0 socket updated).1.2)
            = Some (JsMap.has (room_id_of meetingId)
                      (rooms (manager
                                (removeParticipant w0 socket updated).1.1)))).
  { intros w0 socket updated Hm.
    destruct (JsMap.get socket (participants (manager w0))) as [entry|]
      eqn:He.
    2:{ rewrite removeParticipant_unregistered by done. cbn [fst snd].
        by rewrite Hm. }
    destruct Hone as (_ & Hb & _). rewrite <- Hm in Hb.
    destruct (Hb _ _ He) as [Hrid (room & Hr & _)].
    pose proof (leave_tears_down_once w0 socket updated entry room He) as H.
    rewrite Hrid in H. specialize (H Hr). rewrite <- Hm.
    destruct (removeParticipant w0 socket updated) as [[w' effs] thrown].
    cbn [fst snd]. unfold JsMap.has. rewrite Hr.
    destruct (decide _); destruct H as [Hroom ->].
    - by rewrite Hroom.
    - by destruct Hroom as [r ->]. }
  destruct ev; cbn [handle serves_only] in *.
  - done.
  - destruct Hev as [-> Hres]. unfold join_room_listener.
    destruct (handleJoinRoom w socket meetingId userId userName env)
      as [[w' effs] [e|]] eqn:Hjoin; cbn [fst snd].
    + assert (w' = w ∧ effs = []) as [-> ->].
      { unfold handleJoinRoom in Hjoin.
        destruct (JoinEnv.found env) as [[meeting|]|e0];
          [|by injection Hjoin as <- <-..].
        destruct (negb _ && negb _); [by injection Hjoin as <- <-|].
        rewrite Hres in Hjoin.
        by destruct (JsMap.get (room_id_of meetingId) (rooms (manager w))). }
      done.
    + destruct (join_marks_ongoing_once _ _ _ _ _ _ _ _ Hjoin) as [[r Hr] ->].
      assert (JsMap.has (room_id_of meetingId) (rooms (manager w')) = true)
        as -> by (unfold JsMap.has; by rewrite Hr).
      by destruct (JsMap.has _ _).
  - unfold handleOffer. cbn. by rewrite meeting_writes_socket_to_emit.
  - unfold handleAnswer. cbn. by rewrite meeting_writes_socket_to_emit.
  - unfold handleIceCandidate. cbn. by rewrite meeting_writes_socket_to_emit.
  - rewrite handleToggleAudio_shape.
    by rewrite update_own_flag_writes, update_own_flag_has.
  - rewrite handleToggleVideo_shape.
    by rewrite update_own_flag_writes, update_own_flag_has.
  - rewrite handleStartScreenShare_shape.
    by rewrite update_own_flag_writes, update_own_flag_has.
  - rewrite handleStopScreenShare_shape.
    by rewrite update_own_flag_writes, update_own_flag_has.
  - unfold handleChatMessage.
    destruct (JsMap.get socket _) as [entry|]; [|done].
    destruct (bool_decide _); [done|].
    destruct (JsMap.get (Entry.roomId entry) _) as [room|] eqn:Hroom; [|done].
    cbn [fst snd manager rooms]. unfold io_to_emit.
    rewrite meeting_writes_deliver. cbn. f_equal. symmetry.
    apply has_same. rewrite get_set.
    destruct (decide (Entry.roomId entry = room_id_of meetingId)) as [<-|];
      [|done].
    rewrite Hroom. split; eauto.
  - unfold handleLeaveRoom. by apply Hleave.
  - unfold handleDisconnect. by apply (Hleave (mkWorld _ _)).
Qed.

(** The status writes of one meeting when events are handled one after
    the other, each from start to end. *)
Lemma run_status_writes_alternate (trim : string → string)
    (meetingId : MeetingId) (evs : list ClientEvent) :
  Forall (serves_only meetingId) evs →
  let '(w, effs) := run trim initial evs in
  let m := manager w in
  alternates false (meeting_writes effs)
  = Some (JsMap.has (room_id_of meetingId) (rooms m))
  ∧ (JsMap.has (room_id_of meetingId) (rooms m) = true
     ↔ 0 < JsMap.size (participants m))
  ∧ (∀ rid room, JsMap.get rid (rooms m) = Some room →
       rid = room_id_of meetingId ∧ 0 < JsMap.size (Room.participants room)).
Proof.
  intros Hall.
  assert (Hgen : ∀ w, one_room (room_id_of meetingId) (manager w) →
            let r := run trim w evs in
            alternates (JsMap.has (room_id_of meetingId) (rooms (manager w)))
                       (meeting_writes r.2)
            = Some (JsMap.has (room_id_of meetingId) (rooms (manager r.1)))
            ∧ one_room (room_id_of meetingId) (manager r.1)).
  { induction evs as [|ev evs IH]; intros w Hone; [done|].
    apply Forall_cons in Hall as [Hev Hall]. cbn [run].
    pose proof (handle_alternates trim meetingId w ev Hev Hone) as Halt.
    pose proof (handle_one_room trim meetingId w ev Hev Hone) as Hone1.
    destruct (handle trim w ev) as [w1 effs1]. cbn [fst snd] in *.
    destruct (IH Hall w1 Hone1) as [Halt2 Hone2].
    destruct (run trim w1 evs) as [w2 effs2]. cbn [fst snd] in *.
    split; [|done]. rewrite meeting_writes_app, alternates_app, Halt.
    exact Halt2. }
  destruct (Hgen initial (one_room_constructor _)) as [Halt (Ha & Hb & Hc)].
  destruct (run trim initial evs) as [w effs]. cbn [fst snd] in *.
  assert (Hpos : ∀ V (l : JsMap.t V) k, is_Some (JsMap.get k l) →
                   0 < JsMap.size l).
  { intros V [|x l] k [v Hv]; [done|]. cbn. lia. }
  split; [exact Halt|]. split.
  - rewrite has_get. split.
    + intros [room Hr]. destruct (Ha _ _ Hr) as [_ [s Hs]].
      apply (Hpos _ _ s), Hc. by exists room.
    + intros Hsize.
      destruct (participants (manager w)) as [|[s e] rest] eqn:Hp;
        [cbn in Hsize; lia|].
      destruct (Hb s e) as [_ (room & Hr & _)].
      { cbn. by rewrite decide_True. }
      by exists room.
  - intros rid room Hr. destruct (Ha _ _ Hr) as [-> [s Hs]].
    split; [done|]. by apply (Hpos _ _ s).
Qed.

(** X15: with one meeting served and no status write of a room creation
    rejected, whatever the events (joins of that meeting, chat, toggles,
    signals, leaves, disconnects), when every awaited write settles before
    the next event is handled: nothing is left suspended; the status
    writes issued are, in order, 'ongoing', 'completed' with a note,
    'ongoing', and so on, starting with 'ongoing'; the room is in the
    registry at the end exactly when the last write was 'ongoing', which
    is exactly when the index holds a socket; no other room is there, and
    the room is not without a participant.  (With events handled during
    an [await] the writes need not alternate: [two_completed_in_a_row].) *)
Theorem uninterrupted_status_writes_alternate (trim : string → string)
    (meetingId : MeetingId) (evs : list ClientEvent) :
  Forall (serves_only meetingId) evs →
  let '(σ, effs) := exec trim (mkSys initial []) (uninterrupted evs) in
  let m := manager (world σ) in
  awaiting σ = []
  ∧ alternates false (meeting_writes effs)
    = Some (JsMap.has (room_id_of meetingId) (rooms m))
  ∧ (JsMap.has (room_id_of meetingId) (rooms m) = true
     ↔ 0 < JsMap.size (participants m))
  ∧ (∀ rid room, JsMap.get rid (rooms m) = Some room →
       rid = room_id_of meetingId ∧ 0 < JsMap.size (Room.participants room)).
Proof.
  intros Hall. rewrite exec_uninterrupted.
  pose proof (run_status_writes_alternate trim meetingId evs Hall) as H.
  destruct (run trim initial evs) as [w effs]. cbn [fst snd world awaiting].
  by split.
Qed.

(** With an interleaving the writes need not alternate: two 'completed' in
    a row. *)
Example two_completed_in_a_row :
  meeting_writes (exec ascii_trim (mkSys lobby []) two_teardowns).2
  = [ FindByIdAndUpdate "M" ongoing None;
      FindByIdAndUpdate "M" completed (Some "Meeting completed");
      FindByIdAndUpdate "M" completed (Some "Meeting completed") ].
Proof. reflexivity. Qed.

(** ** Who is told of a join and of a leave *)

Lemma elem_of_socket_to_emit (i : Io) (socket : SocketId) (group : string)
    (ev : ServerEvent) (e : Effect) :
  e ∈ socket_to_emit i socket group ev
  ↔ ∃ s, e = Deliver s ev ∧ s ≠ socket ∧ s ∈ members i group.
Proof.
  unfold socket_to_emit. rewrite list_elem_of_fmap. split.
  - intros (s & -> & Hs%list_elem_of_filter). by exists s.
  - intros (s & -> & Hs). exists s. split; [done|].
    by apply list_elem_of_filter.
Qed.

(** X16: a successful join sends 'user-joined' to the members of the room's
    broadcast group other than the joining socket, and to nobody else;
    [removeParticipant] for a registered socket whose room exists sends
    'user-left', with the name registered, to the members of the group
    other than the leaving socket, and to nobody else. *)
Theorem join_and_leave_notify_the_others (w : World) (socket : SocketId) :
  (∀ (w' : World) (meetingId : MeetingId) (userId : UserId)
     (userName : string) (env : JoinEnv.t) (effs : list Effect),
     handleJoinRoom w socket meetingId userId userName env
     = (w', effs, None) →
     ∃ isOrganizer,
       ∀ s, Deliver s (user_joined socket userId userName isOrganizer) ∈ effs
            ↔ s ≠ socket ∧ s ∈ members (io w) (room_id_of meetingId))
  ∧ (∀ (entry : Entry.t) (room : Room.t) (updated : Settled unit)
       (s : SocketId),
       JsMap.get socket (participants (manager w)) = Some entry →
       JsMap.get (Entry.roomId entry) (rooms (manager w)) = Some room →
       Deliver s (user_left socket
                    (Participant.userName (Entry.participant entry)))
         ∈ (removeParticipant w socket updated).1.2
       ↔ s ≠ socket ∧ s ∈ members (io w) (Entry.roomId entry)).
Proof.
  split.
  - intros w' meetingId userId userName env effs Hjoin.
    apply handleJoinRoom_success in Hjoin.
    destruct Hjoin as (meeting & room & created & _ & Hcase & _ & _ & Hio
                       & ->).
    cbv zeta in *. eexists. intros s.
    assert (Hmembers : s ≠ socket →
              s ∈ members (io w') (room_id_of meetingId)
              ↔ s ∈ members (io w) (room_id_of meetingId)).
    { intros Hs. rewrite Hio. unfold socket_join.
      rewrite members_add_member.
      destruct (decide (room_id_of meetingId = room_id_of meetingId));
        [|done].
      destruct (bool_decide (socket ∈ _)); [done|].
      rewrite elem_of_app, list_elem_of_singleton. tauto. }
    split.
    + intros [Hin|[Hin|Hin]%elem_of_app]%elem_of_app.
      * destruct (JsMap.get (room_id_of meetingId) (rooms (manager w)));
          destruct Hcase as [_ ->]; [by apply elem_of_nil in Hin|].
        by apply list_elem_of_singleton in Hin.
      * apply elem_of_socket_to_emit in Hin as (x & [= ->] & Hx & Hmem).
        split; [done|]. by apply Hmembers.
      * by apply list_elem_of_singleton in Hin.
    + intros [Hs Hmem]. apply elem_of_app. right.
      apply elem_of_app. left. apply elem_of_socket_to_emit.
      exists s. split; [done|]. split; [done|]. by apply Hmembers.
  - intros entry room updated s He Hr.
    rewrite (removeParticipant_settled w socket updated (Resolved ())).
    unfold removeParticipant, removeParticipant_begin. rewrite He, Hr.
    destruct (decide _); cbn [fst snd removeParticipant_resume].
    + rewrite elem_of_app, elem_of_socket_to_emit, list_elem_of_singleton.
      split.
      * intros [(x & [= ->] & Hx)|[=]]. done.
      * intros Hs. left. by exists s.
    + rewrite elem_of_socket_to_emit. split.
      * intros (x & [= ->] & Hx). done.
      * intros Hs. by exists s.
Qed.

(** ** Permissions on a document *)

Lemma js_ge_trans (a : option nat) (x y : nat) :
  y ≤ x → js_ge a x = true → js_ge a y = true.
Proof.
  destruct a as [n|]; [|done]. cbn. intros Hle Hx%bool_decide_eq_true.
  apply bool_decide_eq_true. lia.
Qed.

Lemma hasPermission_weaken (doc : Document.t) (userId : UserId)
    (p q : Level.t) :
  Level.number q ≤ Level.number p →
  hasPermission doc userId p = true → hasPermission doc userId q = true.
Proof.
  intros Hle. unfold hasPermission. destruct (bool_decide _); [done|].
  destruct (List.find _ _) as [au|]; [|done]. by apply js_ge_trans.
Qed.

Lemma find_user_None (userId : UserId) (aus : list AssociatedUser.t) :
  userId ∉ map AssociatedUser.user aus →
  List.find (λ au, bool_decide (AssociatedUser.user au = userId)) aus = None.
Proof.
  induction aus as [|au aus IH]; [done|]. cbn [map List.find].
  intros [Hne Hrest]%not_elem_of_cons.
  rewrite bool_decide_eq_false_2 by done. by apply IH.
Qed.


Lemma find_app_None {A} (f : A → bool) (l l' : list A) :
  List.find f l = None → List.find f (l ++ l') = List.find f l'.
Proof.
  induction l as [|a l IH]; [done|]. cbn. by destruct (f a).
Qed.


(** X17: [hasPermission], on a document that holds its references as
    ids: the uploader has every permission; a user who is neither the
    uploader nor among the associated users has none, public document or
    not; for another user the first entry of [associatedUsers] with that
    user decides: an entry 'view' gives view only, 'edit' gives view and
    edit, 'sign' gives all three, and an entry that holds another string
    gives nothing.  So who may sign may edit, and who may edit may
    view. *)
Theorem permission_levels_are_ordered (doc : Document.t) (userId : UserId) :
  (hasPermission doc userId Level.sign = true →
   hasPermission doc userId Level.edit = true)
  ∧ (hasPermission doc userId Level.edit = true →
     hasPermission doc userId Level.view = true)
  ∧ (∀ p, hasPermission doc (Document.uploadedBy doc) p = true)
  ∧ (Document.uploadedBy doc ≠ userId →
     userId ∉ map AssociatedUser.user (Document.associatedUsers doc) →
     ∀ p, hasPermission doc userId p = false)
  ∧ (∀ before au after,
       Document.uploadedBy doc ≠ userId →
       Document.associatedUsers doc = before ++ au :: after →
       userId ∉ map AssociatedUser.user before →
       AssociatedUser.user au = userId →
       let may p := hasPermission doc userId p in
       let held := AssociatedUser.permission au in
       (held = "view" →
        may Level.view = true ∧ may Level.edit = false
        ∧ may Level.sign = false)
       ∧ (held = "edit" →
          may Level.view = true ∧ may Level.edit = true
          ∧ may Level.sign = false)
       ∧ (held = "sign" →
          may Level.view = true ∧ may Level.edit = true
          ∧ may Level.sign = true)
       ∧ (held ∉ ["view"; "edit"; "sign"] → ∀ p, may p = false)).
Proof.
  split.
  { apply (hasPermission_weaken doc userId Level.sign Level.edit). cbn. lia. }
  split.
  { apply (hasPermission_weaken doc userId Level.edit Level.view). cbn. lia. }
  split.
  { intros p. unfold hasPermission. by rewrite bool_decide_eq_true_2. }
  split.
  { intros Hown Hnone p. unfold hasPermission.
    rewrite bool_decide_eq_false_2 by done. by rewrite find_user_None. }
  intros before au after Hown Hsplit Hbefore Hau may held.
  assert (Hmay : ∀ p, may p = js_ge (permissionLevels held) (Level.number p)).
  { intros p. unfold may, hasPermission.
    rewrite bool_decide_eq_false_2 by done. rewrite Hsplit.
    rewrite find_app_None by (by apply find_user_None).
    cbn [List.find]. by rewrite bool_decide_eq_true_2. }
  split; [|split; [|split]].
  - intros Hheld. rewrite !Hmay, Hheld. by vm_compute.
  - intros Hheld. rewrite !Hmay, Hheld. by vm_compute.
  - intros Hheld. rewrite !Hmay, Hheld. by vm_compute.
  - intros Hheld p. rewrite Hmay. unfold permissionLevels.
    repeat (destruct (decide _) as [Heq|_];
            [destruct Hheld; rewrite Heq; compute_done|]).
    done.
Qed.

(** ** The signature status *)

Lemma filter_partition_length {A} (P : A → Prop) `{!∀ x, Decision (P x)}
    (l : list A) :
  length (filter P l) + length (filter (λ x, ¬ P x) l) = length l.
Proof.
  induction l as [|a l IH]; [done|].
  destruct (decide (P a)).
  - rewrite filter_cons_True, filter_cons_False by auto. cbn. lia.
  - rewrite filter_cons_False, filter_cons_True by auto. cbn. lia.
Qed.

Lemma NoDup_map_filter {A B} (g : A → B) (P : A → Prop)
    `{!∀ x, Decision (P x)} (l : list A) :
  NoDup (map g l) → NoDup (map g (filter P l)).
Proof.
  induction l as [|a l IH]; [done|]. cbn [map].
  intros [Ha Hl]%NoDup_cons. destruct (decide (P a)).
  - rewrite filter_cons_True by done. cbn [map]. apply NoDup_cons.
    split; [|by apply IH].
    intros (x & Hx & [_ Hin]%list_elem_of_filter)%list_elem_of_fmap.
    apply Ha. apply list_elem_of_fmap. by exists x.
  - rewrite filter_cons_False by done. by apply IH.
Qed.

Lemma has_signed_spec (sigs : list Signature.t) (rs : AssociatedUser.t) :
  has_signed sigs rs = true
  ↔ AssociatedUser.user rs ∈ map Signature.signedBy sigs.
Proof.
  unfold has_signed. rewrite existsb_exists. split.
  - intros (sig & Hin%list_elem_of_In & Heq%bool_decide_eq_true).
    apply list_elem_of_fmap. by exists sig.
  - intros (sig & Heq & Hin)%list_elem_of_fmap. exists sig.
    split; [by apply list_elem_of_In|]. by apply bool_decide_eq_true.
Qed.

(** X19: for a document whose signatures are by distinct users, each of
    them a required signer (an associated user with permission 'sign',
    these being distinct), [getSignatureStatus] counts consistently:
    completed plus the number pending is required, and isComplete holds
    exactly when there is a required signer and nobody is pending; the
    pending are associated users with permission 'sign' who have not
    signed. *)
Theorem signature_status_counts (doc : Document.t) :
  NoDup (map AssociatedUser.user (requiredSigners doc)) →
  NoDup (map Signature.signedBy (Document.signatures doc)) →
  (∀ sig, sig ∈ Document.signatures doc →
     Signature.signedBy sig ∈ map AssociatedUser.user (requiredSigners doc)) →
  let st := getSignatureStatus doc in
  SignatureStatus.completed st + length (SignatureStatus.pending st)
  = SignatureStatus.required st
  ∧ (SignatureStatus.isComplete st = true
     ↔ 0 < SignatureStatus.required st ∧ SignatureStatus.pending st = [])
  ∧ (∀ au, au ∈ SignatureStatus.pending st →
       au ∈ Document.associatedUsers doc
       ∧ AssociatedUser.permission au = "sign"
       ∧ AssociatedUser.user au
           ∉ map Signature.signedBy (Document.signatures doc)).
Proof.
  intros Hreq Hsig Hsub st.
  assert (Hsigned :
    length (filter (λ rs, has_signed (Document.signatures doc) rs = true)
                   (requiredSigners doc))
    = length (Document.signatures doc)).
  { rewrite <- (length_map AssociatedUser.user),
            <- (length_map Signature.signedBy).
    apply Permutation_length, NoDup_Permutation;
      [by apply NoDup_map_filter|done|].
    intros u. split.
    - intros (rs & -> & [Hs _]%list_elem_of_filter)%list_elem_of_fmap.
      by apply has_signed_spec.
    - intros Hu. pose proof Hu as (sig & -> & Hin)%list_elem_of_fmap.
      apply Hsub in Hin as (rs & Hrs & Hin)%list_elem_of_fmap.
      apply list_elem_of_fmap. exists rs. split; [done|].
      apply list_elem_of_filter. split; [|done].
      apply has_signed_spec. by rewrite <- Hrs. }
  assert (Hcount : SignatureStatus.completed st
                   + length (SignatureStatus.pending st)
                   = SignatureStatus.required st).
  { unfold st, getSignatureStatus.
    cbn [SignatureStatus.completed SignatureStatus.pending
         SignatureStatus.required].
    rewrite <- Hsigned.
    rewrite <- (filter_partition_length
                  (λ rs, has_signed (Document.signatures doc) rs = true)
                  (requiredSigners doc)).
    f_equal. f_equal. apply list_filter_iff. intros rs.
    by destruct (has_signed _ rs). }
  split; [done|]. split.
  - unfold st, getSignatureStatus in *.
    cbn [SignatureStatus.completed SignatureStatus.pending
         SignatureStatus.required SignatureStatus.isComplete] in *.
    rewrite andb_true_iff, !bool_decide_eq_true.
    rewrite <- length_zero_iff_nil. lia.
  - intros au [Hns [Hperm Hin]%list_elem_of_filter]%list_elem_of_filter.
    split; [done|]. split; [done|].
    intros Hs%has_signed_spec. by rewrite Hs in Hns.
Qed.

(** ** Sharing a document *)









(** ** Conflicting meetings *)

Lemma times_conflict_overlap (this m : MeetingDoc.t) :
  (MeetingDoc.startTime this < MeetingDoc.endTime this)%Z →
  (MeetingDoc.startTime m < MeetingDoc.endTime m)%Z →
  times_conflict this m = true
  ↔ (MeetingDoc.startTime m < MeetingDoc.endTime this)%Z
    ∧ (MeetingDoc.startTime this < MeetingDoc.endTime m)%Z.
Proof.
  intros Hthis Hm. unfold times_conflict.
  rewrite !orb_true_iff, !andb_true_iff, !bool_decide_eq_true. lia.
Qed.

(** X21: for meetings that end after they start, [hasConflict] returns a
    meeting of the collection other than this one, of that user (organizer
    or attendee), scheduled or ongoing, whose time interval overlaps this
    one's (each starts before the other ends); and it returns none only if
    every such meeting ends by the start of this one or starts at its end
    or later: the three cases of the query are interval overlap, and
    meetings back to back do not conflict. *)
Theorem hasConflict_is_interval_overlap (collection : list MeetingDoc.t)
    (this : MeetingDoc.t) (userId : UserId) :
  (MeetingDoc.startTime this < MeetingDoc.endTime this)%Z →
  (∀ m, m ∈ collection →
        (MeetingDoc.startTime m < MeetingDoc.endTime m)%Z) →
  match hasConflict collection this userId with
  | Some m =>
      m ∈ collection
      ∧ MeetingDoc._id m ≠ MeetingDoc._id this
      ∧ involves userId m = true
      ∧ is_active m = true
      ∧ (MeetingDoc.startTime m < MeetingDoc.endTime this)%Z
      ∧ (MeetingDoc.startTime this < MeetingDoc.endTime m)%Z
  | None =>
      ∀ m, m ∈ collection →
        MeetingDoc._id m ≠ MeetingDoc._id this →
        involves userId m = true →
        is_active m = true →
        (MeetingDoc.endTime m ≤ MeetingDoc.startTime this)%Z
        ∨ (MeetingDoc.endTime this ≤ MeetingDoc.startTime m)%Z
  end.
Proof.
  intros Hthis Hall. unfold hasConflict.
  destruct (List.find _ collection) as [m|] eqn:Hfind.
  - apply find_some in Hfind as [Hin%list_elem_of_In Hq].
    rewrite !andb_true_iff in Hq. destruct Hq as [[[Ho Hi] Ha] Ht].
    apply (times_conflict_overlap this m Hthis (Hall m Hin)) in Ht.
    split; [done|]. split; [|done].
    unfold is_other in Ho. apply negb_true_iff, bool_decide_eq_false in Ho.
    done.
  - intros m Hin Hother Hinv Hact.
    pose proof (find_none _ _ Hfind m (proj1 (list_elem_of_In _ _) Hin)) as Hq.
    cbn beta in Hq. rewrite Hinv, Hact in Hq. unfold is_other in Hq.
    rewrite bool_decide_eq_false_2 in Hq by done. cbn in Hq.
    destruct (decide (MeetingDoc.endTime m ≤ MeetingDoc.startTime this)%Z);
      [by left|].
    destruct (decide (MeetingDoc.endTime this ≤ MeetingDoc.startTime m)%Z);
      [by right|].
    assert (times_conflict this m = true) as Ht; [|congruence].
    apply (times_conflict_overlap this m Hthis (Hall m Hin)). lia.
Qed.

(** ** The rate limiter *)

Lemma in_window_passed_times (windowMs : Z) (key : string) (now : Z)
    (passed : list (string * Z)) :
  length (in_window windowMs key now passed)
  = length (filter (λ time, (now - windowMs < time)%Z)
                   (passed_times key passed)).
Proof.
  unfold in_window, passed_times.
  induction passed as [|[k t] passed IH]; [done|].
  destruct (decide (k = key)) as [->|Hne].
  - rewrite (filter_cons_True (λ r, r.1 = key)) by done. cbn [map snd].
    destruct (decide (now - windowMs < t)%Z).
    + rewrite !filter_cons_True by done. cbn. by rewrite IH.
    + rewrite !filter_cons_False by (cbn; tauto). done.
  - rewrite !filter_cons_False by (cbn; tauto). done.
Qed.

Lemma filter_later (windowMs now now' : Z) (l : list Z) :
  (now ≤ now')%Z →
  filter (λ time, (now' - windowMs < time)%Z)
         (filter (λ time, (now - windowMs < time)%Z) l)
  = filter (λ time, (now' - windowMs < time)%Z) l.
Proof.
  intros Hle. rewrite list_filter_filter. apply list_filter_iff.
  intros t. lia.
Qed.

Lemma passed_times_app (key : string) (l l' : list (string * Z)) :
  passed_times key (l ++ l') = passed_times key l ++ passed_times key l'.
Proof. unfold passed_times. by rewrite filter_app, map_app. Qed.

(** One request: the verdict, and what the Map remembers afterwards. *)
Lemma rateLimit_step (windowMs : Z) (max : nat) (requests : JsMap.t (list Z))
    (passed : list (string * Z)) (last : Z) (key : string) (now : Z) :
  remembers windowMs requests passed last → (last ≤ now)%Z →
  let r := rateLimit windowMs max requests key now in
  (r.2 = next_ ↔ length (in_window windowMs key now passed) < max)
  ∧ remembers windowMs r.1
      (passed ++ match r.2 with next_ => [(key, now)] | _ => [] end) now
  ∧ (∀ retryAfter, r.2 = too_many retryAfter → 0 < max →
       ∃ n, retryAfter = Some n ∧ (1 ≤ n)%Z).
Proof.
  intros Hrem Hle r.
  set (valid := filter (λ time, (now - windowMs < time)%Z)
                       (stored_times requests key)).
  assert (Hvalid : ∃ requests1,
    r = (if decide (max ≤ length valid)
         then (requests1,
               too_many ((λ first, ceil_seconds (first + windowMs - now))
                           <$> head valid))
         else (JsMap.set key (valid ++ [now]) requests1, next_))
    ∧ stored_times requests1 key = valid
    ∧ ∀ k, k ≠ key → stored_times requests1 k = stored_times requests k).
  { unfold r, rateLimit, valid, stored_times.
    destruct (JsMap.get key requests) as [userRequests|] eqn:Hget.
    - rewrite !get_set_eq. cbn [default].
      exists (JsMap.set key
                (filter (λ time, (now - windowMs < time)%Z) userRequests)
                requests).
      split; [done|]. rewrite get_set_eq. split; [done|].
      intros k Hk. by rewrite get_set_ne.
    - exists requests. rewrite Hget. cbn [default].
      split; [done|]. split; [done|]. done. }
  destruct Hvalid as (requests1 & Hr & Hkey & Hother).
  assert (Hlen : length valid = length (in_window windowMs key now passed)).
  { rewrite in_window_passed_times. unfold valid. by rewrite (Hrem key now). }
  rewrite Hr. destruct (decide (max ≤ length valid)) as [Hfull|Hfree];
    cbn [fst snd].
  - split; [split; [done|lia]|]. split.
    + rewrite app_nil_r. intros k now' Hnow'.
      destruct (decide (k = key)) as [->|Hne].
      * rewrite Hkey. unfold valid. rewrite filter_later by done.
        apply Hrem. lia.
      * rewrite Hother by done. apply Hrem. lia.
    + intros retryAfter [= <-] Hmax.
      destruct valid as [|first rest] eqn:Hv; [cbn in Hfull; lia|].
      cbn. eexists. split; [done|].
      assert (Hfirst : (now - windowMs < first)%Z).
      { assert (first ∈ valid) as Hin by (rewrite Hv; left).
        by apply list_elem_of_filter in Hin as [? _]. }
      unfold ceil_seconds.
      assert ((- (first + windowMs - now)) / 1000 < 0)%Z; [|lia].
      apply Z.div_lt_upper_bound; lia.
  - split; [split; [lia|done]|]. split; [|done].
    intros k now' Hnow'. unfold stored_times.
    destruct (decide (k = key)) as [->|Hne].
    + rewrite get_set_eq. cbn [default from_option]. unfold id.
      rewrite passed_times_app.
      rewrite !filter_app. f_equal.
      * unfold valid. rewrite filter_later by done. apply Hrem. lia.
      * unfold passed_times.
        rewrite (filter_cons_True (λ r : string * Z, r.1 = key)) by done.
        by rewrite filter_nil.
    + rewrite get_set_ne by done. fold (stored_times requests1 k).
      rewrite Hother by done. rewrite passed_times_app.
      unfold passed_times at 2.
      rewrite (filter_cons_False (λ r : string * Z, r.1 = k))
        by (cbn; congruence).
      rewrite filter_nil. cbn [map]. rewrite app_nil_r. apply Hrem. lia.
Qed.

Lemma rateLimit_run_remembers (windowMs : Z) (max : nat)
    (reqs : list (string * Z)) (requests : JsMap.t (list Z))
    (passed : list (string * Z)) (last : Z) :
  remembers windowMs requests passed last → clock_ok last reqs →
  let r := rateLimit_run windowMs max requests reqs in
  ∃ last', (last ≤ last')%Z
           ∧ (∀ now, clock_ok last (reqs ++ [("", now)]) → (last' ≤ now)%Z)
           ∧ remembers windowMs r.1 (passed ++ r.2) last'.
Proof.
  revert requests passed last.
  induction reqs as [|[key now] reqs IH]; intros requests passed last Hrem Hck.
  - cbn. exists last. split; [lia|]. split; [intros now [? _]; lia|].
    by rewrite app_nil_r.
  - destruct Hck as [Hle Hck]. cbn [rateLimit_run].
    destruct (rateLimit_step windowMs max requests passed last key now
                Hrem Hle) as (_ & Hrem1 & _).
    destruct (rateLimit windowMs max requests key now) as [requests1 verdict].
    cbn [fst snd] in Hrem1.
    destruct (IH requests1 _ now Hrem1 Hck) as (last' & Hl & Hnext & Hrem2).
    destruct (rateLimit_run windowMs max requests1 reqs)
      as [requests2 passed2].
    cbn [fst snd] in *. exists last'. split; [lia|].
    split; [intros now' [_ ?]; by apply Hnext|].
    destruct verdict; rewrite <- app_assoc in Hrem2; exact Hrem2.
Qed.

(** X22: the rate limiter, started empty and fed requests by a clock that
    does not go back, lets a request through exactly when fewer than [max]
    requests of the same key were let through in the window before it
    (later than now - windowMs); and a refusal, [max] being positive,
    carries a retryAfter of at least one second. *)
Theorem rateLimit_counts_sliding_window (windowMs : Z) (max : nat)
    (start : Z) (reqs : list (string * Z)) (key : string) (now : Z) :
  clock_ok start (reqs ++ [(key, now)]) →
  let '(requests, passed) := rateLimit_run windowMs max JsMap.empty reqs in
  let verdict := (rateLimit windowMs max requests key now).2 in
  (verdict = next_ ↔ length (in_window windowMs key now passed) < max)
  ∧ (∀ retryAfter, verdict = too_many retryAfter → 0 < max →
       ∃ n, retryAfter = Some n ∧ (1 ≤ n)%Z).
Proof.
  intros Hck.
  assert (Hck' : clock_ok start reqs ∧ clock_ok start (reqs ++ [("", now)])).
  { clear -Hck. revert start Hck.
    induction reqs as [|[k t] reqs IH]; intros start Hck; [done|].
    destruct Hck as [Hle Hck]. destruct (IH t Hck). by repeat split. }
  destruct Hck' as [Hreqs Hlast].
  destruct (rateLimit_run_remembers windowMs max reqs JsMap.empty [] start)
    as (last' & _ & Hnext & Hrem); [done|done|].
  destruct (rateLimit_run windowMs max JsMap.empty reqs)
    as [requests passed].
  cbn [fst snd app] in Hrem.
  destruct (rateLimit_step windowMs max requests passed last' key now Hrem
              (Hnext now Hlast)) as (Hiff & _ & Hretry).
  done.
Qed.

(** ** The further theorems at concrete inputs *)

(** X1 at a concrete input: Bob starts to share his screen in the call of
    three. *)
Lemma screen_share_sets_own_flag_only_witness :
  JsMap.get "sB" (participants (manager call_of_three))
  = Some (Entry.mk bob "meeting_M")
  ∧ JsMap.get "meeting_M" (rooms (manager call_of_three))
    = Some (room_M call_of_three)
  ∧ JsMap.get "sB" (Room.participants (room_M call_of_three)) = Some bob
  ∧ own_flag_set call_of_three "sB" (Entry.mk bob "meeting_M")
      (room_M call_of_three) bob (Participant.with_isScreenSharing true)
      (screen_share_started "sB" "Bob")
      (handleStartScreenShare call_of_three "sB")
  ∧ seat_of (manager (handleStartScreenShare call_of_three "sB").1)
            "meeting_M" "sB"
    = Some (Participant.mk "sB" "uB" "Bob" false 20 true true true)
  ∧ seat_of (manager (handleStopScreenShare call_of_three "sB").1)
            "meeting_M" "sB"
    = Some (Participant.mk "sB" "uB" "Bob" false 20 true true false).
Proof.
  assert (H1 : JsMap.get "sB" (participants (manager call_of_three))
               = Some (Entry.mk bob "meeting_M")) by reflexivity.
  assert (H2 : JsMap.get (Entry.roomId (Entry.mk bob "meeting_M"))
                 (rooms (manager call_of_three))
               = Some (room_M call_of_three)) by reflexivity.
  assert (H3 : JsMap.get "sB" (Room.participants (room_M call_of_three))
               = Some bob) by reflexivity.
  split; [exact H1|]. split; [exact H2|]. split; [exact H3|].
  destruct (proj1 (screen_share_sets_own_flag_only call_of_three "sB")
              (Entry.mk bob "meeting_M") (room_M call_of_three) bob
              H1 H2 H3) as (Hstart & Hseat & _ & _ & Hseat' & _).
  split; [exact Hstart|]. split; [exact Hseat|exact Hseat'].
Defined.

(** X3 at a concrete input: Bob says hi in the call of three. *)
Lemma chat_message_reaches_whole_group_witness :
  JsMap.get "sB" (participants (manager call_of_three))
  = Some (Entry.mk bob "meeting_M")
  ∧ ascii_trim " hi " ≠ ""
  ∧ JsMap.get "meeting_M" (rooms (manager call_of_three))
    = Some (room_M call_of_three)
  ∧ (handleChatMessage ascii_trim call_of_three "sB" " hi " "id1" 40).2
    = map (λ s, Deliver s (chat_message
                             (ChatMessage.mk "id1" "uB" "Bob" "hi" 40 false)))
          ["sA"; "sB"; "sC"].
Proof.
  assert (H1 : JsMap.get "sB" (participants (manager call_of_three))
               = Some (Entry.mk bob "meeting_M")) by reflexivity.
  assert (H2 : ascii_trim " hi " ≠ "") by (vm_compute; congruence).
  assert (H3 : JsMap.get (Entry.roomId (Entry.mk bob "meeting_M"))
                 (rooms (manager call_of_three))
               = Some (room_M call_of_three)) by reflexivity.
  split; [exact H1|]. split; [exact H2|]. split; [exact H3|].
  pose proof (proj1 (chat_message_reaches_whole_group ascii_trim call_of_three
                       "sB" " hi " "id1" 40)
                (Entry.mk bob "meeting_M") (room_M call_of_three) H1 H2 H3)
    as H.
  cbv zeta in H.
  destruct (handleChatMessage ascii_trim call_of_three "sB" " hi " "id1" 40)
    as [w' effs].
  destruct H as [-> _]. cbn [snd]. vm_compute. reflexivity.
Defined.

(** X4 at a concrete input: of three posts to the call of three, the one
    of Bob enters the log. *)
Lemma chat_log_is_last_accepted_witness :
  let w' := (run ascii_trim call_of_three (map chat_event three_posts)).1 in
  JsMap.get (room_id_of "M") (rooms (manager call_of_three))
  = Some (room_M call_of_three)
  ∧ length (Room.chatMessages (room_M call_of_three)) ≤ chat_retention
  ∧ accepted_into ascii_trim (participants (manager call_of_three))
      (room_id_of "M") three_posts
    = [ChatMessage.mk "id1" "uB" "Bob" "hi" 40 false]
  ∧ participants (manager w') = participants (manager call_of_three)
  ∧ JsMap.get (room_id_of "M") (rooms (manager w'))
    = Some (Room.with_chatMessages
              (slice_last chat_retention
                 (Room.chatMessages (room_M call_of_three)
                  ++ accepted_into ascii_trim
                       (participants (manager call_of_three))
                       (room_id_of "M") three_posts))
              (room_M call_of_three)).
Proof.
  intros w'.
  assert (Hroom : JsMap.get (room_id_of "M") (rooms (manager call_of_three))
                  = Some (room_M call_of_three)) by reflexivity.
  assert (Hlen : length (Room.chatMessages (room_M call_of_three))
                 ≤ chat_retention) by (vm_compute; lia).
  split; [exact Hroom|]. split; [exact Hlen|].
  split; [vm_compute; reflexivity|].
  exact (chat_log_is_last_accepted ascii_trim three_posts call_of_three
           (room_id_of "M") (room_M call_of_three) Hroom Hlen).
Defined.

(** X6 at a concrete input: [sC] leaves the call of three, and Bob says
    hi. *)
Lemma leave_keeps_group_membership_witness :
  let w' := (handleLeaveRoom call_of_three "sC" (Resolved ())).1.1 in
  JsMap.get "sC" (participants (manager w')) = None
  ∧ io w' = io call_of_three
  ∧ Deliver "sC" (chat_message (ChatMessage.mk "id1" "uB" "Bob" "hi" 40 false))
    ∈ (handleChatMessage ascii_trim w' "sB" " hi " "id1" 40).2.
Proof.
  intros w'.
  destruct (leave_keeps_group_membership ascii_trim call_of_three "sC"
              (Resolved ())) as (Hio & Hchat & _).
  fold w' in Hio, Hchat.
  split; [vm_compute; reflexivity|]. split; [exact Hio|].
  apply (Hchat "sB" " hi " "id1" 40%Z (Entry.mk bob "meeting_M")
           (room_M w')).
  - vm_compute. reflexivity.
  - vm_compute. congruence.
  - vm_compute. reflexivity.
  - vm_compute. do 2 right. left.
Defined.

(** X7 at a concrete input: [sC] joins the call of two and leaves it. *)
Lemma join_then_leave_restores_manager_witness :
  let r := handleJoinRoom call_of_two "sC" "M" "uB" "Bob" (envOk 30) in
  r.2 = None
  ∧ JsMap.get "sC" (participants (manager call_of_two)) = None
  ∧ manager (handleLeaveRoom r.1.1 "sC" (Resolved ())).1.1
    = manager call_of_two
  ∧ "sC" ∈ members (io (handleLeaveRoom r.1.1 "sC" (Resolved ())).1.1)
                   (room_id_of "M").
Proof.
  intros r.
  assert (Hjoin : handleJoinRoom call_of_two "sC" "M" "uB" "Bob" (envOk 30)
                  = (r.1.1, r.1.2, None)) by (vm_compute; reflexivity).
  assert (Hfresh : JsMap.get "sC" (participants (manager call_of_two)) = None)
    by reflexivity.
  assert (Hroom : ∀ room,
            JsMap.get (room_id_of "M") (rooms (manager call_of_two))
            = Some room →
            JsMap.get "sC" (Room.participants room) = None
            ∧ JsMap.size (Room.participants room) ≠ 0).
  { intros room [= <-]. split; [reflexivity|]. vm_compute. lia. }
  destruct (join_then_leave_restores_manager call_of_two r.1.1 "sC" "M" "uB"
              "Bob" (envOk 30) r.1.2 (Resolved ()) Hjoin Hfresh Hroom)
    as (Hm & _ & Hin).
  split; [reflexivity|]. split; [exact Hfresh|]. split; [exact Hm|exact Hin].
Defined.

(** X8 at a concrete input: Bob's socket [sB], muted, joins the call of
    three a second time. *)
Lemma rejoin_replaces_own_seat_witness :
  let w := (handleToggleAudio call_of_three "sB" false).1 in
  let r := handleJoinRoom w "sB" "M" "uB" "Bob" (envOk 50) in
  r.2 = None
  ∧ (Participant.audio <$> seat_of (manager w) (room_id_of "M") "sB")
    = Some false
  ∧ ∃ room' p,
      JsMap.get (room_id_of "M") (rooms (manager r.1.1)) = Some room'
      ∧ JsMap.keys (Room.participants room') = ["sA"; "sB"; "sC"]
      ∧ JsMap.get "sB" (Room.participants room') = Some p
      ∧ Participant.audio p = true
      ∧ meeting_writes r.1.2 = [].
Proof.
  intros w r.
  assert (Hjoin : handleJoinRoom w "sB" "M" "uB" "Bob" (envOk 50)
                  = (r.1.1, r.1.2, None)) by (vm_compute; reflexivity).
  assert (Hroom : JsMap.get (room_id_of "M") (rooms (manager w))
                  = Some (room_M w)) by reflexivity.
  assert (Hseat : JsMap.get "sB" (Room.participants (room_M w))
                  = Some (Participant.mk "sB" "uB" "Bob" false 20 false true
                                         false))
    by (vm_compute; reflexivity).
  destruct (rejoin_replaces_own_seat w r.1.1 "sB" "M" "uB" "Bob" (envOk 50)
              r.1.2 (room_M w) _ Hjoin Hroom Hseat)
    as (room' & p & Hr & Hkeys & _ & Hp & _ & _ & _ & _ & Haudio & _ & _ & _
        & _ & Hwrites).
  split; [reflexivity|]. split; [vm_compute; reflexivity|].
  exists room', p. split; [exact Hr|]. split; [by rewrite Hkeys|].
  split; [exact Hp|]. split; [exact Haudio|exact Hwrites].
Defined.

(** X9 at a concrete input: Bob's socket [sB], seated in the call of
    three, joins the meeting [N] and leaves. *)
Lemma join_of_second_meeting_orphans_seat_witness :
  let r := handleJoinRoom call_of_three "sB" "N" "uB" "Bob" (envOk 50) in
  let w2 := (handleLeaveRoom r.1.1 "sB" (Resolved ())).1.1 in
  r.2 = None
  ∧ is_Some (seat_of (manager w2) (room_id_of "M") "sB")
  ∧ seat_of (manager w2) (room_id_of "N") "sB" = None
  ∧ JsMap.get "sB" (participants (manager w2)) = None
  ∧ ¬ index_ok (manager w2).
Proof.
  intros r w2.
  assert (Hjoin : handleJoinRoom call_of_three "sB" "N" "uB" "Bob" (envOk 50)
                  = (r.1.1, r.1.2, None)) by (vm_compute; reflexivity).
  assert (He : JsMap.get "sB" (participants (manager call_of_three))
               = Some (Entry.mk (Participant.mk "sB" "uB" "Bob" false 20 true
                                                true false)
                                (room_id_of "M")))
    by (vm_compute; reflexivity).
  assert (Hne : room_id_of "M" ≠ room_id_of "N") by (vm_compute; congruence).
  assert (Hroom : JsMap.get (room_id_of "M") (rooms (manager call_of_three))
                  = Some (room_M call_of_three)) by reflexivity.
  assert (Hseat : JsMap.get "sB" (Room.participants (room_M call_of_three))
                  = Some (Participant.mk "sB" "uB" "Bob" false 20 true true
                                         false))
    by (vm_compute; reflexivity).
  destruct (join_of_second_meeting_orphans_seat call_of_three r.1.1 "sB" "N"
              "uB" "Bob" (envOk 50) r.1.2 _ (room_M call_of_three) _
              (Resolved ()) Hjoin He Hne Hroom Hseat)
    as (_ & _ & _ & Hghost & Hleft & Hgone & Hbad).
  cbn [Entry.roomId] in Hghost.
  split; [reflexivity|]. split; [unfold w2; rewrite Hghost; eauto|].
  split; [exact Hleft|]. split; [exact Hgone|exact Hbad].
Defined.

(** X10 at a concrete input: the teardown of Ann's leave resumes after Bob
    has taken a seat in the room. *)
Lemma steps_touch_only_their_socket_witness :
  let gap := (exec ascii_trim (mkSys lobby []) (take 4 join_in_the_gap)).1 in
  let after := (step ascii_trim gap (settles 0 (Resolved ()) 30)).1 in
  awaiting gap !! 0 = Some (teardown_awaits (Pending.mk "meeting_M" "sA"))
  ∧ seat_of (manager (world gap)) "meeting_M" "sB"
    = Some (Participant.mk "sB" "uB" "Bob" false 20 true true false)
  ∧ seat_of (manager (world after)) "meeting_M" "sB" = None
  ∧ JsMap.get "sB" (participants (manager (world after)))
    = JsMap.get "sB" (participants (manager (world gap))).
Proof.
  intros gap after.
  assert (Hi : awaiting gap !! 0
               = Some (teardown_awaits (Pending.mk "meeting_M" "sA")))
    by reflexivity.
  destruct (proj2 (proj2 (steps_touch_only_their_socket ascii_trim gap))
              0 (Pending.mk "meeting_M" "sA") (Resolved ()) 30%Z Hi)
    as (Hothers & _ & _ & _ & Hseats).
  split; [exact Hi|]. split; [reflexivity|].
  split; [exact (Hseats "meeting_M" "sB")|].
  apply Hothers. by intros [=].
Defined.

(** The run with the join in the gap has first joins only. *)
Lemma gap_run_first_joins : first_joins ascii_trim (mkSys initial []) gap_run.
Proof.
  cbn [first_joins gap_run map app connect_three join_in_the_gap first_join].
  repeat split; try done.
  - intros k Hk. by apply elem_of_nil in Hk.
  - intros k Hk.
    change (k ∈ [teardown_awaits (Pending.mk "meeting_M" "sA")]) in Hk.
    apply list_elem_of_singleton in Hk as ->. by intros [=].
Qed.

(** The three joins of the call of three, each settled at once, are first
    joins. *)
Lemma call_of_three_first_joins :
  first_joins ascii_trim (mkSys initial [])
    (uninterrupted (connect_three ++ join_three)).
Proof.
  cbn [first_joins uninterrupted connect_three join_three app map concat
       settled_at_once first_join].
  repeat split; try done; intros k Hk; change (k ∈ []) in Hk;
    by apply elem_of_nil in Hk.
Qed.

(** X11 at a concrete input: the statistics after the join in the gap,
    asked for by an investor: one socket in the index and no room; and the
    statistics of the call of three, where the two counts agree. *)
Lemma call_stats_count_seats_witness :
  first_joins ascii_trim (mkSys initial []) gap_run
  ∧ match getActiveCallStats
            (manager (world (exec ascii_trim (mkSys initial []) gap_run).1))
            "investor" 100 with
    | stats_sent stats =>
        Stats.totalRooms stats = 0
        ∧ Stats.totalParticipants stats = 1
        ∧ sum_list (map RoomStats.participantCount (Stats.rooms stats)) = 0
        ∧ sum_list (map RoomStats.participantCount (Stats.rooms stats))
          ≤ Stats.totalParticipants stats
    | stats_refused _ _ => False
    end
  ∧ match getActiveCallStats
            (manager (world (exec ascii_trim (mkSys initial [])
                               (uninterrupted
                                  (connect_three ++ join_three))).1))
            "investor" 100 with
    | stats_sent stats =>
        Stats.totalRooms stats = 1
        ∧ Stats.totalParticipants stats = 3
        ∧ Stats.totalParticipants stats
          = sum_list (map RoomStats.participantCount (Stats.rooms stats))
    | stats_refused _ _ => False
    end.
Proof.
  split; [exact gap_run_first_joins|].
  pose proof (call_stats_count_seats ascii_trim gap_run 100 "investor"
                gap_run_first_joins) as H.
  pose proof (call_stats_count_seats ascii_trim
                (uninterrupted (connect_three ++ join_three)) 100 "investor"
                call_of_three_first_joins) as H'.
  cbv zeta in H, H'.
  split.
  - destruct (getActiveCallStats _ "investor" 100) as [stats|code message]
      eqn:Hstats in H |- *.
    + destruct H as (_ & -> & _ & _ & _ & _ & _ & Hle & _).
      split; [reflexivity|]. split; [reflexivity|].
      split; [reflexivity|exact Hle].
    + vm_compute in Hstats. discriminate Hstats.
  - destruct (getActiveCallStats _ "investor" 100) as [stats|code message]
      eqn:Hstats in H' |- *.
    + destruct H' as (_ & Hs & _ & _ & _ & _ & _ & _ & Heq & Hidx & _).
      split; [by rewrite Hs|]. split; [by rewrite Hs|].
      exact (Heq (Hidx _ call_of_three_admissible eq_refl)).
    + vm_compute in Hstats. discriminate Hstats.
Defined.

(** X12 at a concrete input: Bob, who is an attendee, asks to end the call
    of three; and Ann ends the call of a meeting that has notes and no
    room. *)
Lemma endVideoCall_guards_and_save_outcome_witness :
  let noted := Meeting.mk "Pitch" "uA" ["uB"] ongoing (Some "Agenda sent") in
  Meeting.organizer org ≠ "uB"
  ∧ (∃ code message,
       code ∈ [500; 404; 403]
       ∧ endVideoCall ascii_trim call_of_three "M" "uB" "Bob"
           (Resolved (Some org)) "2026-01-01T10:00:00.000Z" (Resolved ())
         = (call_of_three, [], Response.mk code message None, []))
  ∧ (endVideoCall ascii_trim lobby "M" "uA" "Ann" (Resolved (Some noted))
       "2026-01-01T10:00:00.000Z" (Rejected "connection lost")).1.1.2
    = [MeetingSave "M" completed
         ("Agenda sent"
          +:+ String (Ascii.ascii_of_nat 10)
                "Call ended by organizer at 2026-01-01T10:00:00.000Z")].
Proof.
  intros noted.
  assert (Hno : ∀ meeting, Resolved (Some org) = Resolved (Some meeting) →
                  Meeting.organizer meeting ≠ "uB").
  { intros meeting [= <-]. vm_compute. congruence. }
  split; [apply (Hno org eq_refl)|].
  split.
  - exact (proj1 (endVideoCall_guards_and_save_outcome ascii_trim
                    call_of_three "M" "uB" "Bob" "2026-01-01T10:00:00.000Z")
                 (Resolved (Some org)) (Resolved ()) Hno).
  - pose proof (proj2 (proj2 (endVideoCall_guards_and_save_outcome ascii_trim
                                lobby "M" "uA" "Ann"
                                "2026-01-01T10:00:00.000Z"))
                  noted (Rejected "connection lost") eq_refl eq_refl) as H.
    destruct (endVideoCall _ _ _ _ _ _ _ _) as [[[w' effs] response] pending].
    destruct H as (_ & _ & ->). reflexivity.
Defined.

(** X13 at a concrete input: Ann ends the call of three, and the teardown
    left waiting resumes. *)
Lemma endVideoCall_clears_room_and_index_witness :
  let r := endVideoCall ascii_trim call_of_three "M" "uA" "Ann"
             (Resolved (Some org)) "2026-01-01T10:00:00.000Z" (Resolved ()) in
  let w'' := resume_all r.1.1.1 r.2 (λ _, Resolved ()) in
  world_ok call_of_three
  ∧ JsMap.keys (Room.participants (room_M call_of_three)) = ["sA"; "sB"; "sC"]
  ∧ (∀ s, s ∈ ["sA"; "sB"; "sC"] →
       JsMap.get s (participants (manager w'')) = None)
  ∧ JsMap.get (room_id_of "M") (rooms (manager w'')) = None
  ∧ r.2 = [Pending.mk (room_id_of "M") "sC"].
Proof.
  intros r w''.
  assert (Hkeys : JsMap.keys (Room.participants (room_M call_of_three))
                  = ["sA"; "sB"; "sC"]) by reflexivity.
  pose proof (endVideoCall_clears_room_and_index ascii_trim call_of_three
                "M" "uA" "Ann" org "2026-01-01T10:00:00.000Z" (Resolved ())
                (room_M call_of_three) (λ _, Resolved ())
                call_of_three_ok eq_refl eq_refl) as H.
  fold r in H. unfold w''. destruct r as [[[w' effs] response] pending] eqn:Hr.
  cbn [fst snd]. destruct H as (Hgone & _ & Hroom & _ & _).
  split; [exact call_of_three_ok|]. split; [exact Hkeys|].
  split; [intros s Hs; apply Hgone; by rewrite Hkeys|].
  split; [exact Hroom|].
  assert (Hp : r.2 = [Pending.mk (room_id_of "M") "sC"])
    by (vm_compute; reflexivity).
  rewrite Hr in Hp. exact Hp.
Defined.


(** X15 at a concrete input: two visits to the meeting [M]. *)
Lemma uninterrupted_status_writes_alternate_witness :
  Forall (serves_only "M") two_visits
  ∧ meeting_writes
      (exec ascii_trim (mkSys initial []) (uninterrupted two_visits)).2
    = [ FindByIdAndUpdate "M" ongoing None;
        FindByIdAndUpdate "M" completed
          (Some "Meeting completed with 1 chat messages");
        FindByIdAndUpdate "M" ongoing None;
        FindByIdAndUpdate "M" completed (Some "Meeting completed") ]
  ∧ alternates false
      (meeting_writes
         (exec ascii_trim (mkSys initial []) (uninterrupted two_visits)).2)
    = Some false.
Proof.
  assert (Hall : Forall (serves_only "M") two_visits).
  { repeat constructor. }
  pose proof (uninterrupted_status_writes_alternate ascii_trim "M" two_visits Hall) as H.
  destruct (exec ascii_trim (mkSys initial []) (uninterrupted two_visits))
    as [σ effs] eqn:Hrun.
  cbn [fst snd]. destruct H as (_ & Halt & _).
  assert (Hw : (exec ascii_trim (mkSys initial [])
                  (uninterrupted two_visits)).2 = effs) by (by rewrite Hrun).
  assert (Heffs : meeting_writes
                    (exec ascii_trim (mkSys initial [])
                       (uninterrupted two_visits)).2
            = [ FindByIdAndUpdate "M" ongoing None;
                FindByIdAndUpdate "M" completed
                  (Some "Meeting completed with 1 chat messages");
                FindByIdAndUpdate "M" ongoing None;
                FindByIdAndUpdate "M" completed (Some "Meeting completed") ])
    by (vm_compute; reflexivity).
  rewrite Hw in Heffs. split; [exact Hall|]. split; [exact Heffs|].
  rewrite Halt. f_equal. rewrite Heffs in Halt. cbn in Halt. congruence.
Defined.

(** X16 at a concrete input: [sC] leaves the call of three. *)
Lemma join_and_leave_notify_the_others_witness :
  Deliver "sA" (user_left "sC" "Bob")
    ∈ (removeParticipant call_of_three "sC" (Resolved ())).1.2
  ∧ Deliver "sB" (user_left "sC" "Bob")
      ∈ (removeParticipant call_of_three "sC" (Resolved ())).1.2
  ∧ Deliver "sC" (user_left "sC" "Bob")
      ∉ (removeParticipant call_of_three "sC" (Resolved ())).1.2.
Proof.
  assert (He : JsMap.get "sC" (participants (manager call_of_three))
               = Some (Entry.mk (Participant.mk "sC" "uB" "Bob" false 30 true
                                                true false) "meeting_M"))
    by reflexivity.
  assert (Hr : JsMap.get "meeting_M" (rooms (manager call_of_three))
               = Some (room_M call_of_three)) by reflexivity.
  pose proof (λ s, proj2 (join_and_leave_notify_the_others call_of_three "sC")
                     _ (room_M call_of_three) (Resolved ()) s He Hr) as H.
  cbn [Entry.roomId Entry.participant Participant.userName] in H.
  split; [|split].
  - apply H. split; [done|]. vm_compute. left.
  - apply H. split; [done|]. vm_compute. right. left.
  - intros [Hne _]%H. done.
Defined.

(** X17 at a concrete input: on the contract, Bob, who is to sign, may
    edit as well; Dan, who is to view, may not. *)
Lemma permission_levels_are_ordered_witness :
  hasPermission contract "uB" Level.sign = true
  ∧ hasPermission contract "uB" Level.edit = true
  ∧ hasPermission contract "uD" Level.view = true
  ∧ hasPermission contract "uD" Level.edit = false
  ∧ hasPermission contract "uD" Level.sign = false.
Proof.
  assert (Hsign : hasPermission contract "uB" Level.sign = true)
    by reflexivity.
  destruct (permission_levels_are_ordered contract "uB")
    as (Hse & _ & _ & _ & _).
  destruct (permission_levels_are_ordered contract "uD")
    as (_ & _ & _ & _ & Hentry).
  destruct (Hentry [AssociatedUser.mk "uB" "sign"; AssociatedUser.mk "uC" "sign"]
              (AssociatedUser.mk "uD" "view") [])
    as (Hview & _); [by intros [=]|reflexivity|compute_done|reflexivity|].
  split; [exact Hsign|]. split; [exact (Hse Hsign)|]. by apply Hview.
Defined.

(** X19 at a concrete input: the contract that Bob has signed and Cid has
    not. *)
Lemma signature_status_counts_witness :
  let st := getSignatureStatus contract in
  SignatureStatus.required st = 2
  ∧ SignatureStatus.completed st = 1
  ∧ SignatureStatus.completed st + length (SignatureStatus.pending st)
    = SignatureStatus.required st
  ∧ (SignatureStatus.isComplete st = true
     ↔ 0 < SignatureStatus.required st ∧ SignatureStatus.pending st = []).
Proof.
  intros st.
  assert (H1 : NoDup (map AssociatedUser.user (requiredSigners contract))).
  { compute_done. }
  assert (H2 : NoDup (map Signature.signedBy (Document.signatures contract))).
  { compute_done. }
  assert (H3 : ∀ sig, sig ∈ Document.signatures contract →
            Signature.signedBy sig
              ∈ map AssociatedUser.user (requiredSigners contract)).
  { intros sig ->%list_elem_of_singleton. vm_compute. left. }
  destruct (signature_status_counts contract H1 H2 H3) as (Hc & Hiff & _).
  split; [reflexivity|]. split; [reflexivity|]. split; [exact Hc|exact Hiff].
Defined.


(** X21 at a concrete input: a meeting from 10 to 11 between two meetings
    of Bob that end at 10 and start at 11. *)
Lemma hasConflict_is_interval_overlap_witness :
  hasConflict calendar new_meeting "uB" = None
  ∧ ∀ m, m ∈ calendar →
      MeetingDoc._id m ≠ MeetingDoc._id new_meeting →
      involves "uB" m = true → is_active m = true →
      (MeetingDoc.endTime m ≤ MeetingDoc.startTime new_meeting)%Z
      ∨ (MeetingDoc.endTime new_meeting ≤ MeetingDoc.startTime m)%Z.
Proof.
  assert (Hthis : (MeetingDoc.startTime new_meeting
                   < MeetingDoc.endTime new_meeting)%Z) by (vm_compute; done).
  assert (Hall : ∀ m, m ∈ calendar →
            (MeetingDoc.startTime m < MeetingDoc.endTime m)%Z).
  { intros m [->|[->|?%elem_of_nil]%elem_of_cons]%elem_of_cons;
      [vm_compute; done..|done]. }
  pose proof (hasConflict_is_interval_overlap calendar new_meeting "uB"
                Hthis Hall) as H.
  assert (Hnone : hasConflict calendar new_meeting "uB" = None)
    by (vm_compute; reflexivity).
  rewrite Hnone in H. split; [exact Hnone|exact H].
Defined.

(** X22 at a concrete input: with a window of a minute and five requests
    at most, the sixth request in a minute is refused and a seventh, a
    minute after the first, is let through. *)
Lemma rateLimit_counts_sliding_window_witness :
  let reqs := [("uA-/pay", 0); ("uA-/pay", 1); ("uA-/pay", 2);
               ("uA-/pay", 3); ("uA-/pay", 4); ("uA-/pay", 5)]%Z in
  let '(requests, passed) := rateLimit_run 60000 5 JsMap.empty reqs in
  length passed = 5
  ∧ ((rateLimit 60000 5 requests "uA-/pay" 60000).2 = next_
     ↔ length (in_window 60000 "uA-/pay" 60000 passed) < 5)
  ∧ (rateLimit 60000 5 requests "uA-/pay" 60000).2 = next_.
Proof.
  intros reqs.
  assert (Hck : clock_ok 0 (reqs ++ [("uA-/pay", 60000%Z)])).
  { cbn. repeat split; lia. }
  pose proof (rateLimit_counts_sliding_window 60000 5 0 reqs "uA-/pay" 60000
                Hck) as H.
  destruct (rateLimit_run 60000 5 JsMap.empty reqs) as [requests passed]
    eqn:Hrun.
  destruct H as [Hiff _].
  assert (Hrun' : rateLimit_run 60000 5 JsMap.empty reqs
                  = ([("uA-/pay", [0; 1; 2; 3; 4]%Z)],
                     [("uA-/pay", 0); ("uA-/pay", 1); ("uA-/pay", 2);
                      ("uA-/pay", 3); ("uA-/pay", 4)]%Z))
    by (vm_compute; reflexivity).
  rewrite Hrun in Hrun'. injection Hrun' as -> ->.
  split; [reflexivity|]. split; [exact Hiff|]. vm_compute. reflexivity.
Defined.
